(** * A shallow embedding of the Timestream SQL validator

    Source: [pkg/timestream/validator/validator.go].

    The Go code is a byte-level lexer followed by index-based scans over the
    token slice.  The embedding keeps that shape:

    - a Go [string] is a [string] (a sequence of 8-bit [ascii] bytes), read
      by index ([s[i]], [s[i:j]]);
    - a Go [int] is a [Z].  Every integer of the program is an index into the
      input or the token slice, a nesting depth, or one of those plus a small
      constant, so its absolute value is at most the input length plus 6 and
      the 64-bit wrap-around of Go's [int] is never reached;
    - [[]token] is a [list token], read by index through [tok_at];
    - an index out of range is a Go run-time panic: [Panic];
    - every [for] loop is a [Fixpoint] over a fuel argument that keeps the
      loop's own condition; running dry is the separate outcome [OutOfFuel],
      so that "the function returns" is a statement one has to prove. *)

From Stdlib Require Import ZArith List String Ascii Bool Lia.
From stdpp Require Import base list.

Open Scope string_scope.
Open Scope list_scope.
Open Scope Z_scope.

Infix "+++" := String.append (at level 60, right associativity).

(** ** Outcomes of a Go computation *)

Inductive res (A : Type) : Type :=
| Ok (a : A)
| Panic
| OutOfFuel.

Arguments Ok {A} a.
Arguments Panic {A}.
Arguments OutOfFuel {A}.

Definition bind {A B : Type} (m : res A) (k : A -> res B) : res B :=
  match m with
  | Ok a => k a
  | Panic => Panic
  | OutOfFuel => OutOfFuel
  end.

Notation "'let*' x := m 'in' k" := (bind m (fun x => k))
  (at level 10, x name, m at level 100, k at level 200).
Notation "'let*' ' p := m 'in' k" := (bind m (fun x => match x with p => k end))
  (at level 10, p pattern, m at level 100, k at level 200).

(** Go's [a && b] when [b] indexes a slice: [b] runs only if [a] holds. *)
Definition guarded (a : bool) (b : res bool) : res bool :=
  if a then b else Ok false.

(** ** Strings as byte sequences *)

Definition len (s : string) : Z := Z.of_nat (String.length s).

(** [s[i]] *)
Definition byte_at (s : string) (i : Z) : res ascii :=
  if i <? 0 then Panic
  else match String.get (Z.to_nat i) s with
       | Some c => Ok c
       | None => Panic
       end.

(** [s[i:j]] *)
Definition slice (s : string) (i j : Z) : res string :=
  if (0 <=? i) && (i <=? j) && (j <=? len s)
  then Ok (String.substring (Z.to_nat i) (Z.to_nat (j - i)) s)
  else Panic.

Definition byte_val (c : ascii) : Z := Z.of_N (N_of_ascii c).

Definition between_bytes (lo hi : Z) (c : ascii) : bool :=
  (lo <=? byte_val c) && (byte_val c <=? hi).

Definition chr (n : Z) : ascii := ascii_of_N (Z.to_N n).

Definition newline : ascii := chr 10.
Definition dquote : ascii := chr 34.
Definition squote : ascii := "'"%char.

(** ** Go's [unicode] and [strings] packages on bytes

    The validator converts each byte with [rune(b)], so the [unicode]
    predicates only ever see code points below 256; on those they are the
    Latin-1 tables of the Go library. *)

(** [unicode.IsSpace]: TAB, LF, VT, FF, CR, space, U+0085, U+00A0. *)
Definition IsSpace (c : ascii) : bool :=
  between_bytes 9 13 c || (byte_val c =? 32) || (byte_val c =? 133) || (byte_val c =? 160).

(** [unicode.IsLetter] below 256: A-Z, a-z, U+00AA, U+00B5, U+00BA,
    U+00C0-U+00D6, U+00D8-U+00F6, U+00F8-U+00FF. *)
Definition IsLetter (c : ascii) : bool :=
  between_bytes 65 90 c || between_bytes 97 122 c
  || (byte_val c =? 170) || (byte_val c =? 181) || (byte_val c =? 186)
  || between_bytes 192 214 c || between_bytes 216 246 c || between_bytes 248 255 c.

(** [unicode.IsDigit] below 256: 0-9. *)
Definition IsDigit (c : ascii) : bool := between_bytes 48 57 c.

(** [unicode.ToLower] below 256: A-Z and U+00C0-U+00DE (but U+00D7) move up
    by 32, every other code point stays. *)
Definition ToLowerRune (c : ascii) : ascii :=
  if between_bytes 65 90 c || (between_bytes 192 222 c && negb (byte_val c =? 215))
  then chr (byte_val c + 32)
  else c.

(** [string(r)] for a byte [r]: the UTF-8 encoding of code point [r], one
    byte below 128 and two bytes from 128 on. *)
Definition string_of_rune (c : ascii) : string :=
  if byte_val c <? 128 then String c EmptyString
  else String (chr (192 + byte_val c / 64))
         (String (chr (128 + byte_val c mod 64)) EmptyString).

Fixpoint string_forallb (p : ascii -> bool) (s : string) : bool :=
  match s with
  | EmptyString => true
  | String c s' => p c && string_forallb p s'
  end.

Fixpoint string_map (f : ascii -> ascii) (s : string) : string :=
  match s with
  | EmptyString => EmptyString
  | String c s' => String (f c) (string_map f s')
  end.

Definition is_ascii_byte (c : ascii) : bool := byte_val c <? 128.

(** What the Go library does on text with bytes from 128 on (UTF-8 decoding
    and the full Unicode tables) is left open: the validator is studied for
    every possible behaviour of these two functions. *)
Class Unicode : Type := {
  (** the result of [strings.ToLower] on text that is not ASCII-only,
      [strings.Map(unicode.ToLower, s)] *)
  unicodeToLower : string -> string;
  (** the result of [strings.TrimSpace] on text that is not ASCII-only,
      [strings.TrimFunc(s, unicode.IsSpace)] *)
  unicodeTrimSpace : string -> string
}.

(** [strings.ToLower]: byte-wise on ASCII-only text. *)
Definition ToLower `{Unicode} (s : string) : string :=
  if string_forallb is_ascii_byte s then string_map ToLowerRune s
  else unicodeToLower s.

Definition asciiSpace (c : ascii) : bool :=
  between_bytes 9 13 c || (byte_val c =? 32).

Fixpoint trim_left (s : string) : string :=
  match s with
  | EmptyString => EmptyString
  | String c s' => if asciiSpace c then trim_left s' else s
  end.

Fixpoint trim_right (s : string) : string :=
  match s with
  | EmptyString => EmptyString
  | String c s' =>
      match trim_right s' with
      | EmptyString => if asciiSpace c then EmptyString else String c EmptyString
      | t => String c t
      end
  end.

(** [strings.TrimSpace]: on ASCII-only text it drops the leading and trailing
    TAB, LF, VT, FF, CR and space bytes. *)
Definition TrimSpace `{Unicode} (s : string) : string :=
  if string_forallb is_ascii_byte s then trim_right (trim_left s)
  else unicodeTrimSpace s.

(** [strings.Contains(s, ".")] *)
Fixpoint contains_dot (s : string) : bool :=
  match s with
  | EmptyString => false
  | String c s' => Ascii.eqb c "."%char || contains_dot s'
  end.

(** ** Tokens *)

Inductive tokenKind : Type :=
| tkIdent
| tkKeyword
| tkString
| tkNumber
| tkSymbol.

Definition tokenKind_eqb (a b : tokenKind) : bool :=
  match a, b with
  | tkIdent, tkIdent | tkKeyword, tkKeyword | tkString, tkString
  | tkNumber, tkNumber | tkSymbol, tkSymbol => true
  | _, _ => false
  end.

Record token : Type := mkToken {
  val : string;
  kind : tokenKind;
  depth : Z
}.

Definition keywords : list string :=
  [ "select"; "from"; "where"; "group"; "by"; "order"; "having";
    "union"; "intersect"; "except"; "join"; "left"; "right"; "full";
    "outer"; "inner"; "cross"; "on"; "as"; "with"; "lateral";
    "between"; "and"; "or"; "not"; "in"; "exists" ].

Definition is_keyword (word : string) : bool :=
  existsb (String.eqb word) keywords.

(** ** stripComments *)

(** [b.WriteByte(c)] *)
Definition WriteByte (b : string) (c : ascii) : string :=
  String.append b (String c EmptyString).

(** The loop of [stripComments]; [i] is the loop variable, [b] the builder. *)
Fixpoint stripComments_loop (fuel : nat) (s b : string) (inLine inBlock : bool) (i : Z)
  : res string :=
  if i <? len s then
    match fuel with
    | O => OutOfFuel
    | S fuel =>
        let* c := byte_at s i in
        if inLine then
          if Ascii.eqb c newline
          then stripComments_loop fuel s (WriteByte b c) false inBlock (i + 1)
          else stripComments_loop fuel s b inLine inBlock (i + 1)
        else if inBlock then
          let* closes :=
            guarded (Ascii.eqb c "*"%char && (i + 1 <? len s))
              (let* c1 := byte_at s (i + 1) in Ok (Ascii.eqb c1 "/"%char)) in
          if closes
          then stripComments_loop fuel s b inLine false (i + 1 + 1)
          else stripComments_loop fuel s b inLine inBlock (i + 1)
        else
          let* dashes :=
            guarded (Ascii.eqb c "-"%char && (i + 1 <? len s))
              (let* c1 := byte_at s (i + 1) in Ok (Ascii.eqb c1 "-"%char)) in
          if dashes
          then stripComments_loop fuel s b true inBlock (i + 1 + 1)
          else
            let* opens :=
              guarded (Ascii.eqb c "/"%char && (i + 1 <? len s))
                (let* c1 := byte_at s (i + 1) in Ok (Ascii.eqb c1 "*"%char)) in
            if opens
            then stripComments_loop fuel s b inLine true (i + 1 + 1)
            else stripComments_loop fuel s (WriteByte b c) inLine inBlock (i + 1)
    end
  else Ok b.

Definition stripComments (s : string) : res string :=
  stripComments_loop (S (String.length s)) s EmptyString false false 0.

(** ** lex *)

Definition isIdentStart (b : ascii) : bool :=
  IsLetter b || Ascii.eqb b "_"%char || Ascii.eqb b "$"%char.

Definition isIdentPart (b : ascii) : bool :=
  IsLetter b || IsDigit b || Ascii.eqb b "_"%char || Ascii.eqb b "."%char
  || Ascii.eqb b "$"%char.

Definition isNumStart (b : ascii) : bool := IsDigit b.
Definition isNum (b : ascii) : bool := IsDigit b.

(** The closure [readString] of [lex]: the loop over [j]. *)
Fixpoint readString_loop (fuel : nat) (s : string) (i : Z) (quote : ascii) (j : Z)
  : res (string * Z) :=
  if j <? len s then
    match fuel with
    | O => OutOfFuel
    | S fuel =>
        let* c := byte_at s j in
        if Ascii.eqb c quote then
          let* doubled :=
            guarded (j + 1 <? len s)
              (let* c1 := byte_at s (j + 1) in Ok (Ascii.eqb c1 quote)) in
          if doubled
          then readString_loop fuel s i quote (j + 2)
          else let* str := slice s i (j + 1) in Ok (str, j + 1)
        else readString_loop fuel s i quote (j + 1)
    end
  else let* str := slice s i (len s) in Ok (str, len s).

Definition readString (s : string) (i : Z) (quote : ascii) : res (string * Z) :=
  readString_loop (S (String.length s)) s i quote (i + 1).

(** [for j < len(s) && p(s[j]) { j++ }], the scan that ends a number or a word. *)
Fixpoint scan_while (p : ascii -> bool) (fuel : nat) (s : string) (j : Z) : res Z :=
  if j <? len s then
    match fuel with
    | O => OutOfFuel
    | S fuel =>
        let* c := byte_at s j in
        if p c then scan_while p fuel s (j + 1) else Ok j
    end
  else Ok j.

Section Validator.

Context `{Unicode}.

(** The main loop of [lex]; [out], [dep] (Go's [depth]) and [i] are its
    variables. *)
Fixpoint lex_loop (fuel : nat) (s : string) (out : list token) (dep : Z) (i : Z)
  : res (list token) :=
  if i <? len s then
    match fuel with
    | O => OutOfFuel
    | S fuel =>
        let* r := byte_at s i in
        if IsSpace r then lex_loop fuel s out dep (i + 1)
        else if Ascii.eqb r "("%char then
          lex_loop fuel s (out ++ [mkToken "(" tkSymbol dep]) (dep + 1) (i + 1)
        else if Ascii.eqb r ")"%char then
          let dep := dep - 1 in
          let dep := if dep <? 0 then 0 else dep in
          lex_loop fuel s (out ++ [mkToken ")" tkSymbol dep]) dep (i + 1)
        else if Ascii.eqb r squote || Ascii.eqb r dquote then
          let* '(str, nx) := readString s i r in
          if Ascii.eqb r dquote
          then lex_loop fuel s (out ++ [mkToken (ToLower str) tkIdent dep]) dep nx
          else lex_loop fuel s (out ++ [mkToken str tkString dep]) dep nx
        else if isNumStart r then
          let* j := scan_while (fun c => isNum c || Ascii.eqb c "."%char)
                      (S (String.length s)) s (i + 1) in
          let* num := slice s i j in
          lex_loop fuel s (out ++ [mkToken num tkNumber dep]) dep j
        else if isIdentStart r then
          let* j := scan_while isIdentPart (S (String.length s)) s (i + 1) in
          let* w := slice s i j in
          let word := ToLower w in
          if is_keyword word
          then lex_loop fuel s (out ++ [mkToken word tkKeyword dep]) dep j
          else lex_loop fuel s (out ++ [mkToken word tkIdent dep]) dep j
        else
          let* two :=
            guarded ((Ascii.eqb r ">"%char || Ascii.eqb r "<"%char || Ascii.eqb r "!"%char)
                     && (i + 1 <? len s))
              (let* n := byte_at s (i + 1) in
               Ok ((Ascii.eqb r ">"%char && Ascii.eqb n "="%char)
                   || (Ascii.eqb r "<"%char && (Ascii.eqb n "="%char || Ascii.eqb n ">"%char))
                   || (Ascii.eqb r "!"%char && Ascii.eqb n "="%char))) in
          if two then
            let* op := slice s i (i + 2) in
            lex_loop fuel s (out ++ [mkToken (ToLower op) tkSymbol dep]) dep (i + 2)
          else
            (* strings.ToLower(string(r)): string(r) is the UTF-8 encoding of the
               code point r, one rune, which ToLower maps through unicode.ToLower *)
            lex_loop fuel s
              (out ++ [mkToken (string_of_rune (ToLowerRune r)) tkSymbol dep]) dep (i + 1)
    end
  else Ok out.

Definition lex (s : string) : res (list token) :=
  lex_loop (S (String.length s)) s [] 0 0.

(** ** Scans over the token slice *)

Definition ntoks (toks : list token) : Z := Z.of_nat (length toks).

(** [toks[i]] *)
Definition tok_at (toks : list token) (i : Z) : res token :=
  if i <? 0 then Panic
  else match toks !! Z.to_nat i with
       | Some t => Ok t
       | None => Panic
       end.

(** [t.kind == k && t.val == w] *)
Definition tok_is (k : tokenKind) (w : string) (t : token) : bool :=
  tokenKind_eqb (kind t) k && String.eqb (val t) w.

Fixpoint findNextKeywordAtDepth_loop (toks : list token) (dep : Z) (word : string)
  (fuel : nat) (i : Z) : res Z :=
  if i <? ntoks toks then
    match fuel with
    | O => OutOfFuel
    | S fuel =>
        let* t := tok_at toks i in
        if depth t <? dep then Ok (-1)
        else if negb (depth t =? dep)
        then findNextKeywordAtDepth_loop toks dep word fuel (i + 1)
        else if tok_is tkKeyword word t then Ok i
        else findNextKeywordAtDepth_loop toks dep word fuel (i + 1)
    end
  else Ok (-1).

Definition findNextKeywordAtDepth (toks : list token) (start dep : Z) (word : string)
  : res Z :=
  findNextKeywordAtDepth_loop toks dep word (S (length toks)) start.

Fixpoint findNextKeywordBetweenAtDepth_loop (toks : list token) (stop dep : Z)
  (word : string) (fuel : nat) (i : Z) : res Z :=
  if (i <? stop) && (i <? ntoks toks) then
    match fuel with
    | O => OutOfFuel
    | S fuel =>
        let* t := tok_at toks i in
        if negb (depth t =? dep)
        then findNextKeywordBetweenAtDepth_loop toks stop dep word fuel (i + 1)
        else if tok_is tkKeyword word t then Ok i
        else findNextKeywordBetweenAtDepth_loop toks stop dep word fuel (i + 1)
    end
  else Ok (-1).

Definition findNextKeywordBetweenAtDepth (toks : list token) (start stop dep : Z)
  (word : string) : res Z :=
  let stop := if stop <? 0 then ntoks toks else stop in
  findNextKeywordBetweenAtDepth_loop toks stop dep word (S (length toks)) start.

Definition terminators : list string :=
  [ "group"; "order"; "having"; "union"; "intersect"; "except" ].

Fixpoint findNextTerminatorAtDepth_loop (toks : list token) (dep : Z)
  (fuel : nat) (i : Z) : res Z :=
  if i <? ntoks toks then
    match fuel with
    | O => OutOfFuel
    | S fuel =>
        let* t := tok_at toks i in
        if depth t <? dep then Ok i
        else if (depth t =? dep) && tokenKind_eqb (kind t) tkKeyword
                && existsb (String.eqb (val t)) terminators
        then Ok i
        else findNextTerminatorAtDepth_loop toks dep fuel (i + 1)
    end
  else Ok (ntoks toks).

Definition findNextTerminatorAtDepth (toks : list token) (start dep : Z) : res Z :=
  findNextTerminatorAtDepth_loop toks dep (S (length toks)) start.

(** [for j < stop && j < len(toks) && toks[j].depth != depth { j++ }] *)
Fixpoint skipOtherDepth (toks : list token) (stop dep : Z) (fuel : nat) (j : Z) : res Z :=
  if (j <? stop) && (j <? ntoks toks) then
    match fuel with
    | O => OutOfFuel
    | S fuel =>
        let* t := tok_at toks j in
        if negb (depth t =? dep) then skipOtherDepth toks stop dep fuel (j + 1)
        else Ok j
    end
  else Ok j.

(** [j < stop && j < len(toks) && p(toks[j])] *)
Definition tok_in_range_is (toks : list token) (stop : Z) (p : token -> bool) (j : Z)
  : res bool :=
  guarded ((j <? stop) && (j <? ntoks toks))
    (let* t := tok_at toks j in Ok (p t)).

Definition isCompareOp (s : string) : bool :=
  existsb (String.eqb s) [ "="; "<"; ">"; "<="; ">="; "<>"; "!=" ].

Definition isTimeIdentifierAt (toks : list token) (i : Z) : res bool :=
  if (i <? 0) || (ntoks toks <=? i) then Ok false
  else
    let* t := tok_at toks i in
    if negb (tokenKind_eqb (kind t) tkIdent) then Ok false
    else Ok (String.eqb (val t) "time").

Definition stripQuotes (s : string) : res string :=
  let* quoted :=
    guarded (2 <=? len s)
      (let* a := byte_at s 0 in
       let* z := byte_at s (len s - 1) in
       Ok ((Ascii.eqb a dquote && Ascii.eqb z dquote)
           || (Ascii.eqb a squote && Ascii.eqb z squote))) in
  if quoted
  then let* inner := slice s 1 (len s - 1) in Ok (ToLower inner)
  else Ok (ToLower s).

(** First loop of [fromStartsWithBaseTable]: [None] is its [return false],
    [Some i] the value of [i] when the loop is left. *)
Fixpoint fromFirstMeaningful (toks : list token) (stop dep : Z) (fuel : nat) (i : Z)
  : res (option Z) :=
  if (i <? stop) && (i <? ntoks toks) then
    match fuel with
    | O => OutOfFuel
    | S fuel =>
        let* t := tok_at toks i in
        if negb (depth t =? dep) then fromFirstMeaningful toks stop dep fuel (i + 1)
        else if tokenKind_eqb (kind t) tkSymbol then
          if String.eqb (val t) "(" then Ok None
          else fromFirstMeaningful toks stop dep fuel (i + 1)
        else if tokenKind_eqb (kind t) tkKeyword then
          if String.eqb (val t) "select" then Ok None
          else fromFirstMeaningful toks stop dep fuel (i + 1)
        else Ok (Some i)
    end
  else Ok (Some i).

(** The loop over [k]: the identifier after the dot. *)
Fixpoint fromIdentAfterDot (toks : list token) (stop dep : Z) (fuel : nat) (k : Z)
  : res bool :=
  if (k <? stop) && (k <? ntoks toks) then
    match fuel with
    | O => OutOfFuel
    | S fuel =>
        let* t := tok_at toks k in
        if negb (depth t =? dep) then fromIdentAfterDot toks stop dep fuel (k + 1)
        else if tokenKind_eqb (kind t) tkSymbol
        then fromIdentAfterDot toks stop dep fuel (k + 1)
        else Ok (tokenKind_eqb (kind t) tkIdent)
    end
  else Ok false.

(** The loop over [j]: seek the dot. *)
Fixpoint fromSeekDot (toks : list token) (stop dep : Z) (fuel : nat) (j : Z) : res bool :=
  if (j <? stop) && (j <? ntoks toks) then
    match fuel with
    | O => OutOfFuel
    | S fuel =>
        let* t := tok_at toks j in
        if negb (depth t =? dep) then fromSeekDot toks stop dep fuel (j + 1)
        else if tokenKind_eqb (kind t) tkSymbol then
          if negb (String.eqb (val t) ".")
          then fromSeekDot toks stop dep fuel (j + 1)
          else fromIdentAfterDot toks stop dep (S (length toks)) (j + 1)
        else Ok false
    end
  else Ok false.

Definition fromStartsWithBaseTable (toks : list token) (start stop dep : Z) : res bool :=
  let* first := fromFirstMeaningful toks stop dep (S (length toks)) start in
  match first with
  | None => Ok false
  | Some i =>
      let* notIdent :=
        if (stop <=? i) || (ntoks toks <=? i) then Ok true
        else let* t := tok_at toks i in Ok (negb (tokenKind_eqb (kind t) tkIdent)) in
      if notIdent then Ok false
      else
        let* t := tok_at toks i in
        let* name := stripQuotes (val t) in
        if contains_dot name then
          let* j := skipOtherDepth toks stop dep (S (length toks)) (i + 1) in
          let* call := tok_in_range_is toks stop (tok_is tkSymbol "(") j in
          if call then Ok false else Ok true
        else fromSeekDot toks stop dep (S (length toks)) (i + 1)
  end.

(** Lines 466-491: the token at [i] is [time] and an operator follows it. *)
Definition timeOperatorFollows (toks : list token) (stop : Z) (i : Z) : res bool :=
  let* isTime := isTimeIdentifierAt toks i in
  if isTime then
    let* ti := tok_at toks i in
    let dep := depth ti in
    let* j := skipOtherDepth toks stop dep (S (length toks)) (i + 1) in
    let* isNot := tok_in_range_is toks stop (tok_is tkKeyword "not") j in
    let* notBetween :=
      if isNot then
        let* k := skipOtherDepth toks stop dep (S (length toks)) (j + 1) in
        tok_in_range_is toks stop (tok_is tkKeyword "between") k
      else Ok false in
    if notBetween then Ok true
    else
      let* isBetween := tok_in_range_is toks stop (tok_is tkKeyword "between") j in
      if isBetween then Ok true
      else
        tok_in_range_is toks stop
          (fun t => tokenKind_eqb (kind t) tkSymbol && isCompareOp (val t)) j
  else Ok false.

(** Lines 496-503: the loop over [k], backward from a [between] at [i]. *)
Fixpoint timeBeforeBetween (toks : list token) (start i dep : Z) (fuel : nat) (k : Z)
  : res bool :=
  if (start <=? k) && (i - 6 <=? k) then
    match fuel with
    | O => OutOfFuel
    | S fuel =>
        let* t := tok_at toks k in
        if tok_is tkKeyword "not" t then timeBeforeBetween toks start i dep fuel (k - 1)
        else
          let* isTime := isTimeIdentifierAt toks k in
          if isTime && (depth t =? dep) then Ok true
          else timeBeforeBetween toks start i dep fuel (k - 1)
    end
  else Ok false.

Fixpoint whereHasTimePredicate_loop (toks : list token) (start stop : Z)
  (fuel : nat) (i : Z) : res bool :=
  if (i <? stop) && (i <? ntoks toks) then
    match fuel with
    | O => OutOfFuel
    | S fuel =>
        let* forward := timeOperatorFollows toks stop i in
        if forward then Ok true
        else
          let* t := tok_at toks i in
          let* backward :=
            if tok_is tkKeyword "between" t
            then timeBeforeBetween toks start i (depth t) 6%nat (i - 1)
            else Ok false in
          if backward then Ok true
          else whereHasTimePredicate_loop toks start stop fuel (i + 1)
    end
  else Ok false.

Definition whereHasTimePredicate (toks : list token) (start stop : Z) : res bool :=
  let stop := if stop <? 0 then ntoks toks else stop in
  whereHasTimePredicate_loop toks start stop (S (length toks)) start.

(** Lines 526-531: [regexp_like ( measure_name , 'string' )] at [i]. *)
Definition regexpLikeAt (toks : list token) (stop : Z) (i : Z) : res bool :=
  let* t := tok_at toks i in
  if tok_is tkIdent "regexp_like" t then
    guarded ((i + 5 <? stop) && (i + 5 <? ntoks toks))
      (let* t1 := tok_at toks (i + 1) in
       let* t2 := tok_at toks (i + 2) in
       let* t3 := tok_at toks (i + 3) in
       let* t4 := tok_at toks (i + 4) in
       let* t5 := tok_at toks (i + 5) in
       Ok (tok_is tkSymbol "(" t1 && tok_is tkIdent "measure_name" t2
           && tok_is tkSymbol "," t3 && tokenKind_eqb (kind t4) tkString
           && tok_is tkSymbol ")" t5))
  else Ok false.

(** Lines 545-547: [= 'string'] after the [measure_name] at [i]. *)
Definition equalsStringAt (toks : list token) (stop : Z) (i : Z) : res bool :=
  guarded ((i + 2 <? stop) && (i + 2 <? ntoks toks))
    (let* t1 := tok_at toks (i + 1) in
     let* t2 := tok_at toks (i + 2) in
     Ok (tok_is tkSymbol "=" t1 && tokenKind_eqb (kind t2) tkString)).

Fixpoint whereHasMeasureNamePredicate_loop (toks : list token) (stop : Z)
  (fuel : nat) (i : Z) (foundValid foundInvalid : bool) : res bool :=
  if (i <? stop) && (i <? ntoks toks) then
    match fuel with
    | O => OutOfFuel
    | S fuel =>
        let* pattern1 := regexpLikeAt toks stop i in
        if pattern1
        then whereHasMeasureNamePredicate_loop toks stop fuel (i + 6) true foundInvalid
        else
          let* t := tok_at toks i in
          if tok_is tkIdent "measure_name" t then
            let* pattern2 := equalsStringAt toks stop i in
            if pattern2
            then whereHasMeasureNamePredicate_loop toks stop fuel (i + 3) true foundInvalid
            else whereHasMeasureNamePredicate_loop toks stop fuel (i + 1) foundValid true
          else whereHasMeasureNamePredicate_loop toks stop fuel (i + 1) foundValid foundInvalid
    end
  else Ok (foundValid && negb foundInvalid).

Definition whereHasMeasureNamePredicate (toks : list token) (start stop : Z) : res bool :=
  let stop := if stop <? 0 then ntoks toks else stop in
  whereHasMeasureNamePredicate_loop toks stop (S (length toks)) start false false.

Fixpoint findTopLevelOrBranches_loop (toks : list token) (stop dep : Z) (fuel : nat)
  (i : Z) (branches : list (Z * Z)) (currentBranchStart : Z) : res (list (Z * Z) * Z) :=
  if (i <? stop) && (i <? ntoks toks) then
    match fuel with
    | O => OutOfFuel
    | S fuel =>
        let* t := tok_at toks i in
        if (depth t =? dep) && tok_is tkKeyword "or" t
        then findTopLevelOrBranches_loop toks stop dep fuel (i + 1)
               (branches ++ [(currentBranchStart, i)]) (i + 1)
        else findTopLevelOrBranches_loop toks stop dep fuel (i + 1)
               branches currentBranchStart
    end
  else Ok (branches, currentBranchStart).

Definition findTopLevelOrBranches (toks : list token) (start stop dep : Z)
  : res (list (Z * Z)) :=
  let stop := if stop <? 0 then ntoks toks else stop in
  let* '(branches, currentBranchStart) :=
    findTopLevelOrBranches_loop toks stop dep (S (length toks)) start [] start in
  Ok (branches ++ [(currentBranchStart, stop)]).

Fixpoint snippetAroundTokens_loop (toks : list token) (stop : Z) (fuel : nat)
  (i : Z) (b : string) : res string :=
  if i <? stop then
    match fuel with
    | O => OutOfFuel
    | S fuel =>
        if 220 <? len b then Ok (String.append b " ...")
        else
          let* t := tok_at toks i in
          let b := String.append b (val t) in
          let b := if i + 1 <? stop then WriteByte b " "%char else b in
          snippetAroundTokens_loop toks stop fuel (i + 1) b
    end
  else Ok b.

Definition snippetAroundTokens (toks : list token) (start stop : Z) : res string :=
  let start := if start <? 0 then 0 else start in
  let stop := if (stop <? 0) || (ntoks toks <? stop) then ntoks toks else stop in
  let* b := snippetAroundTokens_loop toks stop (S (length toks)) start "" in
  Ok (TrimSpace b).

(** ** Validate *)

Record Issue : Type := mkIssue {
  Snippet : string;
  Reason : string;
  AtDepth : Z
}.

(** The local struct [sel] of [Validate]; [selDepth] is its field [depth]. *)
Record sel : Type := mkSel {
  selIdx : Z;
  selDepth : Z
}.

(** Lines 46-50: collect the select-sites. *)
Fixpoint collectSelects (toks : list token) (fuel : nat) (i : Z) (selects : list sel)
  : res (list sel) :=
  if i <? ntoks toks then
    match fuel with
    | O => OutOfFuel
    | S fuel =>
        let* t := tok_at toks i in
        if tok_is tkKeyword "select" t
        then collectSelects toks fuel (i + 1) (selects ++ [mkSel i (depth t)])
        else collectSelects toks fuel (i + 1) selects
    end
  else Ok selects.

(** Lines 93-105: the loop over the branches. *)
Fixpoint checkBranches (toks : list token) (branches : list (Z * Z))
  (hasMissingTime hasMissingMeasure : bool) : res (bool * bool) :=
  match branches with
  | [] => Ok (hasMissingTime, hasMissingMeasure)
  | (branchStart, branchStop) :: rest =>
      let* hasTime := whereHasTimePredicate toks branchStart branchStop in
      let hasMissingTime := if negb hasTime then true else hasMissingTime in
      let* hasMeasure := whereHasMeasureNamePredicate toks branchStart branchStop in
      let hasMissingMeasure := if negb hasMeasure then true else hasMissingMeasure in
      checkBranches toks rest hasMissingTime hasMissingMeasure
  end.

(** Lines 55-130: the body of the loop over the select-sites; [issues] is
    the slice of issues so far, the result the slice after this site. *)
Definition validateSelect (toks : list token) (s : sel) (issues : list Issue)
  : res (list Issue) :=
  let* fromIdx := findNextKeywordAtDepth toks (selIdx s + 1) (selDepth s) "from" in
  if fromIdx =? -1 then Ok issues
  else
    let* stopIdx := findNextTerminatorAtDepth toks (fromIdx + 1) (selDepth s) in
    let* hitsDB := fromStartsWithBaseTable toks (fromIdx + 1) stopIdx (selDepth s) in
    if negb hitsDB then Ok issues
    else
      let* whereIdx :=
        findNextKeywordBetweenAtDepth toks (fromIdx + 1) stopIdx (selDepth s) "where" in
      if whereIdx =? -1 then
        let* snip := snippetAroundTokens toks (selIdx s) stopIdx in
        Ok (issues ++ [mkIssue snip "missing WHERE clause" (selDepth s)])
      else
        let* whereStop := findNextTerminatorAtDepth toks (whereIdx + 1) (selDepth s) in
        let* branches := findTopLevelOrBranches toks (whereIdx + 1) whereStop (selDepth s) in
        let hasInvalidOr := 1 <? Z.of_nat (length branches) in
        let* '(hasMissingTime, hasMissingMeasure) :=
          checkBranches toks branches false false in
        let* issues :=
          if hasMissingTime then
            let reason :=
              if hasInvalidOr
              then "an OR branch in WHERE clause lacks a time predicate"
              else "WHERE clause lacks a time predicate" in
            let* snip := snippetAroundTokens toks (selIdx s) whereStop in
            Ok (issues ++ [mkIssue snip reason (selDepth s)])
          else Ok issues in
        if hasMissingMeasure then
          let reason :=
            if hasInvalidOr
            then "an OR branch in WHERE clause lacks a valid measure_name predicate (requires = '...' or regexp_like)"
            else "WHERE clause lacks a valid measure_name predicate (requires = '...' or regexp_like)" in
          let* snip := snippetAroundTokens toks (selIdx s) whereStop in
          Ok (issues ++ [mkIssue snip reason (selDepth s)])
        else Ok issues.

(** Line 54: [for _, s := range selects]. *)
Fixpoint validateSelects (toks : list token) (selects : list sel) (issues : list Issue)
  : res (list Issue) :=
  match selects with
  | [] => Ok issues
  | s :: rest =>
      let* issues := validateSelect toks s issues in
      validateSelects toks rest issues
  end.

Definition Validate (sql : string) : res (bool * list Issue) :=
  let* src := stripComments sql in
  let* toks := lex src in
  let* selects := collectSelects toks (S (length toks)) 0 [] in
  let* issues := validateSelects toks selects [] in
  Ok (Z.of_nat (length issues) =? 0, issues).

End Validator.

(** * Vocabulary of the properties *)

(** [p] holds of the token at [i]; false outside the slice. *)
Definition tok_has (toks : list token) (i : Z) (p : token -> bool) : bool :=
  match tok_at toks i with
  | Ok t => p t
  | _ => false
  end.

(** The six tokens [regexp_like ( measure_name , 'string' )] start at [i]
    and end before [stop]. *)
Definition regexp_shape (toks : list token) (stop i : Z) : bool :=
  (i + 5 <? stop) && (i + 5 <? ntoks toks)
  && tok_has toks i (tok_is tkIdent "regexp_like")
  && tok_has toks (i + 1) (tok_is tkSymbol "(")
  && tok_has toks (i + 2) (tok_is tkIdent "measure_name")
  && tok_has toks (i + 3) (tok_is tkSymbol ",")
  && tok_has toks (i + 4) (fun t => tokenKind_eqb (kind t) tkString)
  && tok_has toks (i + 5) (tok_is tkSymbol ")").

(** The three tokens [measure_name = 'string'] start at [i] and end before
    [stop]. *)
Definition equals_shape (toks : list token) (stop i : Z) : bool :=
  (i + 2 <? stop) && (i + 2 <? ntoks toks)
  && tok_has toks i (tok_is tkIdent "measure_name")
  && tok_has toks (i + 1) (tok_is tkSymbol "=")
  && tok_has toks (i + 2) (fun t => tokenKind_eqb (kind t) tkString).

(** A valid occurrence starts somewhere in the branch from [start] on. *)
Definition has_valid_measure_use (toks : list token) (start stop : Z) : Prop :=
  exists i, start <= i /\ (regexp_shape toks stop i = true \/ equals_shape toks stop i = true).

(** Every [measure_name] identifier of the branch is the head of the
    three-token shape or the argument of the six-token shape. *)
Definition no_invalid_measure_use (toks : list token) (start stop : Z) : Prop :=
  forall p, start <= p < stop ->
    tok_has toks p (tok_is tkIdent "measure_name") = true ->
    equals_shape toks stop p = true
    \/ (start <= p - 2 /\ regexp_shape toks stop (p - 2) = true).

(** The token at [i] is an [or] keyword at depth [dep]. *)
Definition top_level_or (toks : list token) (dep : Z) (i : Z) : bool :=
  tok_has toks i (fun t => (depth t =? dep) && tok_is tkKeyword "or" t).

(** The positions of the top-level ORs in [[start, stop)], in order. *)
Definition or_cuts (toks : list token) (dep start stop : Z) : list Z :=
  List.filter (top_level_or toks dep) (seqZ start (stop - start)).

(** The spans left between the cuts: from [start] to the first cut, from
    after each cut to the next one, from after the last cut to [stop]. *)
Fixpoint branches_between (cuts : list Z) (start stop : Z) : list (Z * Z) :=
  match cuts with
  | [] => [(start, stop)]
  | c :: cuts => (start, c) :: branches_between cuts (c + 1) stop
  end.

(** The suffix [s[n:]] (empty from the end on). *)
Fixpoint sdrop (n : nat) (s : string) : string :=
  match n, s with
  | O, _ => s
  | S n, String _ s' => sdrop n s'
  | S _, EmptyString => EmptyString
  end.

(** [stripComments] told over the remaining text: what the loop writes from
    a position on, given its two flags.  The loop is shown to compute it. *)
Fixpoint strip (inLine inBlock : bool) (s : string) : string :=
  match s with
  | EmptyString => EmptyString
  | String c rest =>
      if inLine then
        if Ascii.eqb c newline
        then String c (strip false inBlock rest)
        else strip inLine inBlock rest
      else if inBlock then
        match rest with
        | String c1 rest' =>
            if Ascii.eqb c "*"%char && Ascii.eqb c1 "/"%char
            then strip inLine false rest'
            else strip inLine inBlock rest
        | EmptyString => EmptyString
        end
      else
        match rest with
        | String c1 rest' =>
            if Ascii.eqb c "-"%char && Ascii.eqb c1 "-"%char
            then strip true inBlock rest'
            else if Ascii.eqb c "/"%char && Ascii.eqb c1 "*"%char
            then strip inLine true rest'
            else String c (strip inLine inBlock rest)
        | EmptyString => String c EmptyString
        end
  end.

(** The two bytes [a b] occur next to each other in [s]. *)
Fixpoint contains_pair (a b : ascii) (s : string) : bool :=
  match s with
  | String x (String y _ as rest) =>
      (Ascii.eqb x a && Ascii.eqb y b) || contains_pair a b rest
  | _ => false
  end.

(** The last byte of [s] is [a]. *)
Fixpoint ends_with (a : ascii) (s : string) : bool :=
  match s with
  | EmptyString => false
  | String x EmptyString => Ascii.eqb x a
  | String _ rest => ends_with a rest
  end.

Definition is_open (t : token) : bool := tok_is tkSymbol "(" t.
Definition is_close (t : token) : bool := tok_is tkSymbol ")" t.

(** The depths of [toks] are those of a lexer that starts them with [d]
    parentheses open: an opening parenthesis is recorded at [d] and raises
    the depth from the next token on, a closing one lowers the depth (not
    below zero) and is recorded at the lowered depth, and any other token is
    recorded at [d]. *)
Fixpoint depths_from (d : Z) (toks : list token) : Prop :=
  match toks with
  | [] => True
  | t :: rest =>
      if is_open t then depth t = d /\ depths_from (d + 1) rest
      else if is_close t
      then depth t = Z.max 0 (d - 1) /\ depths_from (Z.max 0 (d - 1)) rest
      else depth t = d /\ depths_from d rest
  end.

(** Claim C4 as the specification words it: a parenthesis carries the depth
    of the tokens inside the group it bounds, so that the token after an
    opening parenthesis and the token before a closing one have the depth of
    that parenthesis. *)
Definition delimiters_at_inner_depth (toks : list token) : Prop :=
  forall (i : nat) (t1 t2 : token),
    toks !! i = Some t1 -> toks !! S i = Some t2 ->
    (is_open t1 = true -> is_close t2 = false -> depth t2 = depth t1)
    /\ (is_open t1 = false -> is_close t2 = true -> depth t1 = depth t2).

(** After the SELECT at [selIdx], every [from] keyword at depth [dep] comes
    after a token of a lower depth: none is reached before the depth drops. *)
Definition no_from_in_block (toks : list token) (selIdx dep : Z) : Prop :=
  forall j t,
    selIdx < j -> tok_at toks j = Ok t ->
    tok_is tkKeyword "from" t = true -> depth t = dep ->
    exists k t', selIdx < k < j /\ tok_at toks k = Ok t' /\ depth t' < dep.

(** The [ok] result and the reasons of the issues. *)
Definition verdict (r : res (bool * list Issue)) : res bool :=
  let* '(ok, _) := r in Ok ok.

Definition reasons (r : res (bool * list Issue)) : res (list string) :=
  let* '(_, issues) := r in Ok (map Reason issues).

(** [s] between double quotes. *)
Definition quoted (s : string) : string :=
  String dquote (s +++ String dquote EmptyString).

(** An instance for closed examples: on ASCII-only text neither function of
    [Unicode] is reached. *)
Definition asciiUnicode : Unicode :=
  {| unicodeToLower := fun s => s; unicodeTrimSpace := fun s => s |}.

(** ** Inputs of the examples *)

Definition sql_nested_or : string :=
  "SELECT * FROM " +++ quoted "db" +++ "." +++ quoted "tbl"
  +++ " WHERE (time > ago(1h) OR device = 'd1') AND measure_name = 'foo'".

Definition sql_top_level_or : string :=
  "SELECT * FROM " +++ quoted "db" +++ "." +++ quoted "tbl"
  +++ " WHERE time > ago(1h) AND measure_name = 'foo' OR device = 'd1'".

Definition sql_poisoned : string :=
  "SELECT * FROM mydb.sensors WHERE time > 10 AND measure_name = 'foo' AND measure_name != 'bar'".

Definition sql_measure_time : string :=
  "SELECT * FROM mydb.s1 WHERE measure_time >= ago(1h) AND measure_name = 'x'".

Definition sql_commented_time : string :=
  "SELECT * FROM mydb.s1 WHERE /* time >= ago(1h) */ measure_name = 'x'".

Definition sql_uncommented_time : string :=
  "SELECT * FROM mydb.s1 WHERE time >= ago(1h) AND measure_name = 'x'".

Definition sql_dashes_in_literal : string :=
  "SELECT * FROM mydb.s1 WHERE measure_name = 'a--b' AND time >= ago(1h)".

Definition sql_dash_in_literal : string :=
  "SELECT * FROM mydb.s1 WHERE measure_name = 'a-b' AND time >= ago(1h)".

Definition sql_slash_star_in_literal : string :=
  "SELECT * FROM mydb.s1 WHERE measure_name = 'a/*b' AND time >= ago(1h)".

(** ** Token slices of the examples *)

(** [a OR (b OR c) OR d] *)
Definition toks_two_cuts : list token :=
  [ mkToken "a" tkIdent 0; mkToken "or" tkKeyword 0; mkToken "(" tkSymbol 0;
    mkToken "b" tkIdent 1; mkToken "or" tkKeyword 1; mkToken "c" tkIdent 1;
    mkToken ")" tkSymbol 0; mkToken "or" tkKeyword 0; mkToken "d" tkIdent 0 ].

(** [measure_name = 'foo' AND measure_name != 'bar'] *)
Definition toks_poisoned : list token :=
  [ mkToken "measure_name" tkIdent 0; mkToken "=" tkSymbol 0; mkToken "'foo'" tkString 0;
    mkToken "and" tkKeyword 0; mkToken "measure_name" tkIdent 0; mkToken "!=" tkSymbol 0;
    mkToken "'bar'" tkString 0 ].

(** [measure_time >= ago(1h)] *)
Definition toks_measure_time : list token :=
  [ mkToken "measure_time" tkIdent 0; mkToken ">=" tkSymbol 0; mkToken "ago" tkIdent 0;
    mkToken "(" tkSymbol 0; mkToken "1" tkNumber 1; mkToken "h" tkIdent 1;
    mkToken ")" tkSymbol 0 ].

(** [time + 1 NOT BETWEEN 2 AND 3] *)
Definition toks_not_between : list token :=
  [ mkToken "time" tkIdent 0; mkToken "+" tkSymbol 0; mkToken "1" tkNumber 0;
    mkToken "not" tkKeyword 0; mkToken "between" tkKeyword 0; mkToken "2" tkNumber 0;
    mkToken "and" tkKeyword 0; mkToken "3" tkNumber 0 ].

(** [SELECT 1] *)
Definition toks_select_1 : list token :=
  [ mkToken "select" tkKeyword 0; mkToken "1" tkNumber 0 ].

(** ** The repository's test table

    The inputs of [validator_test.go] with the [ok] each of them expects;
    [dq] is the double quote. *)

Definition dq : string := String dquote EmptyString.

Definition repository_tests : list (string * bool) :=
  [
    (* direct select with >= ago() *)
    ("
SELECT *
FROM mydb.sensors
WHERE time >= ago(15m) AND measure_name = 'foo'",
     true);
    (* direct select missing WHERE completely *)
    ("
SELECT *
FROM mydb.sensors",
     false);
    (* WHERE present but no time predicate *)
    ("
SELECT *
FROM mydb.sensors
WHERE measure_name = 'cpu'",
     false);
    (* BETWEEN with now() *)
    ("
SELECT *
FROM mydb.sensors
WHERE time BETWEEN ago(1d) AND now() AND measure_name = 'foo'",
     true);
    (* aggregation with GROUP BY and time filter *)
    ("
SELECT measure_name, avg(measure_value::double) AS v
FROM mydb.sensors
WHERE time > ago(1h) AND measure_name = 'foo'
GROUP BY measure_name",
     true);
    (* JOIN with time filter in WHERE *)
    ("
SELECT *
FROM mydb.s1
JOIN mydb.s2 ON s1.device = s2.device
WHERE time >= ago(2h)",
     false);
    (* JOIN without time filter *)
    ("
SELECT *
FROM mydb.s1
JOIN mydb.s2 ON s1.device = s2.device
WHERE s1.device <> ''",
     false);
    (* CTEs (both sources time-filtered) *)
    ("
WITH a AS (
  SELECT * FROM mydb.s1
  WHERE time >= ago(1h) AND measure_name = 'foo'
),
b AS (
  SELECT * FROM mydb.s2
  WHERE time > ago(2h) AND measure_name = 'bar'
)
SELECT *
FROM a
JOIN b ON a.device = b.device",
     true);
    (* CTEs (one source missing time filter) *)
    ("
WITH a AS (
  SELECT * FROM mydb.s1
),
b AS (
  SELECT * FROM mydb.s2
  WHERE time > ago(2h)
)
SELECT *
FROM a
JOIN b ON a.device = b.device",
     false);
    (* derived table with inner time filter *)
    ("
SELECT x.*
FROM (
  SELECT *
  FROM mydb.s1
  WHERE time >= ago(5m)
	AND measure_name = 'foo'
) x
WHERE x.measure_value::double > 0",
     true);
    (* derived table missing inner time filter *)
    ("
SELECT x.*
FROM (
  SELECT *
  FROM mydb.s1
) x",
     false);
    (* UNION ALL with both sides filtered *)
    ("
SELECT *
FROM mydb.s1
WHERE measure_name = 'foo' AND time >= ago(1h)
UNION ALL
SELECT *
FROM mydb.s2
WHERE measure_name = 'foo' AND time >= ago(1h)",
     true);
    (* UNION ALL with one side missing time filter *)
    ("
SELECT *
FROM mydb.s1
WHERE time >= ago(1h)
UNION ALL
SELECT *
FROM mydb.s2",
     false);
    (* SELECT literal only (no FROM) is ignored *)
    ("
SELECT 1",
     true);
    (* commented out time predicate should not count *)
    ("
SELECT *
FROM mydb.s1
WHERE /* time >= ago(1h) */ measure_name = 'x'",
     false);
    (* time comparison with function *)
    ("
SELECT *
FROM mydb.s1
WHERE time >= from_iso8601_timestamp('2025-01-01T00:00:00Z') AND measure_name = 'foo'",
     true);
    (* NOT BETWEEN on time *)
    ("
SELECT *
FROM mydb.s1
WHERE NOT time BETWEEN ago(1h) AND now() AND measure_name = 'foo'",
     true);
    (* nested CTEs with inner-filtered source *)
    ("
WITH a AS (
  SELECT * FROM mydb.s1 WHERE time >= ago(1h) AND measure_name = 'foo'
),
z AS (
  WITH inner AS (
    SELECT * FROM mydb.s3 WHERE time >= ago(2h) AND measure_name = 'foo'
  )
  SELECT * FROM inner
)
SELECT * FROM a",
     true);
    (* quoted db/table, unquoted time *)
    ("
SELECT *
FROM " +++ dq +++ "mydb" +++ dq +++ "." +++ dq +++ "s1" +++ dq +++ "
WHERE time >= ago(10m) AND measure_name = 'foo'",
     true);
    (* time predicate placed in HAVING (invalid per rules) *)
    ("
SELECT device, max(time) AS t
FROM mydb.s1
GROUP BY device
HAVING max(time) >= ago(1h)",
     false);
    (* Free /data for devices *)
    ("SELECT   device AS " +++ dq +++ "Device" +++ dq +++ ",   MIN(measure_value::double/1024/1024) AS " +++ dq +++ "Free /data [MB]" +++ dq +++ "  FROM   " +++ dq +++ "ds-metric-forward" +++ dq +++ "." +++ dq +++ "metrics" +++ dq +++ " WHERE   time BETWEEN from_milliseconds(1755664656155) AND from_milliseconds(1755668256155)   AND measure_value::double < 1024000000   AND measure_name = 'gridx.ds.system.storage./data.available' GROUP BY   device ORDER BY   device",
     true);
    (* Free /data for devices (timefilter missing) *)
    ("SELECT   device AS " +++ dq +++ "Device" +++ dq +++ ",   MIN(measure_value::double/1024/1024) AS " +++ dq +++ "Free /data [MB]" +++ dq +++ "  FROM   " +++ dq +++ "ds-metric-forward" +++ dq +++ "." +++ dq +++ "metrics" +++ dq +++ " WHERE  AND measure_value::double < 1024000000   AND measure_name = 'gridx.ds.system.storage./data.available' GROUP BY   device ORDER BY   device",
     false);
    (* integrations availability indicator *)
    ("WITH q AS (
  SELECT 
    BIN(time, 60s) AS binned_timestamp,
    -- Calculate the percentage of online appliances for each time bin.
    -- COALESCE and NULLIF safely handle cases with zero total appliances, preventing division-by-zero errors.
    COALESCE(
      (
        CAST(COUNT(DISTINCT CASE WHEN measure_value::double > 0 THEN appliance END) AS double)
      ) / NULLIF(COUNT(DISTINCT appliance), 0),
      0
    ) AS percentage_online
  FROM " +++ dq +++ "ds-metric-forward" +++ dq +++ "." +++ dq +++ "metrics" +++ dq +++ "
  WHERE
		time BETWEEN from_milliseconds(1755693908186) AND from_milliseconds(1755697508186) AND
    measure_name = 'gridx.monitoring.appliance_online' AND
    releasegroup IN ('stable','canary','alpha')
  GROUP by BIN(time, 60s)
  ORDER by BIN(time, 60s)
)
SELECT 
  MAX(percentage_online) as online
FROM q
",
     true);
    (* integrations availability indicator *)
    ("WITH q AS (
  SELECT 
    BIN(time, 60s) AS binned_timestamp,
    -- Calculate the percentage of online appliances for each time bin.
    -- COALESCE and NULLIF safely handle cases with zero total appliances, preventing division-by-zero errors.
    COALESCE(
      (
        CAST(COUNT(DISTINCT CASE WHEN measure_value::double > 0 THEN appliance END) AS double)
      ) / NULLIF(COUNT(DISTINCT appliance), 0),
      0
    ) AS percentage_online
  FROM " +++ dq +++ "ds-metric-forward" +++ dq +++ "." +++ dq +++ "metrics" +++ dq +++ "
  WHERE
    measure_name = 'gridx.monitoring.appliance_online' AND
    releasegroup IN ('stable','canary','alpha')
  GROUP by BIN(time, 60s)
  ORDER by BIN(time, 60s)
)
SELECT 
  MAX(percentage_online) as online
FROM q
",
     false);
    (* BETWEEN with now(), no measure_name *)
    ("
SELECT *
FROM mydb.sensors
WHERE time BETWEEN ago(1d) AND now()",
     false);
    (* measure_name inequality *)
    ("
SELECT *
FROM mydb.sensors
WHERE time BETWEEN ago(1d) AND now() AND measure_name != 'bar'",
     false);
    (* measure_name in parantheses *)
    ("
SELECT *
FROM mydb.sensors
WHERE time BETWEEN ago(1d) AND now() AND (measure_name = 'foo')",
     true);
    (* time in parantheses *)
    ("
SELECT *
FROM mydb.sensors
WHERE (time BETWEEN ago(1d) AND now()) AND measure_name = 'foo'",
     true);
    (* invalid measure_name (mixed equality and inequality) *)
    ("SELECT * FROM " +++ dq +++ "db" +++ dq +++ "." +++ dq +++ "tbl" +++ dq +++ "
                    WHERE time > 10
                    AND measure_name = 'foo'
                    AND measure_name != 'bar'",
     false);
    (* user query with top-level OR that bypasses filter *)
    ("SELECT DISTINCT ds_account FROM " +++ dq +++ "db" +++ dq +++ "." +++ dq +++ "tbl" +++ dq +++ " WHERE
                    time BETWEEN from_milliseconds(1) AND from_milliseconds(2)
                    AND measure_name = 'foo'
                    AND ds_account != 'provisioning'
                    OR ds_account != 'eis'",
     false);
    (* user query with nested OR *)
    ("SELECT DISTINCT ds_account FROM " +++ dq +++ "db" +++ dq +++ "." +++ dq +++ "tbl" +++ dq +++ " WHERE
                    time BETWEEN from_milliseconds(1) AND from_milliseconds(2)
                    AND measure_name = 'foo'
                    AND (ds_account != 'provisioning'
                    OR ds_account != 'eis')",
     true);
    (* valid top-level OR with filters in each branch *)
    ("SELECT * FROM " +++ dq +++ "db" +++ dq +++ "." +++ dq +++ "tbl" +++ dq +++ "
                    WHERE (time > 10 AND measure_name = 'a')
                    OR (time < 5 AND measure_name = 'b')",
     true);
    (* valid parenthesized OR with top-level filters *)
    ("SELECT * FROM " +++ dq +++ "db" +++ dq +++ "." +++ dq +++ "tbl" +++ dq +++ "
                    WHERE time > 10 AND measure_name = 'a'
                    AND (device = 'd1' OR device = 'd2')",
     true);
    (* valid top-level OR with nested (parenthesized) ORs *)
    ("SELECT * FROM " +++ dq +++ "db" +++ dq +++ "." +++ dq +++ "tbl" +++ dq +++ "
                    WHERE (time > 10 AND measure_name = 'a' AND (device = 'd1' OR device = 'd2'))
                    OR (time < 5 AND measure_name = 'b' AND (device = 'd3' OR device = 'd4'))",
     true);
    (* invalid top-level OR, one branch has nested OR but no time filter *)
    ("SELECT * FROM " +++ dq +++ "db" +++ dq +++ "." +++ dq +++ "tbl" +++ dq +++ "
                    WHERE (time > 10 AND measure_name = 'a')
                    OR (measure_name = 'b' AND (device = 'd1' OR device = 'd2'))",
     false);
    (* FALSE POSITIVE: invalid top-level OR, one branch has nested OR but no time filter *)
    ("SELECT * FROM " +++ dq +++ "db" +++ dq +++ "." +++ dq +++ "tbl" +++ dq +++ "
					WHERE
  					(time > ago(1h) OR device = 'd1')
  					AND measure_name = 'foo'",
     true)
  ].

Definition passes `{Unicode} (test : string * bool) : bool :=
  match verdict (Validate (fst test)) with
  | Ok ok => Bool.eqb ok (snd test)
  | _ => false
  end.

(** ** Vocabulary of the further properties *)

(** [t] is the keyword [word] at depth [dep]. *)
Definition keyword_at_depth (dep : Z) (word : string) (t : token) : bool :=
  (depth t =? dep) && tok_is tkKeyword word t.

(** [t] ends a clause of depth [dep]: it lies below that depth, or it is one
    of the terminator keywords at that depth. *)
Definition ends_clause (dep : Z) (t : token) : bool :=
  (depth t <? dep)
  || ((depth t =? dep) && tokenKind_eqb (kind t) tkKeyword
      && existsb (String.eqb (val t)) terminators).


(** The reasons [Validate] writes into an issue; [inOr] is its
    [hasInvalidOr]. *)
Definition reason_missing_where : string := "missing WHERE clause".

Definition reason_time (inOr : bool) : string :=
  if inOr then "an OR branch in WHERE clause lacks a time predicate"
  else "WHERE clause lacks a time predicate".

Definition reason_measure (inOr : bool) : string :=
  if inOr
  then "an OR branch in WHERE clause lacks a valid measure_name predicate (requires = '...' or regexp_like)"
  else "WHERE clause lacks a valid measure_name predicate (requires = '...' or regexp_like)".

(** The reasons one select-site can append, as lists in the order of the
    issues. *)
Definition site_reasons : list (list string) :=
  [ [];
    [ reason_missing_where ];
    [ reason_time false ];
    [ reason_measure false ];
    [ reason_time false; reason_measure false ];
    [ reason_time true ];
    [ reason_measure true ];
    [ reason_time true; reason_measure true ] ].

(** The select keywords of a token slice whose first index is [i], as
    sites. *)
Fixpoint sites_from (i : Z) (toks : list token) : list sel :=
  match toks with
  | [] => []
  | t :: rest =>
      (if tok_is tkKeyword "select" t then [mkSel i (depth t)] else [])
      ++ sites_from (i + 1) rest
  end.

(** Every reason an issue of [Validate] can carry. *)
Definition all_reasons : list string :=
  [ reason_missing_where; reason_time false; reason_time true;
    reason_measure false; reason_measure true ].

(** What the loops of [fromStartsWithBaseTable] pass over: before the
    first source, tokens of another depth, symbols other than an opening
    parenthesis and keywords other than [select]; when seeking the dot,
    tokens of another depth and symbols other than the dot; after the dot,
    tokens of another depth and symbols. *)
Definition other_depth (dep : Z) (t : token) : bool := negb (depth t =? dep).

Definition from_noise (dep : Z) (t : token) : bool :=
  negb (depth t =? dep)
  || (tokenKind_eqb (kind t) tkSymbol && negb (String.eqb (val t) "("))
  || (tokenKind_eqb (kind t) tkKeyword && negb (String.eqb (val t) "select")).

Definition dot_noise (dep : Z) (t : token) : bool :=
  negb (depth t =? dep)
  || (tokenKind_eqb (kind t) tkSymbol && negb (String.eqb (val t) ".")).

Definition ident_noise (dep : Z) (t : token) : bool :=
  negb (depth t =? dep) || tokenKind_eqb (kind t) tkSymbol.

(** [tj], at [j], is the first token after [i] and before [stop] that a
    loop passing over [noise] stops at. *)
Definition next_token (noise : token -> bool) (toks : list token) (stop i j : Z)
  (tj : token) : Prop :=
  i < j < stop /\ tok_at toks j = Ok tj /\ noise tj = false
  /\ forall k, i < k < j -> tok_has toks k noise = true.

(** Such a loop runs from after [i] to the end of the range. *)
Definition no_next_token (noise : token -> bool) (toks : list token) (stop i : Z) : Prop :=
  forall k, i < k < Z.min stop (ntoks toks) -> tok_has toks k noise = true.

(** The tokens at the positions [[start, stop)]. *)
Definition span (toks : list token) (start stop : Z) : list token :=
  take (Z.to_nat (stop - start)) (drop (Z.to_nat start) toks).

(** The values of the tokens, a single space between two of them. *)
Fixpoint join_vals (l : list token) : string :=
  match l with
  | [] => ""
  | t :: rest =>
      match rest with
      | [] => val t
      | _ :: _ => val t +++ " " +++ join_vals rest
      end
  end.

(** The builder of [snippetAroundTokens] when the iteration for the token
    at [i] begins, another token to come: the values from [start] on, each
    followed by a space. *)
Definition builder_at (toks : list token) (start i : Z) : string :=
  if i =? start then "" else join_vals (span toks start i) +++ " ".

(** ** What [lex] reads *)

(** The bytes at [[a, b)] are white space. *)
Definition all_space (s : string) (a b : Z) : Prop :=
  forall k c, a <= k < b -> byte_at s k = Ok c -> IsSpace c = true.

(** [[a, b)] is a longest run of bytes with [p]: it ends at the end of the
    text or before a byte without [p]. *)
Definition run (p : ascii -> bool) (s : string) (a b : Z) : Prop :=
  (forall k c, a <= k < b -> byte_at s k = Ok c -> p c = true)
  /\ (b = len s \/ exists c, byte_at s b = Ok c /\ p c = false).

(** The two-byte operators. *)
Definition operator_pair (r n : ascii) : bool :=
  (Ascii.eqb r ">"%char && Ascii.eqb n "="%char)
  || (Ascii.eqb r "<"%char && (Ascii.eqb n "="%char || Ascii.eqb n ">"%char))
  || (Ascii.eqb r "!"%char && Ascii.eqb n "="%char).

(** The token [t] is what [lex] makes of the bytes [[i, j)] of [s]; the
    first byte decides how. *)
Definition lexeme `{Unicode} (s : string) (i j : Z) (t : token) : Prop :=
  exists (r : ascii) (w : string),
    byte_at s i = Ok r /\ slice s i j = Ok w /\ IsSpace r = false
    /\ if Ascii.eqb r "("%char || Ascii.eqb r ")"%char then
         j = i + 1 /\ val t = w /\ kind t = tkSymbol
       else if Ascii.eqb r squote then
         readString s i r = Ok (w, j) /\ val t = w /\ kind t = tkString
       else if Ascii.eqb r dquote then
         readString s i r = Ok (w, j) /\ val t = ToLower w /\ kind t = tkIdent
       else if isNumStart r then
         run (fun c => isNum c || Ascii.eqb c "."%char) s (i + 1) j
         /\ val t = w /\ kind t = tkNumber
       else if isIdentStart r then
         run isIdentPart s (i + 1) j
         /\ val t = ToLower w
         /\ kind t = (if is_keyword (ToLower w) then tkKeyword else tkIdent)
       else
         kind t = tkSymbol
         /\ ((exists n, byte_at s (i + 1) = Ok n /\ operator_pair r n = true
                        /\ j = i + 2 /\ val t = w)
             \/ ((forall n, byte_at s (i + 1) = Ok n -> operator_pair r n = false)
                 /\ j = i + 1 /\ val t = string_of_rune (ToLowerRune r))).

(** The tokens [toks] are what [lex] makes of [s] from [lo] on: lexemes in
    the order of the text, white space before, between and after them. *)
Fixpoint tokens_from `{Unicode} (s : string) (lo : Z) (toks : list token) : Prop :=
  match toks with
  | [] => all_space s lo (len s)
  | t :: rest =>
      exists i j, lo <= i < j /\ j <= len s /\ all_space s lo i
                  /\ lexeme s i j t /\ tokens_from s j rest
  end.

(** Every [q] of [body] is one of a pair of two [q] in a row, read from
    the left: the quotes of the body of a literal are all doubled. *)
Fixpoint escaped (q : ascii) (body : string) : bool :=
  match body with
  | EmptyString => true
  | String c rest =>
      if Ascii.eqb c q then
        match rest with
        | String c1 rest' => Ascii.eqb c1 q && escaped q rest'
        | EmptyString => false
        end
      else escaped q rest
  end.

(** ** The two patterns of the time check *)

(** The token at [i] is [time], and the next token of its depth before
    [stop] is [between], a comparison operator, or [not] with [between] as
    the next token of that depth after it. *)
Definition time_then_operator (toks : list token) (stop i : Z) : Prop :=
  exists ti j tj,
    tok_at toks i = Ok ti /\ tok_is tkIdent "time" ti = true
    /\ next_token (other_depth (depth ti)) toks stop i j tj
    /\ (tok_is tkKeyword "between" tj = true
        \/ (kind tj = tkSymbol /\ isCompareOp (val tj) = true)
        \/ (tok_is tkKeyword "not" tj = true
            /\ exists k tk, next_token (other_depth (depth ti)) toks stop j k tk
                            /\ tok_is tkKeyword "between" tk = true)).

(** The token at [i] is [between], and one of the six tokens before it,
    not before [start], is [time] at the same depth. *)
Definition between_after_time (toks : list token) (start i : Z) : Prop :=
  exists tb k tk,
    tok_at toks i = Ok tb /\ tok_is tkKeyword "between" tb = true
    /\ start <= k /\ i - 6 <= k < i
    /\ tok_at toks k = Ok tk /\ tok_is tkIdent "time" tk = true
    /\ depth tk = depth tb.

(** ** Token slices of the examples *)

(** The tokens of a query with a quoted two-part table name, a top-level
    OR and a GROUP BY. *)
Definition toks_site : list token :=
  [ mkToken "select" tkKeyword 0; mkToken "*" tkSymbol 0; mkToken "from" tkKeyword 0;
    mkToken (quoted "db") tkIdent 0; mkToken "." tkSymbol 0;
    mkToken (quoted "tbl") tkIdent 0; mkToken "where" tkKeyword 0;
    mkToken "time" tkIdent 0; mkToken ">" tkSymbol 0; mkToken "10" tkNumber 0;
    mkToken "and" tkKeyword 0; mkToken "measure_name" tkIdent 0;
    mkToken "=" tkSymbol 0; mkToken "'a'" tkString 0; mkToken "or" tkKeyword 0;
    mkToken "b" tkIdent 0; mkToken "=" tkSymbol 0; mkToken "1" tkNumber 0;
    mkToken "group" tkKeyword 0; mkToken "by" tkKeyword 0; mkToken "c" tkIdent 0 ].

(** [SELECT * FROM mydb.sensors s WHERE time > 1] *)
Definition toks_dotted : list token :=
  [ mkToken "select" tkKeyword 0; mkToken "*" tkSymbol 0; mkToken "from" tkKeyword 0;
    mkToken "mydb.sensors" tkIdent 0; mkToken "s" tkIdent 0;
    mkToken "where" tkKeyword 0; mkToken "time" tkIdent 0; mkToken ">" tkSymbol 0;
    mkToken "1" tkNumber 0 ].
(** * Properties *)

(** ** Reading outcomes *)

Ltac zbool :=
  repeat match goal with
  | H : (_ && _) = true |- _ => apply andb_true_iff in H; destruct H
  | H : (_ || _) = false |- _ => apply orb_false_iff in H; destruct H
  | H : negb _ = true |- _ => apply negb_true_iff in H
  | H : negb _ = false |- _ => apply negb_false_iff in H
  | H : (_ <? _) = true |- _ => apply Z.ltb_lt in H
  | H : (_ <? _) = false |- _ => apply Z.ltb_ge in H
  | H : (_ <=? _) = true |- _ => apply Z.leb_le in H
  | H : (_ <=? _) = false |- _ => apply Z.leb_gt in H
  | H : (_ =? _) = true |- _ => apply Z.eqb_eq in H
  | H : (_ =? _) = false |- _ => apply Z.eqb_neq in H
  end.

Lemma tok_at_Ok (toks : list token) (i : Z) (t : token) :
  tok_at toks i = Ok t <-> 0 <= i /\ toks !! Z.to_nat i = Some t.
Proof.
  unfold tok_at. destruct (i <? 0) eqn:Hi; zbool.
  - split; [discriminate | lia].
  - destruct (toks !! Z.to_nat i) as [t'|]; split.
    + intros [= ->]. auto.
    + intros [_ [= ->]]. reflexivity.
    + discriminate.
    + intros [_ [=]].
Qed.

Lemma tok_at_in_range (toks : list token) (i : Z) :
  0 <= i < ntoks toks -> exists t, tok_at toks i = Ok t.
Proof.
  intros [H0 Hn]. unfold tok_at, ntoks in *.
  destruct (i <? 0) eqn:Hi; zbool; [lia|].
  destruct (lookup_lt_is_Some_2 toks (Z.to_nat i)) as [t Ht]; [lia|].
  rewrite Ht. eauto.
Qed.

Lemma tok_at_bounds (toks : list token) (i : Z) (t : token) :
  tok_at toks i = Ok t -> 0 <= i < ntoks toks.
Proof.
  intros [H0 Ht]%tok_at_Ok. apply lookup_lt_Some in Ht. unfold ntoks. lia.
Qed.

(** Steps through [let* t := tok_at toks i in _] when [i] is in range. *)
Ltac read_tok toks i t Ht :=
  let H := fresh in
  destruct (tok_at_in_range toks i) as [t Ht]; [lia|];
  rewrite ?Ht; cbn [bind].

(** ** The scans return *)

Lemma skipOtherDepth_ok (toks : list token) (stop dep : Z) (fuel : nat) (j : Z) :
  0 <= j -> ntoks toks - j <= Z.of_nat fuel ->
  exists j', skipOtherDepth toks stop dep fuel j = Ok j' /\ j <= j'.
Proof.
  revert j. induction fuel as [|fuel IH]; intros j Hj Hfuel; cbn [skipOtherDepth];
    destruct ((j <? stop) && (j <? ntoks toks)) eqn:Hc; zbool;
    try lia; try (eexists; split; [reflexivity | lia]).
  read_tok toks j t Ht.
  destruct (negb (depth t =? dep)).
  - destruct (IH (j + 1)) as (j' & -> & Hle); [lia | lia |]. exists j'. split; [reflexivity | lia].
  - eexists; split; [reflexivity | lia].
Qed.

Lemma tok_in_range_is_ok (toks : list token) (stop : Z) (p : token -> bool) (j : Z) :
  0 <= j -> exists b, tok_in_range_is toks stop p j = Ok b.
Proof.
  intros Hj. unfold tok_in_range_is, guarded.
  destruct ((j <? stop) && (j <? ntoks toks)) eqn:Hc; zbool; [|eauto].
  read_tok toks j t Ht. eauto.
Qed.

Lemma isTimeIdentifierAt_ok (toks : list token) (i : Z) :
  exists b, isTimeIdentifierAt toks i = Ok b.
Proof.
  unfold isTimeIdentifierAt.
  destruct ((i <? 0) || (ntoks toks <=? i)) eqn:Hc; zbool; [eauto|].
  read_tok toks i t Ht. destruct (negb _); eauto.
Qed.

Lemma isTimeIdentifierAt_true (toks : list token) (i : Z) :
  isTimeIdentifierAt toks i = Ok true <->
  exists t, tok_at toks i = Ok t /\ kind t = tkIdent /\ val t = "time".
Proof.
  unfold isTimeIdentifierAt.
  destruct ((i <? 0) || (ntoks toks <=? i)) eqn:Hc.
  - split; [discriminate|]. intros (t & Ht%tok_at_bounds & _).
    apply orb_true_iff in Hc as [Hc|Hc]; zbool; lia.
  - zbool. read_tok toks i t Ht. split.
    + destruct (kind t) eqn:Hk; cbn; try discriminate.
      intros [= Hv%String.eqb_eq]. eauto.
    + intros (t' & [= <-] & -> & ->). reflexivity.
Qed.

Lemma timeOperatorFollows_ok (toks : list token) (stop i : Z) :
  0 <= i -> exists b, timeOperatorFollows toks stop i = Ok b.
Proof.
  intros Hi. unfold timeOperatorFollows.
  destruct (isTimeIdentifierAt toks i) as [[|]| |] eqn:Htime; cbn [bind]; eauto;
    try (destruct (isTimeIdentifierAt_ok toks i) as [b Hb]; congruence).
  apply isTimeIdentifierAt_true in Htime as (t & Ht & _).
  rewrite Ht; cbn [bind].
  destruct (skipOtherDepth_ok toks stop (depth t) (S (length toks)) (i + 1))
    as (j & -> & Hj); [lia | unfold ntoks; lia |]; cbn [bind].
  destruct (tok_in_range_is_ok toks stop (tok_is tkKeyword "not") j) as [b1 ->]; [lia|].
  cbn [bind].
  assert (exists b2,
    (if b1
     then let* k := skipOtherDepth toks stop (depth t) (S (length toks)) (j + 1) in
          tok_in_range_is toks stop (tok_is tkKeyword "between") k
     else Ok false) = Ok b2) as [b2 ->].
  { destruct b1; [|eauto].
    destruct (skipOtherDepth_ok toks stop (depth t) (S (length toks)) (j + 1))
      as (k & -> & Hk); [lia | unfold ntoks; lia |]; cbn [bind].
    apply tok_in_range_is_ok. lia. }
  cbn [bind]. destruct b2; [eauto|].
  destruct (tok_in_range_is_ok toks stop (tok_is tkKeyword "between") j) as [b3 ->]; [lia|].
  cbn [bind]. destruct b3; [eauto|].
  apply tok_in_range_is_ok. lia.
Qed.

Lemma timeBeforeBetween_ok (toks : list token) (start i dep : Z) (fuel : nat) (k : Z) :
  0 <= start -> k < ntoks toks -> k - i + 7 <= Z.of_nat fuel ->
  exists b, timeBeforeBetween toks start i dep fuel k = Ok b.
Proof.
  intros Hstart. revert k.
  induction fuel as [|fuel IH]; intros k Hk Hfuel; cbn [timeBeforeBetween];
    destruct ((start <=? k) && (i - 6 <=? k)) eqn:Hc; zbool; try lia; eauto.
  read_tok toks k t Ht.
  destruct (tok_is tkKeyword "not" t); [apply IH; lia|].
  destruct (isTimeIdentifierAt_ok toks k) as [b ->]; cbn [bind].
  destruct (b && (depth t =? dep)); [eauto|]. apply IH; lia.
Qed.

Lemma whereHasTimePredicate_loop_ok (toks : list token) (start stop : Z) (fuel : nat) (i : Z) :
  0 <= start <= i -> ntoks toks - i <= Z.of_nat fuel ->
  exists b, whereHasTimePredicate_loop toks start stop fuel i = Ok b.
Proof.
  revert i. induction fuel as [|fuel IH]; intros i Hi Hfuel; cbn [whereHasTimePredicate_loop];
    destruct ((i <? stop) && (i <? ntoks toks)) eqn:Hc; zbool; try lia; eauto.
  destruct (timeOperatorFollows_ok toks stop i) as [fw ->]; [lia|]; cbn [bind].
  destruct fw; [eauto|].
  read_tok toks i t Ht.
  assert (exists bw,
    (if tok_is tkKeyword "between" t
     then timeBeforeBetween toks start i (depth t) 6 (i - 1)
     else Ok false) = Ok bw) as [bw ->].
  { destruct (tok_is tkKeyword "between" t); [|eauto].
    apply timeBeforeBetween_ok; lia. }
  cbn [bind]. destruct bw; [eauto|]. apply IH; lia.
Qed.

Lemma whereHasTimePredicate_ok (toks : list token) (start stop : Z) :
  0 <= start -> exists b, whereHasTimePredicate toks start stop = Ok b.
Proof.
  intros Hs. unfold whereHasTimePredicate.
  apply whereHasTimePredicate_loop_ok; [lia | unfold ntoks; lia].
Qed.

Lemma tokenKind_eqb_eq (a b : tokenKind) : tokenKind_eqb a b = true <-> a = b.
Proof. destruct a, b; cbn; split; congruence. Qed.

Lemma tok_is_true (k : tokenKind) (w : string) (t : token) :
  tok_is k w t = true <-> kind t = k /\ val t = w.
Proof.
  unfold tok_is. rewrite andb_true_iff, tokenKind_eqb_eq, String.eqb_eq. reflexivity.
Qed.

Lemma tok_is_kind_ne (k k' : tokenKind) (w w' : string) (t : token) :
  tok_is k w t = true -> k <> k' -> tok_is k' w' t = false.
Proof.
  intros [Hk _]%tok_is_true Hne. destruct (tok_is k' w' t) eqn:E; [|reflexivity].
  apply tok_is_true in E as [Hk' _]. congruence.
Qed.

Lemma isTimeIdentifierAt_tok_is (toks : list token) (i : Z) (t : token) :
  tok_at toks i = Ok t -> isTimeIdentifierAt toks i = Ok (tok_is tkIdent "time" t).
Proof.
  intros Ht. destruct (isTimeIdentifierAt_ok toks i) as [[|] Hb]; rewrite Hb.
  - apply isTimeIdentifierAt_true in Hb as (t' & Ht' & Hk & Hv).
    assert (t' = t) as -> by congruence.
    f_equal. symmetry. apply tok_is_true. auto.
  - f_equal. destruct (tok_is tkIdent "time" t) eqn:E; [|reflexivity].
    apply tok_is_true in E as [Hk Hv].
    assert (isTimeIdentifierAt toks i = Ok true) by (apply isTimeIdentifierAt_true; eauto).
    congruence.
Qed.

(** ** The time predicate needs a [time] identifier *)

Lemma timeOperatorFollows_no_time (toks : list token) (stop i : Z) :
  isTimeIdentifierAt toks i = Ok false -> timeOperatorFollows toks stop i = Ok false.
Proof. intros E. unfold timeOperatorFollows. rewrite E. reflexivity. Qed.

Lemma timeBeforeBetween_no_time (toks : list token) (start i dep : Z) (fuel : nat) (k : Z) :
  0 <= start -> k < ntoks toks -> k - i + 7 <= Z.of_nat fuel ->
  (forall k', start <= k' <= k -> isTimeIdentifierAt toks k' = Ok false) ->
  timeBeforeBetween toks start i dep fuel k = Ok false.
Proof.
  intros Hstart. revert k.
  induction fuel as [|fuel IH]; intros k Hk Hfuel Hno; cbn [timeBeforeBetween];
    destruct ((start <=? k) && (i - 6 <=? k)) eqn:Hc; zbool; try lia; eauto.
  read_tok toks k t Ht.
  destruct (tok_is tkKeyword "not" t).
  - apply IH; [lia | lia |]. intros; apply Hno; lia.
  - rewrite Hno by lia. cbn [bind andb]. apply IH; [lia | lia |]. intros; apply Hno; lia.
Qed.

Lemma whereHasTimePredicate_loop_no_time (toks : list token) (start stop : Z)
  (fuel : nat) (i : Z) :
  0 <= start <= i -> ntoks toks - i <= Z.of_nat fuel ->
  (forall k, start <= k < stop -> isTimeIdentifierAt toks k = Ok false) ->
  whereHasTimePredicate_loop toks start stop fuel i = Ok false.
Proof.
  intros Hs Hfuel Hno. revert i Hs Hfuel.
  induction fuel as [|fuel IH]; intros i Hi Hfuel; cbn [whereHasTimePredicate_loop];
    destruct ((i <? stop) && (i <? ntoks toks)) eqn:Hc; zbool; try lia; eauto.
  rewrite timeOperatorFollows_no_time by (apply Hno; lia). cbn [bind].
  read_tok toks i t Ht.
  destruct (tok_is tkKeyword "between" t).
  - rewrite timeBeforeBetween_no_time; [| lia | lia | lia | intros; apply Hno; lia].
    cbn [bind]. apply IH; lia.
  - cbn [bind]. apply IH; lia.
Qed.

(** ** BETWEEN looks back for [time] *)

Lemma timeBeforeBetween_finds (toks : list token) (start i : Z) (fuel : nat)
  (k' k : Z) (tk : token) :
  0 <= start <= k -> i - 6 <= k -> k <= k' < ntoks toks ->
  k' - i + 7 <= Z.of_nat fuel ->
  tok_at toks k = Ok tk -> tok_is tkIdent "time" tk = true ->
  timeBeforeBetween toks start i (depth tk) fuel k' = Ok true.
Proof.
  intros Hs Hwin Hk' Hfuel Htk Htime. revert k' Hk' Hfuel.
  induction fuel as [|fuel IH]; intros k' Hk' Hfuel; cbn [timeBeforeBetween];
    replace ((start <=? k') && (i - 6 <=? k')) with true
      by (symmetry; apply andb_true_iff; split; apply Z.leb_le; lia);
    [lia|].
  read_tok toks k' t Ht.
  destruct (Z.eq_dec k' k) as [->|Hne].
  - assert (t = tk) as -> by congruence.
    rewrite (tok_is_kind_ne tkIdent tkKeyword "time" "not" tk Htime) by discriminate.
    rewrite (isTimeIdentifierAt_tok_is toks k tk Htk), Htime. cbn [bind andb].
    rewrite Z.eqb_refl. reflexivity.
  - destruct (tok_is tkKeyword "not" t); [apply IH; lia|].
    destruct (isTimeIdentifierAt_ok toks k') as [b ->]; cbn [bind].
    destruct (b && (depth t =? depth tk)); [reflexivity|]. apply IH; lia.
Qed.

Lemma whereHasTimePredicate_loop_between (toks : list token) (start stop : Z)
  (fuel : nat) (i0 i k : Z) (tb tk : token) :
  0 <= start <= i0 -> i0 <= i < stop -> ntoks toks - i0 <= Z.of_nat fuel ->
  tok_at toks i = Ok tb -> tok_is tkKeyword "between" tb = true ->
  start <= k -> i - 6 <= k < i ->
  tok_at toks k = Ok tk -> tok_is tkIdent "time" tk = true -> depth tk = depth tb ->
  whereHasTimePredicate_loop toks start stop fuel i0 = Ok true.
Proof.
  intros Hs Hi Hfuel Htb Hbetween Hk Hwin Htk Htime Hdepth.
  pose proof (tok_at_bounds _ _ _ Htb) as Hib.
  revert i0 Hs Hi Hfuel.
  induction fuel as [|fuel IH]; intros i0 Hs Hi Hfuel; cbn [whereHasTimePredicate_loop];
    replace ((i0 <? stop) && (i0 <? ntoks toks)) with true
      by (symmetry; apply andb_true_iff; split; apply Z.ltb_lt; lia);
    [lia|].
  destruct (timeOperatorFollows_ok toks stop i0) as [fw ->]; [lia|]; cbn [bind].
  destruct fw; [reflexivity|].
  read_tok toks i0 t Ht.
  destruct (Z.eq_dec i0 i) as [->|Hne].
  - assert (t = tb) as -> by congruence. rewrite Hbetween, <- Hdepth.
    rewrite (timeBeforeBetween_finds toks start i 6 (i - 1) k tk); auto; try lia.
  - assert (exists bw,
      (if tok_is tkKeyword "between" t
       then timeBeforeBetween toks start i0 (depth t) 6 (i0 - 1)
       else Ok false) = Ok bw) as [bw ->].
    { destruct (tok_is tkKeyword "between" t); [|eauto].
      apply timeBeforeBetween_ok; lia. }
    cbn [bind]. destruct bw; [reflexivity|]. apply IH; lia.
Qed.

(** ** Measure-name shapes *)

Lemma tok_has_at (toks : list token) (i : Z) (p : token -> bool) (t : token) :
  tok_at toks i = Ok t -> tok_has toks i p = p t.
Proof. intros Ht. unfold tok_has. rewrite Ht. reflexivity. Qed.

Lemma tok_has_true (toks : list token) (i : Z) (p : token -> bool) :
  tok_has toks i p = true -> exists t, tok_at toks i = Ok t /\ p t = true.
Proof. unfold tok_has. destruct (tok_at toks i) as [t| |]; try discriminate. eauto. Qed.

Lemma regexpLikeAt_shape (toks : list token) (stop i : Z) :
  0 <= i < ntoks toks -> regexpLikeAt toks stop i = Ok (regexp_shape toks stop i).
Proof.
  intros Hi. unfold regexpLikeAt, regexp_shape, guarded.
  read_tok toks i t Ht. rewrite (tok_has_at _ _ _ _ Ht).
  destruct ((i + 5 <? stop) && (i + 5 <? ntoks toks)) eqn:Hc; zbool.
  2:{ cbn [andb]. destruct (tok_is tkIdent "regexp_like" t); reflexivity. }
  destruct (tok_is tkIdent "regexp_like" t); [|reflexivity].
  read_tok toks (i + 1) t1 Ht1. read_tok toks (i + 2) t2 Ht2.
  read_tok toks (i + 3) t3 Ht3. read_tok toks (i + 4) t4 Ht4.
  read_tok toks (i + 5) t5 Ht5.
  rewrite (tok_has_at _ _ _ _ Ht1), (tok_has_at _ _ _ _ Ht2), (tok_has_at _ _ _ _ Ht3),
    (tok_has_at _ _ _ _ Ht4), (tok_has_at _ _ _ _ Ht5).
  reflexivity.
Qed.

Lemma equalsStringAt_shape (toks : list token) (stop i : Z) (t : token) :
  tok_at toks i = Ok t -> tok_is tkIdent "measure_name" t = true ->
  equalsStringAt toks stop i = Ok (equals_shape toks stop i).
Proof.
  intros Ht Hmn. pose proof (tok_at_bounds _ _ _ Ht) as Hi.
  unfold equalsStringAt, equals_shape, guarded.
  rewrite (tok_has_at _ _ _ _ Ht), Hmn.
  destruct ((i + 2 <? stop) && (i + 2 <? ntoks toks)) eqn:Hc; zbool; [|reflexivity].
  read_tok toks (i + 1) t1 Ht1. read_tok toks (i + 2) t2 Ht2.
  rewrite (tok_has_at _ _ _ _ Ht1), (tok_has_at _ _ _ _ Ht2).
  reflexivity.
Qed.

(** What the tokens inside a shape are: none of them starts a shape. *)
Lemma regexp_shape_inv (toks : list token) (stop i : Z) :
  regexp_shape toks stop i = true ->
  i + 5 < stop /\ i + 5 < ntoks toks
  /\ tok_has toks i (tok_is tkIdent "regexp_like") = true
  /\ tok_has toks (i + 1) (tok_is tkSymbol "(") = true
  /\ tok_has toks (i + 2) (tok_is tkIdent "measure_name") = true
  /\ tok_has toks (i + 3) (tok_is tkSymbol ",") = true
  /\ tok_has toks (i + 4) (fun t => tokenKind_eqb (kind t) tkString) = true
  /\ tok_has toks (i + 5) (tok_is tkSymbol ")") = true.
Proof. unfold regexp_shape. intros E. zbool. tauto. Qed.

Lemma equals_shape_inv (toks : list token) (stop i : Z) :
  equals_shape toks stop i = true ->
  i + 2 < stop /\ i + 2 < ntoks toks
  /\ tok_has toks i (tok_is tkIdent "measure_name") = true
  /\ tok_has toks (i + 1) (tok_is tkSymbol "=") = true
  /\ tok_has toks (i + 2) (fun t => tokenKind_eqb (kind t) tkString) = true.
Proof. unfold equals_shape. intros E. zbool. tauto. Qed.

(** Two facts about the token at one index that name different kinds or
    different words exclude each other. *)
Lemma tok_has_clash (toks : list token) (i : Z) (p q : token -> bool) :
  tok_has toks i p = true -> tok_has toks i q = true ->
  (forall t, p t = true -> q t = true -> False) -> False.
Proof.
  intros (t & Ht & Hp)%tok_has_true (t' & Ht' & Hq)%tok_has_true Hex.
  assert (t' = t) as -> by congruence. eauto.
Qed.

Lemma tok_is_clash (k k' : tokenKind) (w w' : string) (t : token) :
  tok_is k w t = true -> tok_is k' w' t = true -> k = k' /\ w = w'.
Proof. intros [<- <-]%tok_is_true [<- <-]%tok_is_true. auto. Qed.

Lemma tok_is_string_clash (k : tokenKind) (w : string) (t : token) :
  tok_is k w t = true -> tokenKind_eqb (kind t) tkString = true -> k = tkString.
Proof. intros [<- _]%tok_is_true H%tokenKind_eqb_eq. auto. Qed.

(** Closes a goal in which two facts name the same token differently. *)
Ltac clash :=
  match goal with
  | H1 : tok_has ?toks ?a ?p = true, H2 : tok_has ?toks ?b ?q = true |- _ =>
      lazymatch p with q => fail | _ => idtac end;
      replace b with a in H2 by lia;
      exfalso; apply (tok_has_clash toks a p q H1 H2);
      let t := fresh "t" in
      let Hp := fresh "Hp" in
      let Hq := fresh "Hq" in
      intros t Hp Hq;
      first
        [ destruct (tok_is_clash _ _ _ _ _ Hp Hq); discriminate
        | pose proof (tok_is_string_clash _ _ _ Hp Hq); discriminate
        | pose proof (tok_is_string_clash _ _ _ Hq Hp); discriminate ]
  end.

Lemma no_invalid_skip_regexp (toks : list token) (stop i : Z) :
  regexp_shape toks stop i = true ->
  no_invalid_measure_use toks i stop <-> no_invalid_measure_use toks (i + 6) stop.
Proof.
  intros (Hs & Hn & H0 & H1 & H2 & H3 & H4 & H5)%regexp_shape_inv.
  unfold no_invalid_measure_use. split; intros Hcov p Hp Hmn.
  - destruct (Hcov p) as [He | [Hge Hr]]; [lia | assumption | auto |].
    destruct (Z_lt_le_dec (p - 2) (i + 6)); [|auto].
    apply regexp_shape_inv in Hr as (_ & _ & Hr0 & _).
    assert (p - 2 = i + 4 \/ p - 2 = i + 5) as [E|E] by lia; rewrite E in Hr0; clash.
  - assert (p = i \/ p = i + 1 \/ p = i + 2 \/ p = i + 3 \/ p = i + 4 \/ p = i + 5
            \/ i + 6 <= p) as Hcase by lia.
    destruct Hcase as [->|[->|[->|[->|[->|[->|Hge]]]]]]; try clash.
    + right. split; [lia|]. replace (i + 2 - 2) with i by lia.
      unfold regexp_shape. rewrite H0, H1, H2, H3, H4, H5.
      repeat (apply andb_true_iff; split); auto; apply Z.ltb_lt; lia.
    + destruct (Hcov p) as [He | [Hge' Hr]]; [lia | assumption | auto |].
      right. split; [lia | assumption].
Qed.

Lemma no_invalid_skip_equals (toks : list token) (stop i : Z) :
  equals_shape toks stop i = true ->
  no_invalid_measure_use toks i stop <-> no_invalid_measure_use toks (i + 3) stop.
Proof.
  intros He. pose proof He as (Hs & Hn & H0 & H1 & H2)%equals_shape_inv.
  unfold no_invalid_measure_use. split; intros Hcov p Hp Hmn.
  - destruct (Hcov p) as [He' | [Hge Hr]]; [lia | assumption | auto |].
    destruct (Z_lt_le_dec (p - 2) (i + 3)); [|auto].
    apply regexp_shape_inv in Hr as (_ & _ & Hr0 & _).
    assert (p - 2 = i + 1 \/ p - 2 = i + 2) as [E|E] by lia; rewrite E in Hr0; clash.
  - assert (p = i \/ p = i + 1 \/ p = i + 2 \/ i + 3 <= p) as Hcase by lia.
    destruct Hcase as [->|[->|[->|Hge]]]; try clash.
    + left. assumption.
    + destruct (Hcov p) as [He' | [Hge' Hr]]; [lia | assumption | auto |].
      right. split; [lia | assumption].
Qed.

Lemma no_invalid_skip_other (toks : list token) (stop i : Z) :
  regexp_shape toks stop i = false ->
  tok_has toks i (tok_is tkIdent "measure_name") = false ->
  no_invalid_measure_use toks i stop <-> no_invalid_measure_use toks (i + 1) stop.
Proof.
  intros Hr Hmn. unfold no_invalid_measure_use. split; intros Hcov p Hp Hp'.
  - destruct (Hcov p) as [He | [Hge Hr']]; [lia | assumption | auto |].
    destruct (Z.eq_dec (p - 2) i) as [E|E]; [rewrite E in Hr'; congruence|].
    right. split; [lia | assumption].
  - destruct (Z.eq_dec p i) as [->|E]; [congruence|].
    destruct (Hcov p) as [He | [Hge Hr']]; [lia | assumption | auto |].
    right. split; [lia | assumption].
Qed.

Lemma has_valid_skip_other (toks : list token) (stop i : Z) :
  regexp_shape toks stop i = false ->
  equals_shape toks stop i = false ->
  has_valid_measure_use toks i stop <-> has_valid_measure_use toks (i + 1) stop.
Proof.
  intros Hr He. unfold has_valid_measure_use. split; intros (j & Hj & Hshape).
  - exists j. split; [|assumption].
    destruct (Z.eq_dec j i) as [->|]; [|lia]. destruct Hshape; congruence.
  - exists j. split; [lia | assumption].
Qed.

Lemma has_valid_past_end (toks : list token) (stop i : Z) :
  stop <= i \/ ntoks toks <= i -> ~ has_valid_measure_use toks i stop.
Proof.
  intros Hend (j & Hj & [Hs|Hs]).
  - apply regexp_shape_inv in Hs. lia.
  - apply equals_shape_inv in Hs. lia.
Qed.

Lemma no_invalid_past_end (toks : list token) (stop i : Z) :
  stop <= i \/ ntoks toks <= i -> no_invalid_measure_use toks i stop.
Proof.
  intros Hend p Hp (t & Ht%tok_at_bounds & _)%tok_has_true. lia.
Qed.

Lemma whereHasMeasureNamePredicate_loop_spec (toks : list token) (stop : Z)
  (fuel : nat) (i : Z) (foundValid foundInvalid : bool) :
  0 <= i -> ntoks toks - i <= Z.of_nat fuel ->
  exists b,
    whereHasMeasureNamePredicate_loop toks stop fuel i foundValid foundInvalid = Ok b
    /\ (b = true <->
        (foundValid = true \/ has_valid_measure_use toks i stop)
        /\ foundInvalid = false
        /\ no_invalid_measure_use toks i stop).
Proof.
  revert i foundValid foundInvalid.
  induction fuel as [|fuel IH]; intros i fv fi Hi Hfuel;
    cbn [whereHasMeasureNamePredicate_loop];
    destruct ((i <? stop) && (i <? ntoks toks)) eqn:Hc; zbool; try lia.
  1,3: (assert (stop <= i \/ ntoks toks <= i) as Hend
          by (apply andb_false_iff in Hc as [Hc|Hc]; zbool; lia);
        exists (fv && negb fi); split; [reflexivity|];
        pose proof (has_valid_past_end toks stop i Hend);
        pose proof (no_invalid_past_end toks stop i Hend);
        destruct fv, fi; cbn; intuition congruence).
  rewrite regexpLikeAt_shape by lia. cbn [bind].
  destruct (regexp_shape toks stop i) eqn:Hr.
  - destruct (IH (i + 6) true fi) as (b & -> & Hb); [lia | lia |].
    exists b. split; [reflexivity|]. rewrite Hb, (no_invalid_skip_regexp toks stop i Hr).
    assert (has_valid_measure_use toks i stop) by (exists i; split; [lia | auto]).
    tauto.
  - read_tok toks i t Ht.
    destruct (tok_is tkIdent "measure_name" t) eqn:Hmn.
    + rewrite (equalsStringAt_shape toks stop i t Ht Hmn). cbn [bind].
      destruct (equals_shape toks stop i) eqn:He.
      * destruct (IH (i + 3) true fi) as (b & -> & Hb); [lia | lia |].
        exists b. split; [reflexivity|]. rewrite Hb, (no_invalid_skip_equals toks stop i He).
        assert (has_valid_measure_use toks i stop) by (exists i; split; [lia | auto]).
        tauto.
      * destruct (IH (i + 1) fv true) as (b & -> & Hb); [lia | lia |].
        exists b. split; [reflexivity|]. rewrite Hb. split; [intros (_ & [=] & _)|].
        intros (_ & _ & Hcov). exfalso.
        destruct (Hcov i) as [He' | [Hge _]]; [lia | | congruence | lia].
        rewrite (tok_has_at _ _ _ _ Ht). assumption.
    + assert (tok_has toks i (tok_is tkIdent "measure_name") = false) as Hmn'
        by (rewrite (tok_has_at _ _ _ _ Ht); assumption).
      assert (equals_shape toks stop i = false) as He.
      { destruct (equals_shape toks stop i) eqn:He; [|reflexivity].
        apply equals_shape_inv in He. intuition congruence. }
      destruct (IH (i + 1) fv fi) as (b & -> & Hb); [lia | lia |].
      exists b. split; [reflexivity|].
      rewrite Hb, (no_invalid_skip_other toks stop i Hr Hmn'),
        (has_valid_skip_other toks stop i Hr He).
      reflexivity.
Qed.

(** ** Top-level OR branches *)

Lemma or_cuts_step (toks : list token) (dep i stop : Z) :
  i < stop ->
  or_cuts toks dep i stop =
    if top_level_or toks dep i
    then i :: or_cuts toks dep (i + 1) stop
    else or_cuts toks dep (i + 1) stop.
Proof.
  intros Hlt. unfold or_cuts. rewrite seqZ_cons by lia.
  replace (Z.pred (stop - i)) with (stop - (i + 1)) by lia.
  replace (Z.succ i) with (i + 1) by lia. reflexivity.
Qed.

Lemma filter_none {A : Type} (f : A -> bool) (l : list A) :
  (forall x, x ∈ l -> f x = false) -> List.filter f l = [].
Proof.
  induction l as [|x l IH]; intros Hall; [reflexivity|]. cbn.
  rewrite (Hall x) by (apply elem_of_cons; auto).
  apply IH. intros y Hy. apply Hall, elem_of_cons. auto.
Qed.

Lemma or_cuts_end (toks : list token) (dep i stop : Z) :
  stop <= i \/ ntoks toks <= i -> or_cuts toks dep i stop = [].
Proof.
  intros Hend. unfold or_cuts. apply filter_none. intros x [Hx1 Hx2]%elem_of_seqZ.
  unfold top_level_or. destruct (tok_has toks x _) eqn:E; [|reflexivity].
  apply tok_has_true in E as (t & Ht%tok_at_bounds & _). lia.
Qed.

Lemma findTopLevelOrBranches_loop_spec (toks : list token) (stop dep : Z) (fuel : nat)
  (i : Z) (branches : list (Z * Z)) (cur : Z) :
  0 <= i -> ntoks toks - i <= Z.of_nat fuel ->
  exists branches' cur',
    findTopLevelOrBranches_loop toks stop dep fuel i branches cur = Ok (branches', cur')
    /\ branches' ++ [(cur', stop)]
       = branches ++ branches_between (or_cuts toks dep i stop) cur stop.
Proof.
  revert i branches cur.
  induction fuel as [|fuel IH]; intros i branches cur Hi Hfuel;
    cbn [findTopLevelOrBranches_loop];
    destruct ((i <? stop) && (i <? ntoks toks)) eqn:Hc; zbool; try lia.
  1,3: (exists branches, cur; split; [reflexivity|];
        rewrite or_cuts_end
          by (apply andb_false_iff in Hc as [Hc|Hc]; zbool; lia);
        reflexivity).
  read_tok toks i t Ht. rewrite or_cuts_step by lia.
  unfold top_level_or at 1. rewrite (tok_has_at _ _ _ _ Ht).
  destruct ((depth t =? dep) && tok_is tkKeyword "or" t).
  - destruct (IH (i + 1) (branches ++ [(cur, i)]) (i + 1)) as (bs & c & -> & E); [lia|lia|].
    exists bs, c. split; [reflexivity|]. rewrite E, <- app_assoc. reflexivity.
  - destruct (IH (i + 1) branches cur) as (bs & c & -> & E); [lia|lia|].
    exists bs, c. split; [reflexivity | assumption].
Qed.

Lemma findTopLevelOrBranches_spec (toks : list token) (start stop dep : Z) :
  0 <= start ->
  let stop' := if stop <? 0 then ntoks toks else stop in
  findTopLevelOrBranches toks start stop dep
  = Ok (branches_between (or_cuts toks dep start stop') start stop').
Proof.
  intros Hs stop'. unfold findTopLevelOrBranches. fold stop'.
  destruct (findTopLevelOrBranches_loop_spec toks stop' dep (S (length toks)) start [] start)
    as (bs & c & -> & E); [lia | unfold ntoks; lia |].
  cbn [bind]. rewrite E. reflexivity.
Qed.

Lemma branches_between_ends (cuts : list Z) (start stop a b : Z) :
  (a, b) ∈ branches_between cuts start stop -> b = stop \/ b ∈ cuts.
Proof.
  revert start. induction cuts as [|c cuts IH]; intros start; cbn.
  - intros [= -> ->]%list_elem_of_singleton. auto.
  - intros [[= -> ->]|Hin]%elem_of_cons.
    + right. apply elem_of_cons. auto.
    + destruct (IH _ Hin); [auto|]. right. apply elem_of_cons. auto.
Qed.

Lemma branches_between_starts (cuts : list Z) (start stop a b : Z) :
  (a, b) ∈ branches_between cuts start stop -> a = start \/ a - 1 ∈ cuts.
Proof.
  revert start. induction cuts as [|c cuts IH]; intros start; cbn.
  - intros [= -> ->]%list_elem_of_singleton. auto.
  - intros [[= -> ->]|Hin]%elem_of_cons; [auto|].
    right. apply elem_of_cons. destruct (IH _ Hin) as [->|]; [left; lia | auto].
Qed.

Lemma elem_of_or_cuts (toks : list token) (dep start stop i : Z) :
  i ∈ or_cuts toks dep start stop <->
  start <= i < stop /\ top_level_or toks dep i = true.
Proof.
  unfold or_cuts. rewrite list_elem_of_In, filter_In, <- list_elem_of_In, elem_of_seqZ.
  intuition lia.
Qed.

(** ** The clause scans return, within bounds *)

Lemma findNextKeywordAtDepth_loop_ok (toks : list token) (dep : Z) (word : string)
  (fuel : nat) (i : Z) :
  0 <= i -> ntoks toks - i <= Z.of_nat fuel ->
  exists r, findNextKeywordAtDepth_loop toks dep word fuel i = Ok r
            /\ (r = -1 \/ i <= r < ntoks toks).
Proof.
  revert i. induction fuel as [|fuel IH]; intros i Hi Hfuel;
    cbn [findNextKeywordAtDepth_loop];
    destruct (i <? ntoks toks) eqn:Hc; zbool; try lia; eauto.
  read_tok toks i t Ht.
  destruct (depth t <? dep); [eauto|].
  destruct (negb (depth t =? dep)).
  - destruct (IH (i + 1)) as (r & -> & Hr); [lia | lia |]. exists r. split; [reflexivity | lia].
  - destruct (tok_is tkKeyword word t); [exists i; split; [reflexivity | lia]|].
    destruct (IH (i + 1)) as (r & -> & Hr); [lia | lia |]. exists r. split; [reflexivity | lia].
Qed.

Lemma findNextKeywordAtDepth_ok (toks : list token) (start dep : Z) (word : string) :
  0 <= start ->
  exists r, findNextKeywordAtDepth toks start dep word = Ok r
            /\ (r = -1 \/ start <= r < ntoks toks).
Proof.
  intros Hs. apply findNextKeywordAtDepth_loop_ok; [lia | unfold ntoks; lia].
Qed.

Lemma findNextKeywordBetweenAtDepth_loop_ok (toks : list token) (stop dep : Z)
  (word : string) (fuel : nat) (i : Z) :
  0 <= i -> ntoks toks - i <= Z.of_nat fuel ->
  exists r, findNextKeywordBetweenAtDepth_loop toks stop dep word fuel i = Ok r
            /\ (r = -1 \/ i <= r < ntoks toks).
Proof.
  revert i. induction fuel as [|fuel IH]; intros i Hi Hfuel;
    cbn [findNextKeywordBetweenAtDepth_loop];
    destruct ((i <? stop) && (i <? ntoks toks)) eqn:Hc; zbool; try lia; eauto.
  read_tok toks i t Ht.
  destruct (negb (depth t =? dep)).
  - destruct (IH (i + 1)) as (r & -> & Hr); [lia | lia |]. exists r. split; [reflexivity | lia].
  - destruct (tok_is tkKeyword word t); [exists i; split; [reflexivity | lia]|].
    destruct (IH (i + 1)) as (r & -> & Hr); [lia | lia |]. exists r. split; [reflexivity | lia].
Qed.

Lemma findNextKeywordBetweenAtDepth_ok (toks : list token) (start stop dep : Z)
  (word : string) :
  0 <= start ->
  exists r, findNextKeywordBetweenAtDepth toks start stop dep word = Ok r
            /\ (r = -1 \/ start <= r < ntoks toks).
Proof.
  intros Hs. apply findNextKeywordBetweenAtDepth_loop_ok; [lia | unfold ntoks; lia].
Qed.

Lemma findNextTerminatorAtDepth_loop_ok (toks : list token) (dep : Z) (fuel : nat) (i : Z) :
  0 <= i <= ntoks toks -> ntoks toks - i <= Z.of_nat fuel ->
  exists r, findNextTerminatorAtDepth_loop toks dep fuel i = Ok r /\ i <= r <= ntoks toks.
Proof.
  revert i. induction fuel as [|fuel IH]; intros i Hi Hfuel;
    cbn [findNextTerminatorAtDepth_loop];
    destruct (i <? ntoks toks) eqn:Hc; zbool; try lia;
    try (eexists; split; [reflexivity | lia]).
  read_tok toks i t Ht.
  destruct (depth t <? dep); [exists i; split; [reflexivity | lia]|].
  destruct ((depth t =? dep) && _ && _); [exists i; split; [reflexivity | lia]|].
  destruct (IH (i + 1)) as (r & -> & Hr); [lia | lia |]. exists r. split; [reflexivity | lia].
Qed.

Lemma findNextTerminatorAtDepth_ok (toks : list token) (start dep : Z) :
  0 <= start <= ntoks toks ->
  exists r, findNextTerminatorAtDepth toks start dep = Ok r /\ start <= r <= ntoks toks.
Proof.
  intros Hs. apply findNextTerminatorAtDepth_loop_ok; [lia | unfold ntoks; lia].
Qed.

Lemma whereHasMeasureNamePredicate_ok (toks : list token) (start stop : Z) :
  0 <= start -> exists b, whereHasMeasureNamePredicate toks start stop = Ok b.
Proof.
  intros Hs. unfold whereHasMeasureNamePredicate.
  destruct (whereHasMeasureNamePredicate_loop_spec toks
              (if stop <? 0 then ntoks toks else stop) (S (length toks)) start false false)
    as (b & Hb & _); [lia | unfold ntoks; lia | eauto].
Qed.

Lemma checkBranches_ok (toks : list token) (branches : list (Z * Z)) (mt mm : bool) :
  Forall (fun br => 0 <= fst br) branches ->
  exists r, checkBranches toks branches mt mm = Ok r.
Proof.
  intros Hall. revert mt mm.
  induction Hall as [|[a b] branches Ha Hall IH]; intros mt mm; cbn [checkBranches]; [eauto|].
  cbn in Ha.
  destruct (whereHasTimePredicate_ok toks a b Ha) as [ht ->]. cbn [bind].
  destruct (whereHasMeasureNamePredicate_ok toks a b Ha) as [hm ->]. cbn [bind].
  apply IH.
Qed.

Lemma branches_between_nonneg (cuts : list Z) (start stop : Z) :
  0 <= start -> Forall (fun c => 0 <= c) cuts ->
  Forall (fun br : Z * Z => 0 <= fst br) (branches_between cuts start stop).
Proof.
  intros Hs Hall. revert start Hs.
  induction Hall as [|c cuts Hc Hall IH]; intros start Hs; cbn.
  - constructor; [assumption | constructor].
  - constructor; [assumption|]. apply IH. lia.
Qed.

Lemma findTopLevelOrBranches_ok (toks : list token) (start stop dep : Z) :
  0 <= start ->
  exists branches, findTopLevelOrBranches toks start stop dep = Ok branches
                   /\ Forall (fun br => 0 <= fst br) branches.
Proof.
  intros Hs. rewrite findTopLevelOrBranches_spec by assumption.
  eexists. split; [reflexivity|]. apply branches_between_nonneg; [assumption|].
  apply Forall_forall. intros c Hc%elem_of_or_cuts. lia.
Qed.

Lemma snippetAroundTokens_loop_ok (toks : list token) (stop : Z) (fuel : nat)
  (i : Z) (b : string) :
  0 <= i -> stop <= ntoks toks -> ntoks toks - i <= Z.of_nat fuel ->
  exists r, snippetAroundTokens_loop toks stop fuel i b = Ok r.
Proof.
  revert i b. induction fuel as [|fuel IH]; intros i b Hi Hstop Hfuel;
    cbn [snippetAroundTokens_loop];
    destruct (i <? stop) eqn:Hc; zbool; try lia; eauto.
  destruct (220 <? len b); [eauto|].
  read_tok toks i t Ht. apply IH; lia.
Qed.


(** ** A select-site without FROM *)

Lemma findNextKeywordAtDepth_loop_none (toks : list token) (selIdx dep : Z)
  (fuel : nat) (i : Z) :
  0 <= selIdx < i -> ntoks toks - i <= Z.of_nat fuel ->
  no_from_in_block toks selIdx dep ->
  (forall k t', selIdx < k < i -> tok_at toks k = Ok t' -> dep <= depth t') ->
  findNextKeywordAtDepth_loop toks dep "from" fuel i = Ok (-1).
Proof.
  intros Hsel Hfuel Hno. revert i Hsel Hfuel.
  induction fuel as [|fuel IH]; intros i Hsel Hfuel Hseen;
    cbn [findNextKeywordAtDepth_loop];
    destruct (i <? ntoks toks) eqn:Hc; zbool; try lia; try reflexivity.
  read_tok toks i t Ht.
  destruct (depth t <? dep) eqn:Hlow; [reflexivity|]. zbool.
  assert (Hnext : forall k t', selIdx < k < i + 1 -> tok_at toks k = Ok t' -> dep <= depth t').
  { intros k t' Hk Hk'. destruct (Z.eq_dec k i) as [->|]; [|apply (Hseen k); [lia | assumption]].
    assert (t' = t) as -> by congruence. lia. }
  destruct (negb (depth t =? dep)) eqn:Hd; [apply IH; [lia | lia | assumption]|]. zbool.
  destruct (tok_is tkKeyword "from" t) eqn:Hfrom; [|apply IH; [lia | lia | assumption]].
  exfalso. destruct (Hno i t) as (k & t' & Hk & Hk' & Hlt); [lia | assumption.. |].
  specialize (Hseen k t' Hk Hk'). lia.
Qed.

Lemma findNextKeywordAtDepth_none (toks : list token) (selIdx dep : Z) :
  0 <= selIdx -> no_from_in_block toks selIdx dep ->
  findNextKeywordAtDepth toks (selIdx + 1) dep "from" = Ok (-1).
Proof.
  intros Hsel Hno. unfold findNextKeywordAtDepth.
  apply (findNextKeywordAtDepth_loop_none toks selIdx); [lia | unfold ntoks; lia | assumption |].
  intros k t' Hk. lia.
Qed.

Lemma collectSelects_sites (toks : list token) (fuel : nat) (i : Z) (selects : list sel) :
  0 <= i -> ntoks toks - i <= Z.of_nat fuel ->
  let site s := exists t, tok_at toks (selIdx s) = Ok t
                          /\ tok_is tkKeyword "select" t = true
                          /\ selDepth s = depth t in
  Forall site selects ->
  exists r, collectSelects toks fuel i selects = Ok r /\ Forall site r.
Proof.
  intros Hi Hfuel site. revert i selects Hi Hfuel.
  induction fuel as [|fuel IH]; intros i selects Hi Hfuel Hall;
    cbn [collectSelects];
    destruct (i <? ntoks toks) eqn:Hc; zbool; try lia; eauto.
  read_tok toks i t Ht.
  destruct (tok_is tkKeyword "select" t) eqn:Hsel; apply IH; try lia; try assumption.
  apply Forall_app. split; [assumption|]. constructor; [|constructor].
  exists t. cbn. auto.
Qed.

(** ** Bytes of a string *)

Lemma get_in_range (s : string) (n : nat) :
  (n < String.length s)%nat -> exists c, String.get n s = Some c.
Proof.
  revert n. induction s as [|c s IH]; intros n Hn; cbn in *; [lia|].
  destruct n as [|n]; [eauto|]. apply IH. lia.
Qed.

Lemma get_bounds (s : string) (n : nat) (c : ascii) :
  String.get n s = Some c -> (n < String.length s)%nat.
Proof.
  revert n. induction s as [|c' s IH]; intros n; cbn; [discriminate|].
  destruct n as [|n]; [lia|]. intros Hn%IH. lia.
Qed.

Lemma byte_at_in_range (s : string) (i : Z) :
  0 <= i < len s -> exists c, byte_at s i = Ok c.
Proof.
  intros [H0 Hn]. unfold byte_at, len in *.
  destruct (i <? 0) eqn:Hi; zbool; [lia|].
  destruct (get_in_range s (Z.to_nat i)) as [c ->]; [lia | eauto].
Qed.

Lemma byte_at_Ok (s : string) (i : Z) (c : ascii) :
  byte_at s i = Ok c <-> 0 <= i /\ String.get (Z.to_nat i) s = Some c.
Proof.
  unfold byte_at. destruct (i <? 0) eqn:Hi; zbool.
  - split; [discriminate | lia].
  - destruct (String.get (Z.to_nat i) s) as [c'|]; split.
    + intros [= ->]. auto.
    + intros [_ [= ->]]. reflexivity.
    + discriminate.
    + intros [_ [=]].
Qed.

Lemma byte_at_bounds (s : string) (i : Z) (c : ascii) :
  byte_at s i = Ok c -> 0 <= i < len s.
Proof.
  intros [H0 Hg%get_bounds]%byte_at_Ok. unfold len. lia.
Qed.

Lemma slice_in_range (s : string) (i j : Z) :
  0 <= i <= j -> j <= len s ->
  slice s i j = Ok (String.substring (Z.to_nat i) (Z.to_nat (j - i)) s).
Proof.
  intros Hij Hj. unfold slice.
  replace ((0 <=? i) && (i <=? j) && (j <=? len s)) with true; [reflexivity|].
  symmetry. repeat (apply andb_true_iff; split); apply Z.leb_le; lia.
Qed.

(** Steps through [let* c := byte_at s i in _] when [i] is in range. *)
Ltac read_byte s i c Hc :=
  destruct (byte_at_in_range s i) as [c Hc]; [lia|];
  rewrite ?Hc; cbn [bind].

Section ValidatorProperties.

Context `{Unicode}.

Lemma stripQuotes_ok (s : string) : exists r, stripQuotes s = Ok r.
Proof.
  unfold stripQuotes, guarded.
  destruct (2 <=? len s) eqn:Hlen; zbool; cbn [bind]; [|eauto].
  read_byte s 0 a Ha. read_byte s (len s - 1) z Hz.
  destruct (_ || _); [|eauto].
  rewrite slice_in_range by lia. cbn [bind]. eauto.
Qed.

Lemma fromFirstMeaningful_ok (toks : list token) (stop dep : Z) (fuel : nat) (i : Z) :
  0 <= i -> ntoks toks - i <= Z.of_nat fuel ->
  exists r, fromFirstMeaningful toks stop dep fuel i = Ok r
            /\ (forall i', r = Some i' -> i <= i').
Proof.
  revert i. induction fuel as [|fuel IH]; intros i Hi Hfuel; cbn [fromFirstMeaningful];
    destruct ((i <? stop) && (i <? ntoks toks)) eqn:Hc; zbool; try lia;
    try (eexists; split; [reflexivity | intros ? [= <-]; lia]).
  read_tok toks i t Ht.
  assert (exists r, fromFirstMeaningful toks stop dep fuel (i + 1) = Ok r
                    /\ (forall i', r = Some i' -> i <= i')) as Hnext.
  { destruct (IH (i + 1)) as (r & Hr & Hle); [lia | lia |].
    exists r. split; [assumption|]. intros i' E. specialize (Hle i' E). lia. }
  destruct (negb (depth t =? dep)); [assumption|].
  destruct (tokenKind_eqb (kind t) tkSymbol).
  { destruct (val t =? "(")%string; [|assumption].
    eexists; split; [reflexivity | discriminate]. }
  destruct (tokenKind_eqb (kind t) tkKeyword).
  { destruct (val t =? "select")%string; [|assumption].
    eexists; split; [reflexivity | discriminate]. }
  eexists; split; [reflexivity | intros ? [= <-]; lia].
Qed.

Lemma fromIdentAfterDot_ok (toks : list token) (stop dep : Z) (fuel : nat) (k : Z) :
  0 <= k -> ntoks toks - k <= Z.of_nat fuel ->
  exists b, fromIdentAfterDot toks stop dep fuel k = Ok b.
Proof.
  revert k. induction fuel as [|fuel IH]; intros k Hk Hfuel; cbn [fromIdentAfterDot];
    destruct ((k <? stop) && (k <? ntoks toks)) eqn:Hc; zbool; try lia; eauto.
  read_tok toks k t Ht.
  destruct (negb (depth t =? dep)); [apply IH; lia|].
  destruct (tokenKind_eqb (kind t) tkSymbol); [apply IH; lia | eauto].
Qed.

Lemma fromSeekDot_ok (toks : list token) (stop dep : Z) (fuel : nat) (j : Z) :
  0 <= j -> ntoks toks - j <= Z.of_nat fuel ->
  exists b, fromSeekDot toks stop dep fuel j = Ok b.
Proof.
  revert j. induction fuel as [|fuel IH]; intros j Hj Hfuel; cbn [fromSeekDot];
    destruct ((j <? stop) && (j <? ntoks toks)) eqn:Hc; zbool; try lia; eauto.
  read_tok toks j t Ht.
  destruct (negb (depth t =? dep)); [apply IH; lia|].
  destruct (tokenKind_eqb (kind t) tkSymbol); [|eauto].
  destruct (negb (val t =? ".")%string); [apply IH; lia|].
  apply fromIdentAfterDot_ok; [lia | unfold ntoks; lia].
Qed.

Lemma fromStartsWithBaseTable_ok (toks : list token) (start stop dep : Z) :
  0 <= start -> exists b, fromStartsWithBaseTable toks start stop dep = Ok b.
Proof.
  intros Hs. unfold fromStartsWithBaseTable.
  destruct (fromFirstMeaningful_ok toks stop dep (S (length toks)) start)
    as (first & -> & Hfirst); [lia | unfold ntoks; lia |].
  cbn [bind]. destruct first as [i|]; [|eauto].
  specialize (Hfirst i eq_refl).
  destruct ((stop <=? i) || (ntoks toks <=? i)) eqn:Hc; cbn [bind]; [eauto|]. zbool.
  read_tok toks i t Ht.
  destruct (negb (tokenKind_eqb (kind t) tkIdent)); [eauto|].
  destruct (stripQuotes_ok (val t)) as [name ->]. cbn [bind].
  destruct (contains_dot name).
  - destruct (skipOtherDepth_ok toks stop dep (S (length toks)) (i + 1))
      as (j & -> & Hj); [lia | unfold ntoks; lia |]. cbn [bind].
    destruct (tok_in_range_is_ok toks stop (tok_is tkSymbol "(") j) as [call ->]; [lia|].
    cbn [bind]. destruct call; eauto.
  - apply fromSeekDot_ok; [lia | unfold ntoks; lia].
Qed.

Lemma snippetAroundTokens_ok (toks : list token) (start stop : Z) :
  exists r, snippetAroundTokens toks start stop = Ok r.
Proof.
  unfold snippetAroundTokens.
  destruct (snippetAroundTokens_loop_ok toks
              (if (stop <? 0) || (ntoks toks <? stop) then ntoks toks else stop)
              (S (length toks)) (if start <? 0 then 0 else start) "")
    as [b ->].
  - destruct (start <? 0) eqn:E; zbool; lia.
  - destruct ((stop <? 0) || (ntoks toks <? stop)) eqn:E; zbool; lia.
  - destruct (start <? 0) eqn:E; zbool; unfold ntoks; lia.
  - cbn [bind]. eauto.
Qed.

(** A select-site only appends to the issues, and what it appends does not
    depend on the issues found before. *)
Lemma validateSelect_appends (toks : list token) (s : sel) :
  0 <= selIdx s ->
  exists contrib, forall issues, validateSelect toks s issues = Ok (issues ++ contrib).
Proof.
  intros Hs. unfold validateSelect.
  destruct (findNextKeywordAtDepth_ok toks (selIdx s + 1) (selDepth s) "from")
    as (fromIdx & -> & Hfrom); [lia|]. cbn [bind].
  destruct (fromIdx =? -1) eqn:Hf; zbool.
  { exists []. intros. rewrite app_nil_r. reflexivity. }
  destruct (findNextTerminatorAtDepth_ok toks (fromIdx + 1) (selDepth s))
    as (stopIdx & -> & Hstop); [lia|]. cbn [bind].
  destruct (fromStartsWithBaseTable_ok toks (fromIdx + 1) stopIdx (selDepth s))
    as (hitsDB & ->); [lia|]. cbn [bind].
  destruct hitsDB; cbn [negb].
  2:{ exists []. intros. rewrite app_nil_r. reflexivity. }
  destruct (findNextKeywordBetweenAtDepth_ok toks (fromIdx + 1) stopIdx (selDepth s) "where")
    as (whereIdx & -> & Hwhere); [lia|]. cbn [bind].
  destruct (whereIdx =? -1) eqn:Hw; zbool.
  { destruct (snippetAroundTokens_ok toks (selIdx s) stopIdx) as [snip ->]. cbn [bind].
    eexists. intros. reflexivity. }
  destruct (findNextTerminatorAtDepth_ok toks (whereIdx + 1) (selDepth s))
    as (whereStop & -> & HwhereStop); [lia|]. cbn [bind].
  destruct (findTopLevelOrBranches_ok toks (whereIdx + 1) whereStop (selDepth s))
    as (branches & -> & Hbr); [lia|]. cbn [bind].
  destruct (checkBranches_ok toks branches false false Hbr) as [[mt mm] ->]. cbn [bind].
  destruct (snippetAroundTokens_ok toks (selIdx s) whereStop) as [snip ->]. cbn [bind].
  destruct mt, mm; cbn [bind].
  - eexists. intros. rewrite <- app_assoc. reflexivity.
  - eexists. intros. reflexivity.
  - eexists. intros. reflexivity.
  - exists []. intros. rewrite app_nil_r. reflexivity.
Qed.

Lemma validateSelects_appends (toks : list token) (selects : list sel) :
  Forall (fun s => 0 <= selIdx s) selects ->
  exists contribs,
    Forall2 (fun s c => forall issues, validateSelect toks s issues = Ok (issues ++ c))
      selects contribs
    /\ forall issues, validateSelects toks selects issues = Ok (issues ++ concat contribs).
Proof.
  induction 1 as [|s selects Hs Hall (contribs & Hcs & Hrun)].
  - exists []. split; [constructor|]. intros. cbn. rewrite app_nil_r. reflexivity.
  - destruct (validateSelect_appends toks s Hs) as [c Hc].
    exists (c :: contribs). split; [constructor; assumption|].
    intros issues. cbn [validateSelects concat]. rewrite Hc. cbn [bind].
    rewrite Hrun, <- app_assoc. reflexivity.
Qed.

Lemma collectSelects_ok (toks : list token) (fuel : nat) (i : Z) (selects : list sel) :
  0 <= i -> ntoks toks - i <= Z.of_nat fuel ->
  Forall (fun s => 0 <= selIdx s) selects ->
  exists r, collectSelects toks fuel i selects = Ok r
            /\ Forall (fun s => 0 <= selIdx s) r.
Proof.
  revert i selects. induction fuel as [|fuel IH]; intros i selects Hi Hfuel Hall;
    cbn [collectSelects];
    destruct (i <? ntoks toks) eqn:Hc; zbool; try lia; eauto.
  read_tok toks i t Ht.
  destruct (tok_is tkKeyword "select" t); apply IH; try lia; try assumption.
  apply Forall_app. split; [assumption|]. constructor; [cbn; lia | constructor].
Qed.

(** ** stripComments computes [strip] *)

Lemma sdrop_get (s : string) (n : nat) (c : ascii) :
  String.get n s = Some c -> sdrop n s = String c (sdrop (S n) s).
Proof.
  revert n. induction s as [|c' s IH]; intros n; cbn; [discriminate|].
  destruct n as [|n]; [intros [= ->]; reflexivity|]. intros Hn. apply (IH n Hn).
Qed.

Lemma sdrop_all (s : string) (n : nat) :
  (String.length s <= n)%nat -> sdrop n s = EmptyString.
Proof.
  revert n. induction s as [|c s IH]; intros n Hn; destruct n as [|n]; cbn in *;
    try reflexivity; try lia.
  apply IH. lia.
Qed.

Lemma append_nil_r (s : string) : String.append s EmptyString = s.
Proof. induction s as [|c s IH]; cbn; [reflexivity | rewrite IH; reflexivity]. Qed.

Lemma append_assoc (a b c : string) :
  String.append (String.append a b) c = String.append a (String.append b c).
Proof. induction a as [|x a IH]; cbn; [reflexivity | rewrite IH; reflexivity]. Qed.

Lemma WriteByte_append (b : string) (c : ascii) (rest : string) :
  String.append (WriteByte b c) rest = String.append b (String c rest).
Proof. unfold WriteByte. rewrite append_assoc. reflexivity. Qed.

Lemma sdrop_byte (s : string) (i : Z) (c : ascii) :
  byte_at s i = Ok c ->
  sdrop (Z.to_nat i) s = String c (sdrop (Z.to_nat (i + 1)) s).
Proof.
  intros [H0 Hg]%byte_at_Ok. replace (Z.to_nat (i + 1)) with (S (Z.to_nat i)) by lia.
  apply sdrop_get, Hg.
Qed.

Lemma sdrop_end (s : string) (i : Z) :
  len s <= i -> sdrop (Z.to_nat i) s = EmptyString.
Proof. intros Hi. apply sdrop_all. unfold len in Hi. lia. Qed.

Lemma stripComments_loop_strip (fuel : nat) (s b : string) (inLine inBlock : bool) (i : Z) :
  0 <= i -> len s - i < Z.of_nat fuel ->
  stripComments_loop fuel s b inLine inBlock i
  = Ok (String.append b (strip inLine inBlock (sdrop (Z.to_nat i) s))).
Proof.
  revert b inLine inBlock i.
  induction fuel as [|fuel IH]; intros b inLine inBlock i Hi Hfuel;
    cbn [stripComments_loop]; destruct (i <? len s) eqn:Hc; zbool; try lia;
    try (rewrite sdrop_end by lia; cbn; rewrite append_nil_r; reflexivity).
  read_byte s i c Hbyte. rewrite (sdrop_byte s i c Hbyte).
  assert (Hnext : i + 1 < len s ->
    exists c1, byte_at s (i + 1) = Ok c1
      /\ sdrop (Z.to_nat (i + 1)) s = String c1 (sdrop (Z.to_nat (i + 1 + 1)) s)).
  { intros Hlt. destruct (byte_at_in_range s (i + 1)) as [c1 Hc1]; [lia|].
    exists c1. split; [assumption | apply sdrop_byte, Hc1]. }
  assert (Hlast : len s <= i + 1 -> sdrop (Z.to_nat (i + 1)) s = EmptyString)
    by (apply sdrop_end).
  cbn [strip]. destruct inLine.
  { destruct (Ascii.eqb c newline).
    - rewrite IH by lia. rewrite WriteByte_append. reflexivity.
    - rewrite IH by lia. reflexivity. }
  destruct inBlock.
  { unfold guarded. destruct (i + 1 <? len s) eqn:Hn; zbool.
    - destruct (Hnext Hn) as (c1 & Hc1 & ->). rewrite andb_true_r.
      destruct (Ascii.eqb c "*"); cbn [bind andb].
      + rewrite Hc1. cbn [bind]. destruct (Ascii.eqb c1 "/"); rewrite IH by lia.
        * reflexivity.
        * rewrite <- (sdrop_byte s (i + 1) c1 Hc1). reflexivity.
      + rewrite IH by lia. rewrite <- (sdrop_byte s (i + 1) c1 Hc1). reflexivity.
    - rewrite andb_false_r. cbn [bind]. rewrite IH by lia. rewrite (Hlast Hn). reflexivity. }
  unfold guarded. destruct (i + 1 <? len s) eqn:Hn; zbool.
  - destruct (Hnext Hn) as (c1 & Hc1 & ->). rewrite !andb_true_r.
    destruct (Ascii.eqb c "-") eqn:Hdash; cbn [bind andb].
    + rewrite Hc1. cbn [bind]. destruct (Ascii.eqb c1 "-").
      * rewrite IH by lia. reflexivity.
      * assert (Ascii.eqb c "/" = false) as ->.
        { apply Ascii.eqb_eq in Hdash as ->. reflexivity. }
        cbn [bind andb]. rewrite IH by lia. rewrite WriteByte_append.
        rewrite <- (sdrop_byte s (i + 1) c1 Hc1). reflexivity.
    + destruct (Ascii.eqb c "/"); cbn [bind andb].
      * rewrite Hc1. cbn [bind]. destruct (Ascii.eqb c1 "*"); rewrite IH by lia.
        -- reflexivity.
        -- rewrite WriteByte_append, <- (sdrop_byte s (i + 1) c1 Hc1). reflexivity.
      * rewrite IH by lia. rewrite WriteByte_append, <- (sdrop_byte s (i + 1) c1 Hc1).
        reflexivity.
  - rewrite !andb_false_r. cbn [bind]. rewrite IH by lia.
    rewrite WriteByte_append, (Hlast Hn). reflexivity.
Qed.

Lemma stripComments_strip (s : string) : stripComments s = Ok (strip false false s).
Proof.
  unfold stripComments. rewrite stripComments_loop_strip; [reflexivity | lia | unfold len; lia].
Qed.

(** ** What [strip] drops *)

Lemma strip_length (inLine inBlock : bool) (s : string) :
  (String.length (strip inLine inBlock s) <= String.length s)%nat.
Proof.
  remember (String.length s) as n eqn:Hn.
  assert (String.length s <= n)%nat as Hle by lia. clear Hn.
  revert inLine inBlock s Hle.
  induction n as [|n IH]; intros inLine inBlock s Hle.
  { destruct s; cbn in *; lia. }
  destruct s as [|c rest]; cbn [strip String.length] in *; [lia|].
  assert (forall a b, (String.length (strip a b rest) <= n)%nat) as Hrest
    by (intros; apply IH; lia).
  destruct inLine.
  { pose proof (Hrest false inBlock). pose proof (Hrest true inBlock).
    destruct (Ascii.eqb c newline); cbn [String.length]; lia. }
  destruct rest as [|c1 rest'].
  { destruct inBlock; cbn; lia. }
  assert (forall a b, (String.length (strip a b rest') <= n)%nat) as Hrest'
    by (intros; apply IH; cbn [String.length] in *; lia).
  pose proof (Hrest false inBlock). pose proof (Hrest' false false).
  pose proof (Hrest' true inBlock). pose proof (Hrest' false true).
  destruct inBlock.
  { destruct (_ && _); lia. }
  destruct (_ && _); [lia|].
  destruct (_ && _); [lia|].
  cbn [String.length]. lia.
Qed.

Lemma strip_block_skip (c q : string) :
  contains_pair "*" "/" c = false ->
  strip false true (c +++ "*/" +++ q) = strip false false q.
Proof.
  induction c as [|x c IH]; intros Hno; [reflexivity|].
  destruct c as [|y c].
  - cbn. rewrite andb_false_r. reflexivity.
  - cbn [contains_pair] in Hno. apply orb_false_iff in Hno as [Hxy Hno].
    specialize (IH Hno). cbn [String.append strip] in *. rewrite Hxy. exact IH.
Qed.

Lemma strip_block_end (c : string) :
  contains_pair "*" "/" c = false -> strip false true c = EmptyString.
Proof.
  induction c as [|x c IH]; intros Hno; [reflexivity|].
  destruct c as [|y c]; [reflexivity|].
  cbn [contains_pair] in Hno. apply orb_false_iff in Hno as [Hxy Hno].
  specialize (IH Hno). cbn [strip] in *. rewrite Hxy. exact IH.
Qed.

Lemma strip_line_skip (c q : string) :
  string_forallb (fun x => negb (Ascii.eqb x newline)) c = true ->
  strip true false (c +++ String newline q) = String newline (strip false false q).
Proof.
  induction c as [|x c IH]; intros Hno.
  - cbn [String.append strip]. rewrite Ascii.eqb_refl. reflexivity.
  - cbn [string_forallb] in Hno. apply andb_true_iff in Hno as [Hx Hno].
    apply negb_true_iff in Hx. cbn [String.append strip]. rewrite Hx. apply IH, Hno.
Qed.

Lemma strip_line_end (c : string) :
  string_forallb (fun x => negb (Ascii.eqb x newline)) c = true ->
  strip true false c = EmptyString.
Proof.
  induction c as [|x c IH]; intros Hno; [reflexivity|].
  cbn [string_forallb] in Hno. apply andb_true_iff in Hno as [Hx Hno].
  apply negb_true_iff in Hx. cbn [strip]. rewrite Hx. apply IH, Hno.
Qed.

(** Text that [strip] leaves as it is passes through in front of any text
    that does not complete a marker with its last byte. *)
Lemma strip_code_prefix (p r : string) :
  strip false false p = p ->
  (forall r', r = String "-" r' -> ends_with "-" p = false) ->
  (forall r', r = String "*" r' -> ends_with "/" p = false) ->
  strip false false (p +++ r) = p +++ strip false false r.
Proof.
  induction p as [|x p IH]; intros Hp Hdash Hstar; [reflexivity|].
  destruct p as [|y p].
  - cbn [String.append strip]. destruct r as [|c1 r']; [reflexivity|].
    destruct (Ascii.eqb x "-" && Ascii.eqb c1 "-") eqn:E1.
    { apply andb_true_iff in E1 as [Ex ->%Ascii.eqb_eq].
      specialize (Hdash r' eq_refl). cbn in Hdash. congruence. }
    destruct (Ascii.eqb x "/" && Ascii.eqb c1 "*") eqn:E2.
    { apply andb_true_iff in E2 as [Ex ->%Ascii.eqb_eq].
      specialize (Hstar r' eq_refl). cbn in Hstar. congruence. }
    reflexivity.
  - cbn [String.append strip] in *.
    destruct (Ascii.eqb x "-" && Ascii.eqb y "-").
    { pose proof (strip_length true false p) as Hlen. rewrite Hp in Hlen.
      cbn [String.length] in Hlen. lia. }
    destruct (Ascii.eqb x "/" && Ascii.eqb y "*").
    { pose proof (strip_length false true p) as Hlen. rewrite Hp in Hlen.
      cbn [String.length] in Hlen. lia. }
    injection Hp as Hp. f_equal. apply IH; assumption.
Qed.

(** ** lex returns, and what depths it records *)

Lemma readString_loop_ok (fuel : nat) (s : string) (i : Z) (quote : ascii) (j : Z) :
  0 <= i <= j -> j <= len s -> len s - j <= Z.of_nat fuel ->
  exists str nx, readString_loop fuel s i quote j = Ok (str, nx) /\ j <= nx <= len s.
Proof.
  revert j. induction fuel as [|fuel IH]; intros j Hij Hj Hfuel; cbn [readString_loop];
    destruct (j <? len s) eqn:Hc; zbool; try lia;
    try (rewrite slice_in_range by lia; cbn [bind]; eexists _, _; split; [reflexivity | lia]).
  read_byte s j c Hbyte.
  destruct (Ascii.eqb c quote).
  - unfold guarded. destruct (j + 1 <? len s) eqn:Hn; zbool; cbn [bind].
    + read_byte s (j + 1) c1 Hc1. destruct (Ascii.eqb c1 quote).
      * destruct (IH (j + 2)) as (str & nx & -> & Hnx); [lia | lia | lia |].
        eexists _, _; split; [reflexivity | lia].
      * rewrite slice_in_range by lia. cbn [bind].
        eexists _, _; split; [reflexivity | lia].
    + rewrite slice_in_range by lia. cbn [bind].
      eexists _, _; split; [reflexivity | lia].
  - destruct (IH (j + 1)) as (str & nx & -> & Hnx); [lia | lia | lia |].
    eexists _, _; split; [reflexivity | lia].
Qed.

Lemma scan_while_ok (p : ascii -> bool) (fuel : nat) (s : string) (j : Z) :
  0 <= j <= len s -> len s - j <= Z.of_nat fuel ->
  exists j', scan_while p fuel s j = Ok j' /\ j <= j' <= len s.
Proof.
  revert j. induction fuel as [|fuel IH]; intros j Hj Hfuel; cbn [scan_while];
    destruct (j <? len s) eqn:Hc; zbool; try lia;
    try (eexists; split; [reflexivity | lia]).
  read_byte s j c Hbyte.
  destruct (p c); [|eexists; split; [reflexivity | lia]].
  destruct (IH (j + 1)) as (j' & -> & Hj'); [lia | lia |].
  eexists; split; [reflexivity | lia].
Qed.

Lemma substring_two (s : string) (n : nat) (a b : ascii) :
  String.get n s = Some a -> String.get (S n) s = Some b ->
  String.substring n 2 s = String a (String b EmptyString).
Proof.
  revert n. induction s as [|c s IH]; intros n; [discriminate|].
  destruct n as [|n].
  - cbn. intros [= ->]. destruct s as [|c' s]; cbn; [discriminate|].
    intros [= ->]. destruct s; reflexivity.
  - cbn [String.get String.substring]. apply IH.
Qed.

Lemma slice_two (s : string) (i : Z) (r n : ascii) :
  byte_at s i = Ok r -> byte_at s (i + 1) = Ok n ->
  slice s i (i + 2) = Ok (String r (String n EmptyString)).
Proof.
  intros Hr Hn. pose proof (byte_at_bounds _ _ _ Hn) as Hbound.
  apply byte_at_Ok in Hr as [Hi Hr]. apply byte_at_Ok in Hn as [_ Hn].
  rewrite slice_in_range by lia. f_equal.
  replace (Z.to_nat (i + 2 - i)) with 2%nat by lia.
  replace (Z.to_nat (i + 1)) with (S (Z.to_nat i)) in Hn by lia.
  apply substring_two; assumption.
Qed.

Lemma rune_symbol_open (r : ascii) (d : Z) :
  is_open (mkToken (string_of_rune (ToLowerRune r)) tkSymbol d) = Ascii.eqb r "(".
Proof. destruct r as [[] [] [] [] [] [] [] []]; reflexivity. Qed.

Lemma rune_symbol_close (r : ascii) (d : Z) :
  is_close (mkToken (string_of_rune (ToLowerRune r)) tkSymbol d) = Ascii.eqb r ")".
Proof. destruct r as [[] [] [] [] [] [] [] []]; reflexivity. Qed.

Lemma operator_not_paren (r n : ascii) (d : Z) :
  (Ascii.eqb r ">" && Ascii.eqb n "=")
  || (Ascii.eqb r "<" && (Ascii.eqb n "=" || Ascii.eqb n ">"))
  || (Ascii.eqb r "!" && Ascii.eqb n "=") = true ->
  let t := mkToken (ToLower (String r (String n EmptyString))) tkSymbol d in
  is_open t = false /\ is_close t = false.
Proof.
  intros Hop.
  repeat match goal with
  | Hx : (_ || _) = true |- _ => apply orb_true_iff in Hx as [Hx|Hx]
  | Hx : (_ && _) = true |- _ => apply andb_true_iff in Hx as [? ?]
  | Hx : Ascii.eqb _ _ = true |- _ => apply Ascii.eqb_eq in Hx; subst
  end; split; reflexivity.
Qed.

Lemma lex_loop_spec (fuel : nat) (s : string) (out : list token) (dep i : Z) :
  0 <= i <= len s -> len s - i <= Z.of_nat fuel ->
  exists more, lex_loop fuel s out dep i = Ok (out ++ more) /\ depths_from dep more.
Proof.
  revert out dep i. induction fuel as [|fuel IH]; intros out dep i Hi Hfuel;
    cbn [lex_loop]; destruct (i <? len s) eqn:Hc; zbool; try lia;
    try (exists []; rewrite app_nil_r; split; [reflexivity | exact I]).
  (* one more token [t], then the rest of the loop from [i'] at depth [dep'] *)
  assert (Hemit : forall t dep' i',
    i < i' <= len s ->
    (forall rest, depths_from dep' rest -> depths_from dep (t :: rest)) ->
    exists more, lex_loop fuel s (out ++ [t]) dep' i' = Ok (out ++ more)
                 /\ depths_from dep more).
  { intros t dep' i' Hi' Hstep.
    destruct (IH (out ++ [t]) dep' i') as (more & -> & Hmore); [lia | lia |].
    exists (t :: more). rewrite <- app_assoc. split; [reflexivity | auto]. }
  read_byte s i r Hr.
  destruct (IsSpace r); [apply IH; lia|].
  destruct (Ascii.eqb r "(") eqn:Hopen.
  { apply Hemit; [lia|]. intros rest Hrest. cbn. auto. }
  destruct (Ascii.eqb r ")") eqn:Hclose.
  { replace (if dep - 1 <? 0 then 0 else dep - 1) with (Z.max 0 (dep - 1))
      by (destruct (dep - 1 <? 0) eqn:E; zbool; lia).
    apply Hemit; [lia|]. intros rest Hrest. cbn. auto. }
  destruct (Ascii.eqb r squote || Ascii.eqb r dquote).
  { unfold readString.
    destruct (readString_loop_ok (S (String.length s)) s i r (i + 1))
      as (str & nx & -> & Hnx); [lia | lia | unfold len; lia |]. cbn [bind].
    destruct (Ascii.eqb r dquote); apply Hemit; try lia; intros rest Hrest; cbn; auto. }
  destruct (isNumStart r).
  { destruct (scan_while_ok (fun c => isNum c || Ascii.eqb c ".") (S (String.length s)) s (i + 1))
      as (j & -> & Hj); [lia | unfold len; lia |]. cbn [bind].
    rewrite slice_in_range by lia. cbn [bind].
    apply Hemit; [lia|]. intros rest Hrest. cbn. auto. }
  destruct (isIdentStart r).
  { destruct (scan_while_ok isIdentPart (S (String.length s)) s (i + 1))
      as (j & -> & Hj); [lia | unfold len; lia |]. cbn [bind].
    rewrite slice_in_range by lia. cbn [bind].
    destruct (is_keyword _); apply Hemit; try lia; intros rest Hrest; cbn; auto. }
  unfold guarded.
  destruct ((Ascii.eqb r ">" || Ascii.eqb r "<" || Ascii.eqb r "!") && (i + 1 <? len s))
    eqn:Hop; cbn [bind].
  - zbool. read_byte s (i + 1) n Hn.
    match goal with |- context [if ?c then _ else _] => destruct c eqn:Htwo end.
    + rewrite (slice_two s i r n Hr Hn). cbn [bind].
      destruct (operator_not_paren r n dep Htwo) as [Ho Hcl].
      apply Hemit; [lia|]. intros rest Hrest. cbn [depths_from]. rewrite Ho, Hcl. auto.
    + apply Hemit; [lia|]. intros rest Hrest. cbn [depths_from].
      rewrite rune_symbol_open, rune_symbol_close, Hopen, Hclose. auto.
  - apply Hemit; [lia|]. intros rest Hrest. cbn [depths_from].
    rewrite rune_symbol_open, rune_symbol_close, Hopen, Hclose. auto.
Qed.

Lemma lex_depths (s : string) :
  exists toks, lex s = Ok toks /\ depths_from 0 toks.
Proof.
  unfold lex.
  destruct (lex_loop_spec (S (String.length s)) s [] 0 0) as (more & -> & Hmore);
    [unfold len; lia | unfold len; lia | eauto].
Qed.

Lemma depths_from_nonneg (d : Z) (toks : list token) :
  0 <= d -> depths_from d toks -> Forall (fun t => 0 <= depth t) toks.
Proof.
  revert d. induction toks as [|t toks IH]; intros d Hd; cbn [depths_from]; [constructor|].
  destruct (is_open t); [|destruct (is_close t)]; intros [Ht Hrest];
    (constructor; [lia | eapply IH; [|exact Hrest]; lia]).
Qed.

Lemma Validate_returns (sql : string) :
  exists src toks selects contribs,
    stripComments sql = Ok src
    /\ lex src = Ok toks
    /\ collectSelects toks (S (length toks)) 0 [] = Ok selects
    /\ Forall2 (fun s c => forall issues, validateSelect toks s issues = Ok (issues ++ c))
         selects contribs
    /\ Validate sql = Ok (Z.of_nat (length (concat contribs)) =? 0, concat contribs).
Proof.
  unfold Validate. rewrite stripComments_strip. cbn [bind].
  destruct (lex_depths (strip false false sql)) as (toks & Hlex & _). rewrite Hlex. cbn [bind].
  destruct (collectSelects_ok toks (S (length toks)) 0 [])
    as (selects & Hsel & Hall); [lia | unfold ntoks; lia | constructor |].
  rewrite Hsel. cbn [bind].
  destruct (validateSelects_appends toks selects Hall) as (contribs & Hcs & Hrun).
  rewrite Hrun. cbn [bind app].
  exists (strip false false sql), toks, selects, contribs. auto.
Qed.

(** * The claims *)

Lemma branches_between_cut (cuts : list Z) (start stop c : Z) :
  c ∈ cuts -> exists a, (a, c) ∈ branches_between cuts start stop.
Proof.
  revert start. induction cuts as [|c' cuts IH]; intros start Hin.
  - apply elem_of_nil in Hin. contradiction.
  - cbn. apply elem_of_cons in Hin as [->|Hin].
    + exists start. apply elem_of_cons. auto.
    + destruct (IH (c' + 1) Hin) as [a Ha]. exists a. apply elem_of_cons. auto.
Qed.

(** C1.  [findTopLevelOrBranches] cuts a WHERE span exactly at the [or]
    keywords whose depth is the select-site's depth: the branches are the
    spans between these cuts, one branch (the whole span) when there is
    none; every branch end other than the end of the span is such a
    keyword, every such keyword of the span ends a branch, and a token of
    another depth (an OR inside parentheses) is never a cut.  Hence the
    query with [(time > ago(1h) OR device = 'd1') AND measure_name = 'foo']
    is one branch and [Validate] accepts it, while the same OR at the top
    level is refused. *)
Theorem top_level_or_split :
  (forall (toks : list token) (start stop dep : Z),
      0 <= start ->
      let stop' := if stop <? 0 then ntoks toks else stop in
      let cuts := or_cuts toks dep start stop' in
      findTopLevelOrBranches toks start stop dep
      = Ok (branches_between cuts start stop')
      /\ (cuts = [] -> findTopLevelOrBranches toks start stop dep = Ok [(start, stop')])
      /\ (forall a b, (a, b) ∈ branches_between cuts start stop' ->
            b = stop'
            \/ exists t, tok_at toks b = Ok t /\ depth t = dep
                         /\ tok_is tkKeyword "or" t = true)
      /\ (forall i, start <= i < stop' -> top_level_or toks dep i = true ->
            exists a, (a, i) ∈ branches_between cuts start stop')
      /\ (forall i t, tok_at toks i = Ok t -> depth t <> dep -> i ∉ cuts))
  /\ Validate sql_nested_or = Ok (true, [])
  /\ reasons (Validate sql_top_level_or)
     = Ok [ "an OR branch in WHERE clause lacks a time predicate";
            "an OR branch in WHERE clause lacks a valid measure_name predicate (requires = '...' or regexp_like)" ].
Proof.
  split; [|split; vm_compute; reflexivity].
  intros toks start stop dep Hs stop' cuts.
  pose proof (findTopLevelOrBranches_spec toks start stop dep Hs) as Hspec.
  cbn zeta in Hspec. fold stop' in Hspec. fold cuts in Hspec.
  split; [exact Hspec|]. split; [|split; [|split]].
  - intros Hnone. rewrite Hspec, Hnone. reflexivity.
  - intros a b [->|Hcut]%branches_between_ends; [auto|]. right.
    apply elem_of_or_cuts in Hcut as [_ Hor]. unfold top_level_or in Hor.
    apply tok_has_true in Hor as (t & Ht & Hp).
    apply andb_true_iff in Hp as [Hd Hor]. zbool. eauto.
  - intros i Hi Hor. apply branches_between_cut, elem_of_or_cuts. auto.
  - intros i t Ht Hd [_ Hor]%elem_of_or_cuts. unfold top_level_or in Hor.
    rewrite (tok_has_at _ _ _ _ Ht) in Hor.
    apply andb_true_iff in Hor as [Hd' _]. zbool. contradiction.
Qed.

(** C2.  On a branch (from a non-negative [start]) the measure-name check
    returns, and it returns true exactly when the branch holds at least one
    valid use of [measure_name] (the six tokens
    [regexp_like ( measure_name , 'string' )] or the three tokens
    [measure_name = 'string'], inside the branch) and every [measure_name]
    identifier of the branch belongs to such a shape.  A branch with both
    [measure_name = 'foo'] and [measure_name != 'bar'] fails, and
    [Validate] refuses the query of the claim for that reason alone. *)
Theorem measure_name_check_exact :
  (forall (toks : list token) (start stop : Z),
      0 <= start ->
      let stop' := if stop <? 0 then ntoks toks else stop in
      exists b,
        whereHasMeasureNamePredicate toks start stop = Ok b
        /\ (b = true <->
            has_valid_measure_use toks start stop'
            /\ no_invalid_measure_use toks start stop'))
  /\ (let* toks := lex "measure_name = 'foo' AND measure_name != 'bar'" in
      whereHasMeasureNamePredicate toks 0 (-1)) = Ok false
  /\ (let* toks := lex "measure_name = 'foo' AND regexp_like(measure_name, 'b.*')" in
      whereHasMeasureNamePredicate toks 0 (-1)) = Ok true
  /\ Validate sql_poisoned
     = Ok (false,
           [ mkIssue
               "select * from mydb.sensors where time > 10 and measure_name = 'foo' and measure_name != 'bar'"
               "WHERE clause lacks a valid measure_name predicate (requires = '...' or regexp_like)"
               0 ]).
Proof.
  split; [|repeat split; vm_compute; reflexivity].
  intros toks start stop Hs stop'. unfold whereHasMeasureNamePredicate. fold stop'.
  destruct (whereHasMeasureNamePredicate_loop_spec toks stop' (S (length toks))
              start false false) as (b & Hb & Hiff); [lia | unfold ntoks; lia |].
  exists b. split; [exact Hb|]. rewrite Hiff. intuition congruence.
Qed.

Lemma timeOperatorFollows_true (toks : list token) (stop i : Z) :
  timeOperatorFollows toks stop i = Ok true -> isTimeIdentifierAt toks i = Ok true.
Proof.
  unfold timeOperatorFollows.
  destruct (isTimeIdentifierAt toks i) as [[|]| |]; cbn [bind]; congruence.
Qed.

Lemma timeBeforeBetween_true (toks : list token) (start i dep : Z) (fuel : nat) (k : Z) :
  timeBeforeBetween toks start i dep fuel k = Ok true ->
  exists k' t, start <= k' <= k /\ i - 6 <= k'
               /\ tok_at toks k' = Ok t /\ tok_is tkIdent "time" t = true
               /\ depth t = dep.
Proof.
  revert k. induction fuel as [|fuel IH]; intros k; cbn [timeBeforeBetween];
    destruct ((start <=? k) && (i - 6 <=? k)) eqn:Hc; try discriminate. zbool.
  assert (Hrec : timeBeforeBetween toks start i dep fuel (k - 1) = Ok true ->
                 exists k' t, start <= k' <= k /\ i - 6 <= k'
                              /\ tok_at toks k' = Ok t /\ tok_is tkIdent "time" t = true
                              /\ depth t = dep).
  { intros (k' & t & Hk' & Hrest)%IH. exists k', t. split; [lia | assumption]. }
  destruct (tok_at toks k) as [t| |] eqn:Htok; cbn [bind]; try discriminate.
  destruct (tok_is tkKeyword "not" t); [exact Hrec|].
  rewrite (isTimeIdentifierAt_tok_is toks k t Htok). cbn [bind].
  destruct (tok_is tkIdent "time" t) eqn:Ht; cbn [andb]; [|exact Hrec].
  destruct (depth t =? dep) eqn:Hd; [|exact Hrec]. zbool.
  intros _. exists k, t. repeat split; (lia || assumption).
Qed.

Lemma whereHasTimePredicate_loop_true (toks : list token) (start stop : Z)
  (fuel : nat) (i : Z) :
  start <= i ->
  whereHasTimePredicate_loop toks start stop fuel i = Ok true ->
  exists k, start <= k < stop /\ isTimeIdentifierAt toks k = Ok true.
Proof.
  revert i. induction fuel as [|fuel IH]; intros i Hi; cbn [whereHasTimePredicate_loop];
    destruct ((i <? stop) && (i <? ntoks toks)) eqn:Hc; try discriminate. zbool.
  destruct (timeOperatorFollows toks stop i) as [[|]| |] eqn:Hfw; cbn [bind];
    try discriminate.
  { intros _. exists i. split; [lia|]. apply (timeOperatorFollows_true toks stop), Hfw. }
  destruct (tok_at toks i) as [t| |]; cbn [bind]; try discriminate.
  destruct (tok_is tkKeyword "between" t).
  - destruct (timeBeforeBetween toks start i (depth t) 6 (i - 1)) as [[|]| |] eqn:Hbw;
      cbn [bind]; try discriminate.
    + intros _. apply timeBeforeBetween_true in Hbw as (k & tk & Hk & _ & Htk & Ht & _).
      exists k. split; [lia|]. rewrite (isTimeIdentifierAt_tok_is toks k tk Htk), Ht.
      reflexivity.
    + intros Hrec. apply IH in Hrec; [assumption | lia].
  - cbn [bind]. intros Hrec. apply IH in Hrec; [assumption | lia].
Qed.

(** C3.  Only an identifier token whose value is exactly [time] can satisfy
    the time check: on a token slice without such a token
    [whereHasTimePredicate] returns false on every branch, and whenever it
    returns true the branch holds such a token.  A column named
    [measure_time] does not count: the query that bounds only
    [measure_time] is refused for its missing time predicate. *)
Theorem time_check_needs_time_identifier :
  (forall (toks : list token) (start stop : Z),
      0 <= start ->
      (forall t, t ∈ toks -> tok_is tkIdent "time" t = false) ->
      whereHasTimePredicate toks start stop = Ok false)
  /\ (forall (toks : list token) (start stop : Z),
        whereHasTimePredicate toks start stop = Ok true ->
        exists i t, start <= i < (if stop <? 0 then ntoks toks else stop)
                    /\ tok_at toks i = Ok t /\ tok_is tkIdent "time" t = true)
  /\ reasons (Validate sql_measure_time) = Ok [ "WHERE clause lacks a time predicate" ].
Proof.
  split; [|split; [|vm_compute; reflexivity]].
  - intros toks start stop Hs Hno. unfold whereHasTimePredicate.
    apply whereHasTimePredicate_loop_no_time; [lia | unfold ntoks; lia |].
    intros k _. destruct (isTimeIdentifierAt_ok toks k) as [[|] Hb]; [|assumption].
    apply isTimeIdentifierAt_true in Hb as (t & Ht & Hk & Hv).
    apply tok_at_Ok in Ht as [_ Ht]. apply list_elem_of_lookup_2 in Ht.
    specialize (Hno t Ht). assert (tok_is tkIdent "time" t = true) by (apply tok_is_true; auto).
    congruence.
  - intros toks start stop Htrue. unfold whereHasTimePredicate in Htrue.
    apply whereHasTimePredicate_loop_true in Htrue as (k & Hk & Ht); [|lia].
    apply isTimeIdentifierAt_true in Ht as (t & Ht & Hkind & Hval).
    exists k, t. split; [assumption|]. split; [assumption|]. apply tok_is_true. auto.
Qed.

(** C5.  When the scan of a branch meets a [between] keyword at [i], a
    [time] identifier at the depth of that keyword among the six tokens
    before it (positions [i-6] to [i-1], not before the start of the
    branch) makes the time check succeed, whatever stands in between, a
    [not] included.  The backward scan itself succeeds exactly when the
    window holds such a token: it is six tokens wide, a skipped [not]
    takes one of the six places, and the depths must agree. *)
Theorem between_looks_back_six_tokens :
  (forall (toks : list token) (start stop i k : Z) (tb tk : token),
      0 <= start <= i ->
      i < (if stop <? 0 then ntoks toks else stop) ->
      tok_at toks i = Ok tb -> tok_is tkKeyword "between" tb = true ->
      start <= k -> i - 6 <= k < i ->
      tok_at toks k = Ok tk -> tok_is tkIdent "time" tk = true ->
      depth tk = depth tb ->
      whereHasTimePredicate toks start stop = Ok true)
  /\ (forall (toks : list token) (start i : Z) (tb : token),
        0 <= start <= i -> tok_at toks i = Ok tb ->
        timeBeforeBetween toks start i (depth tb) 6 (i - 1) = Ok true
        <-> exists k tk, start <= k /\ i - 6 <= k < i
                         /\ tok_at toks k = Ok tk /\ tok_is tkIdent "time" tk = true
                         /\ depth tk = depth tb)
  /\ (let* toks := lex "time + 1 NOT BETWEEN 2 AND 3" in
      whereHasTimePredicate toks 0 (-1)) = Ok true
  /\ (let* toks := lex "time a b c d e BETWEEN 2 AND 3" in
      whereHasTimePredicate toks 0 (-1)) = Ok true
  /\ (let* toks := lex "time a b c d e f BETWEEN 2 AND 3" in
      whereHasTimePredicate toks 0 (-1)) = Ok false
  /\ (let* toks := lex "time a b c d e NOT BETWEEN 2 AND 3" in
      whereHasTimePredicate toks 0 (-1)) = Ok false
  /\ (let* toks := lex "(time) BETWEEN 2 AND 3" in
      whereHasTimePredicate toks 0 (-1)) = Ok false.
Proof.
  split; [|split; [|repeat split; vm_compute; reflexivity]].
  - intros toks start stop i k tb tk Hs Hi Htb Hbetween Hk Hwin Htk Htime Hdepth.
    unfold whereHasTimePredicate.
    apply (whereHasTimePredicate_loop_between toks start _ (S (length toks)) start i k tb tk);
      auto; try lia. unfold ntoks; lia.
  - intros toks start i tb Hs Htb. pose proof (tok_at_bounds _ _ _ Htb) as Hi. split.
    + intros (k & tk & Hk & Hwin & Hrest)%timeBeforeBetween_true.
      exists k, tk. split; [lia|]. split; [lia | assumption].
    + intros (k & tk & Hk & Hwin & Htk & Htime & <-).
      apply (timeBeforeBetween_finds toks start i 6 (i - 1) k tk); auto; lia.
Qed.

Lemma validateSelect_no_from (toks : list token) (s : sel) (issues : list Issue) :
  0 <= selIdx s -> no_from_in_block toks (selIdx s) (selDepth s) ->
  validateSelect toks s issues = Ok issues.
Proof.
  intros Hs Hno. unfold validateSelect.
  rewrite (findNextKeywordAtDepth_none toks (selIdx s) (selDepth s) Hs Hno).
  reflexivity.
Qed.

(** C7.  A select-site after which no [from] keyword of its own depth is
    reached before the depth drops below it leaves the issues as they are;
    an input all of whose select-sites are such is accepted with no issue,
    [SELECT 1] for one; and when only the outer site lacks its FROM, the
    issues are those of the inner site alone. *)
Theorem select_without_from_raises_no_issue :
  (forall (toks : list token) (s : sel) (issues : list Issue),
      0 <= selIdx s ->
      no_from_in_block toks (selIdx s) (selDepth s) ->
      validateSelect toks s issues = Ok issues)
  /\ (forall (sql : string) (toks : list token),
        (let* src := stripComments sql in lex src) = Ok toks ->
        (forall i t, tok_at toks i = Ok t -> tok_is tkKeyword "select" t = true ->
                     no_from_in_block toks i (depth t)) ->
        Validate sql = Ok (true, []))
  /\ Validate "SELECT 1" = Ok (true, [])
  /\ Validate "SELECT (SELECT a FROM mydb.t)"
     = Ok (false, [ mkIssue "select a from mydb.t" "missing WHERE clause" 1 ]).
Proof.
  split; [exact validateSelect_no_from|]. split; [|split; vm_compute; reflexivity].
  intros sql toks Hlex Hno. unfold Validate.
  destruct (stripComments sql) as [src| |]; cbn [bind] in *; try discriminate.
  rewrite Hlex. cbn [bind].
  destruct (collectSelects_sites toks (S (length toks)) 0 [])
    as (selects & -> & Hsites); [lia | unfold ntoks; lia | constructor |].
  cbn [bind].
  assert (forall issues, validateSelects toks selects issues = Ok issues) as ->.
  { induction Hsites as [|s selects (t & Ht & Hsel & Hd) _ IH]; intros issues;
      cbn [validateSelects]; [reflexivity|].
    rewrite validateSelect_no_from; [cbn [bind]; apply IH | |].
    - apply tok_at_bounds in Ht. lia.
    - rewrite Hd. apply (Hno _ _ Ht Hsel). }
  reflexivity.
Qed.

Lemma concat_nil_Forall {A : Type} (ls : list (list A)) :
  concat ls = [] <-> Forall (fun l => l = []) ls.
Proof.
  induction ls as [|l ls IH]; cbn.
  - split; [constructor | reflexivity].
  - split.
    + intros [-> Hls]%app_eq_nil. constructor; [reflexivity | apply IH, Hls].
    + intros Hall. inversion Hall as [|? ? -> Hls]; subst. apply IH, Hls.
Qed.

(** C9.  [Validate] returns on every input, and its [ok] is true exactly
    when the returned issue list is empty; the list is made of what each
    select-site appended, in order, so [ok] is true exactly when no site
    appended an issue. *)
Theorem ok_iff_no_issue :
  forall sql : string,
    exists (ok : bool) (issues : list Issue),
      Validate sql = Ok (ok, issues)
      /\ (ok = true <-> issues = [])
      /\ exists (toks : list token) (selects : list sel) (contribs : list (list Issue)),
           (let* src := stripComments sql in lex src) = Ok toks
           /\ collectSelects toks (S (length toks)) 0 [] = Ok selects
           /\ Forall2 (fun s c => forall before,
                         validateSelect toks s before = Ok (before ++ c))
                selects contribs
           /\ issues = concat contribs
           /\ (ok = true <-> Forall (fun c => c = []) contribs).
Proof.
  intros sql.
  destruct (Validate_returns sql)
    as (src & toks & selects & contribs & Hsrc & Hlex & Hsel & Hcs & Hval).
  assert (Hok : (Z.of_nat (length (concat contribs)) =? 0) = true <-> concat contribs = []).
  { rewrite Z.eqb_eq. destruct (concat contribs); cbn; split; (congruence || lia). }
  eexists _, _. split; [exact Hval|]. split; [exact Hok|].
  exists toks, selects, contribs. rewrite Hsrc. cbn [bind].
  repeat split; try assumption; try reflexivity.
  - intros E. apply concat_nil_Forall, Hok, E.
  - intros E. apply Hok, concat_nil_Forall, E.
Qed.

Lemma is_open_not_close (t : token) : is_open t = true -> is_close t = false.
Proof.
  intros Ho. destruct (is_close t) eqn:Hc; [|reflexivity].
  destruct (tok_is_clash _ _ _ _ _ Ho Hc). discriminate.
Qed.

(** The depth of a token from the token before it. *)
Lemma depths_from_adjacent (d : Z) (toks : list token) (i : nat) (t1 t2 : token) :
  depths_from d toks ->
  toks !! i = Some t1 -> toks !! S i = Some t2 ->
  let inner := if is_open t1 then depth t1 + 1 else depth t1 in
  depth t2 = if is_close t2 then Z.max 0 (inner - 1) else inner.
Proof.
  revert d i. induction toks as [|t toks IH]; intros d i Hd H1 H2; [discriminate|].
  destruct i as [|i].
  - cbn in H1. injection H1 as ->. destruct toks as [|t toks]; [discriminate|].
    cbn in H2. injection H2 as ->. cbn [depths_from] in Hd. cbn zeta.
    destruct (is_open t1); [|destruct (is_close t1)]; destruct Hd as [-> Hd];
      (destruct (is_open t2) eqn:Ho;
       [rewrite (is_open_not_close t2 Ho) | destruct (is_close t2)]);
      destruct Hd as [-> _]; reflexivity.
  - cbn [depths_from] in Hd.
    destruct (is_open t); [|destruct (is_close t)]; destruct Hd as [_ Hd];
      exact (IH _ i Hd H1 H2).
Qed.

(** C4, as amended.  In the tokens of [lex] an opening parenthesis is
    recorded at the depth in effect before the increment and a closing one
    at the depth after the (clamped) decrement, as [depths_from] replays
    it.  Both delimiters therefore carry the depth of the text around the
    group, one less than the tokens inside it: the token after an opening
    parenthesis is one level deeper than the parenthesis, and a closing
    parenthesis is one level (clamped at zero) above the token before it. *)
Theorem parenthesis_depths :
  (forall s : string,
      exists toks,
        lex s = Ok toks
        /\ depths_from 0 toks
        /\ forall (i : nat) (t1 t2 : token),
             toks !! i = Some t1 -> toks !! S i = Some t2 ->
             (is_open t1 = true -> is_close t2 = false -> depth t2 = depth t1 + 1)
             /\ (is_open t1 = false -> is_close t2 = true ->
                 depth t2 = Z.max 0 (depth t1 - 1)))
  /\ lex "a(b)c"
     = Ok [ mkToken "a" tkIdent 0; mkToken "(" tkSymbol 0; mkToken "b" tkIdent 1;
            mkToken ")" tkSymbol 0; mkToken "c" tkIdent 0 ].
Proof.
  split; [|vm_compute; reflexivity].
  intros s. destruct (lex_depths s) as (toks & Hlex & Hd).
  exists toks. split; [assumption|]. split; [assumption|].
  intros i t1 t2 H1 H2. pose proof (depths_from_adjacent 0 toks i t1 t2 Hd H1 H2) as Hadj.
  cbn zeta in Hadj. split; intros Ho Hc; rewrite Ho, Hc in Hadj; exact Hadj.
Qed.

Lemma substring_all (s : string) : String.substring 0 (String.length s) s = s.
Proof. induction s as [|c s IH]; cbn; [reflexivity | rewrite IH; reflexivity]. Qed.

Lemma slice_all (s : string) : slice s 0 (len s) = Ok s.
Proof.
  rewrite slice_in_range by (unfold len; lia). f_equal. unfold len.
  rewrite Z.sub_0_r, Nat2Z.id. apply substring_all.
Qed.

Lemma string_forallb_get (p : ascii -> bool) (s : string) (n : nat) (c : ascii) :
  string_forallb p s = true -> String.get n s = Some c -> p c = true.
Proof.
  revert n. induction s as [|x s IH]; intros n Hall; [discriminate|].
  cbn [string_forallb] in Hall. apply andb_true_iff in Hall as [Hx Hall].
  destruct n as [|n]; cbn; [intros [= <-]; assumption | apply IH, Hall].
Qed.

Lemma readString_loop_unterminated (fuel : nat) (s : string) (quote : ascii) (j : Z) :
  0 <= j -> len s - j <= Z.of_nat fuel ->
  (forall j' c, j <= j' -> byte_at s j' = Ok c -> Ascii.eqb c quote = false) ->
  readString_loop fuel s 0 quote j = Ok (s, len s).
Proof.
  revert j. induction fuel as [|fuel IH]; intros j Hj Hfuel Hno; cbn [readString_loop];
    destruct (j <? len s) eqn:Hc; zbool; try lia;
    try (rewrite slice_all; reflexivity).
  read_byte s j c Hbyte. rewrite (Hno j c) by (lia || assumption).
  apply IH; [lia | lia |]. intros j' c' Hj'. apply Hno. lia.
Qed.

Lemma readString_unterminated (quote : ascii) (body : string) :
  string_forallb (fun c => negb (Ascii.eqb c quote)) body = true ->
  readString (String quote body) 0 quote
  = Ok (String quote body, len (String quote body)).
Proof.
  intros Hbody. unfold readString.
  apply readString_loop_unterminated; [lia | unfold len; lia |].
  intros j' c Hj' [_ Hget]%byte_at_Ok.
  replace (Z.to_nat j') with (S (Z.to_nat (j' - 1))) in Hget by lia. cbn in Hget.
  apply negb_true_iff. exact (string_forallb_get _ body _ c Hbody Hget).
Qed.

Lemma lex_loop_at_end (fuel : nat) (s : string) (out : list token) (dep : Z) :
  lex_loop fuel s out dep (len s) = Ok out.
Proof. destruct fuel; cbn [lex_loop]; rewrite Z.ltb_irrefl; reflexivity. Qed.

Lemma lex_unterminated (quote : ascii) (body : string) :
  (quote = squote \/ quote = dquote) ->
  string_forallb (fun c => negb (Ascii.eqb c quote)) body = true ->
  lex (String quote body)
  = Ok [ if Ascii.eqb quote dquote
         then mkToken (ToLower (String quote body)) tkIdent 0
         else mkToken (String quote body) tkString 0 ].
Proof.
  intros Hq Hbody. unfold lex. cbn [lex_loop].
  replace (0 <? len (String quote body)) with true
    by (symmetry; apply Z.ltb_lt; unfold len; cbn [String.length]; lia).
  assert (byte_at (String quote body) 0 = Ok quote) as -> by reflexivity. cbn [bind].
  rewrite (readString_unterminated quote body Hbody).
  destruct Hq as [-> | ->]; cbn [bind]; apply lex_loop_at_end.
Qed.

(** C8.  [lex] and [Validate] return a result on every byte sequence: no
    index leaves its slice and no loop runs on.  Every token has a
    non-negative depth, a closing parenthesis with nothing open (the first
    token, for one) is recorded at depth zero and leaves the depth at zero,
    and a literal whose closing quote is missing runs to the end of the
    input as one token. *)
Theorem lex_and_Validate_total :
  (forall s : string,
      exists toks, lex s = Ok toks
                   /\ depths_from 0 toks
                   /\ Forall (fun t => 0 <= depth t) toks)
  /\ (forall (s : string) (t : token) (rest : list token),
        lex s = Ok (t :: rest) -> is_close t = true ->
        depth t = 0 /\ depths_from 0 rest)
  /\ (forall sql : string, exists ok issues, Validate sql = Ok (ok, issues))
  /\ (forall body : string,
        string_forallb (fun c => negb (Ascii.eqb c squote)) body = true ->
        lex (String squote body) = Ok [ mkToken (String squote body) tkString 0 ])
  /\ (forall body : string,
        string_forallb (fun c => negb (Ascii.eqb c dquote)) body = true ->
        lex (String dquote body)
        = Ok [ mkToken (ToLower (String dquote body)) tkIdent 0 ])
  /\ lex "a = 'b c" = Ok [ mkToken "a" tkIdent 0; mkToken "=" tkSymbol 0;
                           mkToken "'b c" tkString 0 ]
  /\ lex "))(a" = Ok [ mkToken ")" tkSymbol 0; mkToken ")" tkSymbol 0;
                       mkToken "(" tkSymbol 0; mkToken "a" tkIdent 1 ]
  /\ Validate "SELECT * FROM mydb.t WHERE time > 1) AND measure_name = 'x" = Ok (true, [])
  /\ reasons (Validate "SELECT * FROM mydb.t s (WHERE time > 1 AND measure_name = 'x'")
     = Ok [ "missing WHERE clause" ]
  /\ reasons (Validate "SELECT * FROM mydb.t WHERE (time > 1 AND measure_name = 'x")
     = Ok [].
Proof.
  split; [|split; [|split; [|split; [|split; [|repeat split; vm_compute; reflexivity]]]]].
  - intros s. destruct (lex_depths s) as (toks & Hlex & Hd).
    exists toks. split; [assumption|]. split; [assumption|].
    apply (depths_from_nonneg 0); [lia | assumption].
  - intros s t rest Hlex Hclose. destruct (lex_depths s) as (toks & Hlex' & Hd).
    assert (toks = t :: rest) as -> by congruence.
    cbn [depths_from] in Hd. destruct (is_open t) eqn:Hopen.
    { rewrite (is_open_not_close t Hopen) in Hclose. discriminate. }
    rewrite Hclose in Hd. exact Hd.
  - intros sql. destruct (Validate_returns sql) as (? & ? & ? & contribs & _ & _ & _ & _ & Hval).
    eauto.
  - intros body Hbody. apply (lex_unterminated squote body); auto.
  - intros body Hbody. apply (lex_unterminated dquote body); auto.
Qed.

Lemma Validate_after_strip (a b : string) :
  stripComments a = stripComments b -> Validate a = Validate b.
Proof. intros E. unfold Validate. rewrite E. reflexivity. Qed.

Lemma stripComments_fixed (p : string) :
  stripComments p = Ok p -> strip false false p = p.
Proof. rewrite stripComments_strip. congruence. Qed.

Lemma strip_block_comment (p c q : string) :
  strip false false p = p -> contains_pair "*" "/" c = false ->
  strip false false (p +++ "/*" +++ c +++ "*/" +++ q) = p +++ strip false false q.
Proof.
  intros Hp Hc. rewrite strip_code_prefix; [| assumption | intros r' [=] | intros r' [=]].
  f_equal. cbn [String.append strip Ascii.eqb Bool.eqb andb]. apply strip_block_skip, Hc.
Qed.

Lemma strip_line_comment (p c q : string) :
  strip false false p = p -> ends_with "-" p = false ->
  string_forallb (fun x => negb (Ascii.eqb x newline)) c = true ->
  strip false false (p +++ "--" +++ c +++ String newline q)
  = p +++ String newline (strip false false q).
Proof.
  intros Hp Hend Hc. rewrite strip_code_prefix; [| assumption | auto | intros r' [=]].
  f_equal. cbn [String.append strip Ascii.eqb Bool.eqb andb]. apply strip_line_skip, Hc.
Qed.

Lemma strip_line_comment_end (p c : string) :
  strip false false p = p -> ends_with "-" p = false ->
  string_forallb (fun x => negb (Ascii.eqb x newline)) c = true ->
  strip false false (p +++ "--" +++ c) = p.
Proof.
  intros Hp Hend Hc. rewrite strip_code_prefix; [| assumption | auto | intros r' [=]].
  cbn [String.append strip Ascii.eqb Bool.eqb andb].
  rewrite (strip_line_end c Hc). apply append_nil_r.
Qed.

Lemma strip_block_comment_end (p c : string) :
  strip false false p = p -> contains_pair "*" "/" c = false ->
  strip false false (p +++ "/*" +++ c) = p.
Proof.
  intros Hp Hc. rewrite strip_code_prefix; [| assumption | intros r' [=] | intros r' [=]].
  cbn [String.append strip Ascii.eqb Bool.eqb andb].
  rewrite (strip_block_end c Hc). apply append_nil_r.
Qed.

(** C6.  [Validate] lexes what [stripComments] returns, and
    [stripComments] drops a comment whole.  After text [p] that it leaves
    as it is, a block comment [/* c */] contributes nothing and the text
    after it is treated as if it followed [p]; a line comment [-- c]
    contributes nothing but its line end; so the result of [Validate] is
    the same whatever the comment holds.  The query whose time predicate
    is commented out has no [time] token and is refused, while the same
    query with the predicate in the clear is accepted. *)
Theorem comments_are_discarded :
  (forall p c q : string,
      stripComments p = Ok p ->
      contains_pair "*" "/" c = false ->
      exists q', stripComments q = Ok q'
                 /\ stripComments (p +++ "/*" +++ c +++ "*/" +++ q) = Ok (p +++ q'))
  /\ (forall p c q : string,
        stripComments p = Ok p -> ends_with "-" p = false ->
        string_forallb (fun x => negb (Ascii.eqb x newline)) c = true ->
        exists q', stripComments q = Ok q'
                   /\ stripComments (p +++ "--" +++ c +++ String newline q)
                      = Ok (p +++ String newline q'))
  /\ (forall p c c' q : string,
        stripComments p = Ok p ->
        contains_pair "*" "/" c = false -> contains_pair "*" "/" c' = false ->
        Validate (p +++ "/*" +++ c +++ "*/" +++ q)
        = Validate (p +++ "/*" +++ c' +++ "*/" +++ q))
  /\ (forall p c c' q : string,
        stripComments p = Ok p -> ends_with "-" p = false ->
        string_forallb (fun x => negb (Ascii.eqb x newline)) c = true ->
        string_forallb (fun x => negb (Ascii.eqb x newline)) c' = true ->
        Validate (p +++ "--" +++ c +++ String newline q)
        = Validate (p +++ "--" +++ c' +++ String newline q))
  /\ (let* src := stripComments sql_commented_time in lex src)
     = Ok [ mkToken "select" tkKeyword 0; mkToken "*" tkSymbol 0;
            mkToken "from" tkKeyword 0; mkToken "mydb.s1" tkIdent 0;
            mkToken "where" tkKeyword 0; mkToken "measure_name" tkIdent 0;
            mkToken "=" tkSymbol 0; mkToken "'x'" tkString 0 ]
  /\ Validate sql_commented_time
     = Ok (false,
           [ mkIssue "select * from mydb.s1 where measure_name = 'x'"
               "WHERE clause lacks a time predicate" 0 ])
  /\ Validate sql_uncommented_time = Ok (true, []).
Proof.
  split; [|split; [|split; [|split; [|repeat split; vm_compute; reflexivity]]]].
  - intros p c q Hp%stripComments_fixed Hc. exists (strip false false q).
    rewrite !stripComments_strip. split; [reflexivity|]. f_equal.
    apply strip_block_comment; assumption.
  - intros p c q Hp%stripComments_fixed Hend Hc. exists (strip false false q).
    rewrite !stripComments_strip. split; [reflexivity|]. f_equal.
    apply strip_line_comment; assumption.
  - intros p c c' q Hp%stripComments_fixed Hc Hc'. apply Validate_after_strip.
    rewrite !stripComments_strip, !strip_block_comment by assumption. reflexivity.
  - intros p c c' q Hp%stripComments_fixed Hend Hc Hc'. apply Validate_after_strip.
    rewrite !stripComments_strip, !strip_line_comment by assumption. reflexivity.
Qed.

Lemma ends_with_append (c : ascii) (p q : string) :
  q <> EmptyString -> ends_with c (p +++ q) = ends_with c q.
Proof.
  intros Hq. induction p as [|x p IH]; [reflexivity|].
  cbn [String.append ends_with]. destruct (p +++ q) eqn:E; [|exact IH].
  destruct p; [contradiction | discriminate].
Qed.

Lemma no_newline_append (b rest : string) :
  string_forallb (fun x => negb (Ascii.eqb x newline)) b = true ->
  string_forallb (fun x => negb (Ascii.eqb x newline)) rest = true ->
  string_forallb (fun x => negb (Ascii.eqb x newline)) (b +++ rest) = true.
Proof.
  intros Hb Hrest. induction b as [|x b IH]; cbn [String.append string_forallb] in *.
  - assumption.
  - apply andb_true_iff in Hb as [Hx Hb]. rewrite Hx. cbn [andb]. apply IH, Hb.
Qed.

(** C10.  [stripComments] knows nothing of string literals.  When the text
    up to a [--], an opened literal ['a] at its end, is text that
    [stripComments] leaves as it is, everything from the [--] to the end
    of the line is removed, the rest of the literal and its closing quote
    with it; a [/*] removes everything up to the next [*/], or to the end
    of the input.  So [measure_name = 'a--b'] reaches the lexer as
    [measure_name = 'a], the time predicate behind it is lost and the
    query is refused, although the same query is accepted when the
    literal is ['a-b']. *)
Theorem comment_markers_cut_string_literals :
  (forall pre a b rest : string,
      stripComments (pre +++ String squote a) = Ok (pre +++ String squote a) ->
      ends_with "-" (String squote a) = false ->
      string_forallb (fun x => negb (Ascii.eqb x newline)) b = true ->
      string_forallb (fun x => negb (Ascii.eqb x newline)) rest = true ->
      stripComments (pre +++ String squote a +++ "--" +++ b +++ String squote rest)
      = Ok (pre +++ String squote a))
  /\ (forall pre a b rest : string,
        stripComments (pre +++ String squote a) = Ok (pre +++ String squote a) ->
        contains_pair "*" "/" (b +++ String squote rest) = false ->
        stripComments (pre +++ String squote a +++ "/*" +++ b +++ String squote rest)
        = Ok (pre +++ String squote a))
  /\ stripComments sql_dashes_in_literal
     = Ok "SELECT * FROM mydb.s1 WHERE measure_name = 'a"
  /\ stripComments sql_slash_star_in_literal
     = Ok "SELECT * FROM mydb.s1 WHERE measure_name = 'a"
  /\ stripComments "x = 'a/*b' AND y = 'c*/d'" = Ok "x = 'ad'"
  /\ (let* src := stripComments sql_dashes_in_literal in lex src)
     = Ok [ mkToken "select" tkKeyword 0; mkToken "*" tkSymbol 0;
            mkToken "from" tkKeyword 0; mkToken "mydb.s1" tkIdent 0;
            mkToken "where" tkKeyword 0; mkToken "measure_name" tkIdent 0;
            mkToken "=" tkSymbol 0; mkToken "'a" tkString 0 ]
  /\ reasons (Validate sql_dashes_in_literal)
     = Ok [ "WHERE clause lacks a time predicate" ]
  /\ reasons (Validate sql_slash_star_in_literal)
     = Ok [ "WHERE clause lacks a time predicate" ]
  /\ Validate sql_dash_in_literal = Ok (true, []).
Proof.
  split; [|split; [|repeat split; vm_compute; reflexivity]].
  - intros pre a b rest Hpre%stripComments_fixed Hend Hb Hrest.
    rewrite stripComments_strip. f_equal.
    rewrite <- (append_assoc pre (String squote a)).
    apply strip_line_comment_end; [assumption | |].
    + rewrite ends_with_append by discriminate. assumption.
    + apply no_newline_append; [assumption|].
      cbn [string_forallb]. rewrite Hrest. reflexivity.
  - intros pre a b rest Hpre%stripComments_fixed Hb.
    rewrite stripComments_strip. f_equal.
    rewrite <- (append_assoc pre (String squote a)).
    apply strip_block_comment_end; assumption.
Qed.

(** The embedding agrees with the repository's own tests. *)
Lemma repository_tests_pass : forallb passes repository_tests = true.
Proof. vm_compute. reflexivity. Qed.


(** * Further properties of the scans *)

Lemma tok_has_false_out (toks : list token) (i : Z) (p : token -> bool) :
  i < 0 \/ ntoks toks <= i -> tok_has toks i p = false.
Proof.
  intros Hout. destruct (tok_has toks i p) eqn:E; [|reflexivity].
  apply tok_has_true in E as (t & Ht%tok_at_bounds & _). lia.
Qed.

Lemma findNextTerminatorAtDepth_loop_first (toks : list token) (dep : Z) (fuel : nat) (i : Z) :
  0 <= i <= ntoks toks -> ntoks toks - i <= Z.of_nat fuel ->
  exists r,
    findNextTerminatorAtDepth_loop toks dep fuel i = Ok r
    /\ i <= r <= ntoks toks
    /\ (forall k, i <= k < r -> tok_has toks k (ends_clause dep) = false)
    /\ (r = ntoks toks \/ tok_has toks r (ends_clause dep) = true).
Proof.
  revert i. induction fuel as [|fuel IH]; intros i Hi Hfuel;
    cbn [findNextTerminatorAtDepth_loop];
    destruct (i <? ntoks toks) eqn:Hc; zbool; try lia;
    try (exists (ntoks toks); split; [reflexivity|]; split; [lia|];
         split; [intros; lia | left; reflexivity]).
  read_tok toks i t Ht.
  assert (Hhere : tok_has toks i (ends_clause dep)
                  = (depth t <? dep)
                    || ((depth t =? dep) && tokenKind_eqb (kind t) tkKeyword
                        && existsb (String.eqb (val t)) terminators))
    by (rewrite (tok_has_at _ _ _ _ Ht); reflexivity).
  destruct (depth t <? dep) eqn:Hlow.
  { exists i. split; [reflexivity|]. split; [lia|]. split; [intros; lia|].
    right. rewrite Hhere. reflexivity. }
  cbn [orb] in Hhere.
  destruct ((depth t =? dep) && _ && _) eqn:Hterm.
  { exists i. split; [reflexivity|]. split; [lia|]. split; [intros; lia|].
    right. exact Hhere. }
  destruct (IH (i + 1)) as (r & -> & Hr & Hbefore & Hat); [lia | lia |].
  exists r. split; [reflexivity|]. split; [lia|]. split; [|exact Hat].
  intros k Hk. destruct (Z.eq_dec k i) as [->|]; [exact Hhere | apply Hbefore; lia].
Qed.

(** X1.  [findNextTerminatorAtDepth] returns the first position from
    [start] on whose token lies below depth [dep] or is one of [group],
    [order], [having], [union], [intersect], [except] at depth [dep], and
    the length of the slice when there is none; a [where] keyword, or a
    terminator keyword at another depth, never stops it. *)
Theorem terminator_is_first_clause_end :
  forall (toks : list token) (start dep : Z),
    0 <= start <= ntoks toks ->
    exists r,
      findNextTerminatorAtDepth toks start dep = Ok r
      /\ start <= r <= ntoks toks
      /\ (forall k, start <= k < r -> tok_has toks k (ends_clause dep) = false)
      /\ (r = ntoks toks \/ tok_has toks r (ends_clause dep) = true)
      /\ (forall t, tok_at toks r = Ok t -> tok_is tkKeyword "where" t = true ->
                    depth t < dep).
Proof.
  intros toks start dep Hs.
  destruct (findNextTerminatorAtDepth_loop_first toks dep (S (length toks)) start)
    as (r & Hr & Hb & Hbefore & Hat); [lia | unfold ntoks; lia |].
  exists r. split; [exact Hr|]. split; [lia|]. split; [exact Hbefore|]. split; [exact Hat|].
  intros t Ht Hwhere. destruct Hat as [->|Hat].
  { apply tok_at_bounds in Ht. lia. }
  rewrite (tok_has_at _ _ _ _ Ht) in Hat. unfold ends_clause in Hat.
  apply tok_is_true in Hwhere as [Hk Hv].
  destruct (depth t <? dep) eqn:Hlow; zbool; [assumption|].
  rewrite Hv in Hat. cbn in Hat. rewrite !andb_false_r in Hat. discriminate.
Qed.

Lemma findNextKeywordBetweenAtDepth_loop_first (toks : list token) (stop dep : Z)
  (word : string) (fuel : nat) (i : Z) :
  0 <= i -> ntoks toks - i <= Z.of_nat fuel ->
  exists r,
    findNextKeywordBetweenAtDepth_loop toks stop dep word fuel i = Ok r
    /\ ((r = -1
         /\ forall k, i <= k < stop -> tok_has toks k (keyword_at_depth dep word) = false)
        \/ (i <= r < stop
            /\ tok_has toks r (keyword_at_depth dep word) = true
            /\ forall k, i <= k < r -> tok_has toks k (keyword_at_depth dep word) = false)).
Proof.
  revert i. induction fuel as [|fuel IH]; intros i Hi Hfuel;
    cbn [findNextKeywordBetweenAtDepth_loop];
    destruct ((i <? stop) && (i <? ntoks toks)) eqn:Hc; zbool; try lia.
  1,3: (exists (-1); split; [reflexivity|]; left; split; [reflexivity|];
        intros k Hk; apply tok_has_false_out;
        apply andb_false_iff in Hc as [Hc|Hc]; zbool; lia).
  read_tok toks i t Ht.
  assert (Hhere : tok_has toks i (keyword_at_depth dep word)
                  = (depth t =? dep) && tok_is tkKeyword word t)
    by (rewrite (tok_has_at _ _ _ _ Ht); reflexivity).
  assert (Hskip : tok_has toks i (keyword_at_depth dep word) = false ->
    exists r,
      findNextKeywordBetweenAtDepth_loop toks stop dep word fuel (i + 1) = Ok r
      /\ ((r = -1
           /\ forall k, i <= k < stop -> tok_has toks k (keyword_at_depth dep word) = false)
          \/ (i <= r < stop
              /\ tok_has toks r (keyword_at_depth dep word) = true
              /\ forall k, i <= k < r ->
                   tok_has toks k (keyword_at_depth dep word) = false))).
  { intros Hno. destruct (IH (i + 1)) as (r & Hr & Hcase); [lia | lia |].
    exists r. split; [exact Hr|].
    destruct Hcase as [[-> Hall] | (Hr1 & Hr2 & Hall)]; [left | right]; repeat split;
      try lia; try assumption;
      intros k Hk; (destruct (Z.eq_dec k i) as [->|]; [exact Hno | apply Hall; lia]). }
  destruct (depth t =? dep); cbn [negb andb] in *; [|apply Hskip, Hhere].
  destruct (tok_is tkKeyword word t); [|apply Hskip, Hhere].
  exists i. split; [reflexivity|]. right. split; [lia|]. split; [exact Hhere|]. intros; lia.
Qed.

(** X2.  [findNextKeywordBetweenAtDepth] returns the first position in
    [[start, stop)] (to the end of the slice when [stop] is negative) whose
    token is the keyword [word] at depth [dep], and -1 exactly when the span
    holds none; unlike [findNextKeywordAtDepth] it looks past tokens of a
    lower depth. *)
Theorem keyword_between_is_first :
  forall (toks : list token) (start stop dep : Z) (word : string),
    0 <= start ->
    let stop' := if stop <? 0 then ntoks toks else stop in
    exists r,
      findNextKeywordBetweenAtDepth toks start stop dep word = Ok r
      /\ ((r = -1
           /\ forall k, start <= k < stop' ->
                tok_has toks k (keyword_at_depth dep word) = false)
          \/ (start <= r < stop' /\ r < ntoks toks
              /\ tok_has toks r (keyword_at_depth dep word) = true
              /\ forall k, start <= k < r ->
                   tok_has toks k (keyword_at_depth dep word) = false)).
Proof.
  intros toks start stop dep word Hs stop'. unfold findNextKeywordBetweenAtDepth. fold stop'.
  destruct (findNextKeywordBetweenAtDepth_loop_first toks stop' dep word (S (length toks)) start)
    as (r & Hr & Hcase); [lia | unfold ntoks; lia |].
  exists r. split; [exact Hr|].
  destruct Hcase as [Hnone | (Hr1 & Hr2 & Hall)]; [left; exact Hnone | right].
  repeat split; try lia; try assumption.
  apply tok_has_true in Hr2 as (t & Ht%tok_at_bounds & _). lia.
Qed.

Lemma findNextKeywordAtDepth_loop_first (toks : list token) (dep : Z) (word : string)
  (fuel : nat) (i : Z) :
  0 <= i -> ntoks toks - i <= Z.of_nat fuel ->
  exists r,
    findNextKeywordAtDepth_loop toks dep word fuel i = Ok r
    /\ ((r = -1
         /\ forall j, i <= j -> tok_has toks j (keyword_at_depth dep word) = true ->
              exists k, i <= k < j /\ tok_has toks k (fun t => depth t <? dep) = true)
        \/ (i <= r < ntoks toks
            /\ tok_has toks r (keyword_at_depth dep word) = true
            /\ forall k, i <= k < r ->
                 tok_has toks k (fun t => depth t <? dep) = false
                 /\ tok_has toks k (keyword_at_depth dep word) = false)).
Proof.
  revert i. induction fuel as [|fuel IH]; intros i Hi Hfuel;
    cbn [findNextKeywordAtDepth_loop];
    destruct (i <? ntoks toks) eqn:Hc; zbool; try lia.
  1,3: (exists (-1); split; [reflexivity|]; left; split; [reflexivity|];
        intros j Hj (t & Ht%tok_at_bounds & _)%tok_has_true; lia).
  read_tok toks i t Ht.
  assert (Hkw : tok_has toks i (keyword_at_depth dep word)
                = (depth t =? dep) && tok_is tkKeyword word t)
    by (rewrite (tok_has_at _ _ _ _ Ht); reflexivity).
  assert (Hlo : tok_has toks i (fun t => depth t <? dep) = (depth t <? dep))
    by (apply (tok_has_at toks i (fun t => depth t <? dep)), Ht).
  destruct (depth t <? dep) eqn:Hlow.
  { exists (-1). split; [reflexivity|]. left. split; [reflexivity|].
    intros j Hj Hjkw. destruct (Z.eq_dec j i) as [->|].
    - rewrite Hkw in Hjkw. zbool. lia.
    - exists i. split; [lia | exact Hlo]. }
  assert (Hskip : tok_has toks i (keyword_at_depth dep word) = false ->
    exists r,
      findNextKeywordAtDepth_loop toks dep word fuel (i + 1) = Ok r
      /\ ((r = -1
           /\ forall j, i <= j -> tok_has toks j (keyword_at_depth dep word) = true ->
                exists k, i <= k < j /\ tok_has toks k (fun t => depth t <? dep) = true)
          \/ (i <= r < ntoks toks
              /\ tok_has toks r (keyword_at_depth dep word) = true
              /\ forall k, i <= k < r ->
                   tok_has toks k (fun t => depth t <? dep) = false
                   /\ tok_has toks k (keyword_at_depth dep word) = false))).
  { intros Hno. destruct (IH (i + 1)) as (r & Hr & Hcase); [lia | lia |].
    exists r. split; [exact Hr|].
    destruct Hcase as [[-> Hall] | (Hr1 & Hr2 & Hall)]; [left | right].
    - split; [reflexivity|]. intros j Hj Hjkw.
      destruct (Z.eq_dec j i) as [->|]; [congruence|].
      destruct (Hall j) as (k & Hk & Hklow); [lia | assumption |].
      exists k. split; [lia | assumption].
    - repeat split; try lia; try assumption;
        (destruct (Z.eq_dec k i) as [->|]; [assumption | apply Hall; lia]). }
  destruct (depth t =? dep); cbn [negb andb] in *; [|apply Hskip, Hkw].
  destruct (tok_is tkKeyword word t); [|apply Hskip, Hkw].
  exists i. split; [reflexivity|]. right. split; [lia|]. split; [exact Hkw|]. intros; lia.
Qed.

(** X3.  [findNextKeywordAtDepth] returns the position of the first keyword
    [word] at depth [dep] from [start] on, provided no token before it lies
    below depth [dep]; it returns -1 exactly when every such keyword comes
    after a token of lower depth (or there is none). *)
Theorem keyword_at_depth_is_first_in_block :
  forall (toks : list token) (start dep : Z) (word : string),
    0 <= start ->
    exists r,
      findNextKeywordAtDepth toks start dep word = Ok r
      /\ ((r = -1
           /\ forall j, start <= j ->
                tok_has toks j (keyword_at_depth dep word) = true ->
                exists k, start <= k < j
                          /\ tok_has toks k (fun t => depth t <? dep) = true)
          \/ (start <= r < ntoks toks
              /\ tok_has toks r (keyword_at_depth dep word) = true
              /\ forall k, start <= k < r ->
                   tok_has toks k (fun t => depth t <? dep) = false
                   /\ tok_has toks k (keyword_at_depth dep word) = false)).
Proof.
  intros toks start dep word Hs. unfold findNextKeywordAtDepth.
  apply findNextKeywordAtDepth_loop_first; [lia | unfold ntoks; lia].
Qed.

(** * Reaching a position of the time check *)

Lemma skipOtherDepth_to (toks : list token) (stop dep : Z) (fuel : nat) (j0 j : Z) (tj : token) :
  0 <= j0 <= j -> j < stop -> ntoks toks - j0 <= Z.of_nat fuel ->
  tok_at toks j = Ok tj -> depth tj = dep ->
  (forall k, j0 <= k < j -> tok_has toks k (fun t => depth t =? dep) = false) ->
  skipOtherDepth toks stop dep fuel j0 = Ok j.
Proof.
  intros Hj0 Hstop Hfuel Htj Hdep Hskip.
  pose proof (tok_at_bounds _ _ _ Htj) as Hjb.
  revert j0 Hj0 Hfuel Hskip.
  induction fuel as [|fuel IH]; intros j0 Hj0 Hfuel Hskip; cbn [skipOtherDepth];
    replace ((j0 <? stop) && (j0 <? ntoks toks)) with true
      by (symmetry; apply andb_true_iff; split; apply Z.ltb_lt; lia);
    [lia|].
  read_tok toks j0 t Ht.
  destruct (Z.eq_dec j0 j) as [->|Hne].
  - assert (t = tj) as -> by congruence. rewrite Hdep, Z.eqb_refl. reflexivity.
  - specialize (Hskip j0) as Hhere. rewrite (tok_has_at _ _ _ _ Ht) in Hhere.
    rewrite Hhere by lia. cbn [negb]. apply IH; [lia | lia |].
    intros k Hk. apply Hskip. lia.
Qed.

Lemma tok_in_range_is_at (toks : list token) (stop : Z) (p : token -> bool) (j : Z) (t : token) :
  j < stop -> tok_at toks j = Ok t -> tok_in_range_is toks stop p j = Ok (p t).
Proof.
  intros Hstop Ht. pose proof (tok_at_bounds _ _ _ Ht) as Hb.
  unfold tok_in_range_is, guarded.
  replace ((j <? stop) && (j <? ntoks toks)) with true
    by (symmetry; apply andb_true_iff; split; apply Z.ltb_lt; lia).
  rewrite Ht. reflexivity.
Qed.

Lemma whereHasTimePredicate_loop_hit (toks : list token) (start stop : Z)
  (fuel : nat) (i0 i : Z) :
  0 <= start <= i0 -> i0 <= i < stop -> i < ntoks toks ->
  ntoks toks - i0 <= Z.of_nat fuel ->
  timeOperatorFollows toks stop i = Ok true ->
  whereHasTimePredicate_loop toks start stop fuel i0 = Ok true.
Proof.
  intros Hs Hi Hin Hfuel Hhit. revert i0 Hs Hi Hfuel.
  induction fuel as [|fuel IH]; intros i0 Hs Hi Hfuel; cbn [whereHasTimePredicate_loop];
    replace ((i0 <? stop) && (i0 <? ntoks toks)) with true
      by (symmetry; apply andb_true_iff; split; apply Z.ltb_lt; lia);
    [lia|].
  destruct (Z.eq_dec i0 i) as [->|Hne]; [rewrite Hhit; reflexivity|].
  destruct (timeOperatorFollows_ok toks stop i0) as [fw ->]; [lia|]; cbn [bind].
  destruct fw; [reflexivity|].
  read_tok toks i0 t Ht.
  assert (exists bw,
    (if tok_is tkKeyword "between" t
     then timeBeforeBetween toks start i0 (depth t) 6 (i0 - 1)
     else Ok false) = Ok bw) as [bw ->].
  { destruct (tok_is tkKeyword "between" t); [|eauto].
    apply timeBeforeBetween_ok; lia. }
  cbn [bind]. destruct bw; [reflexivity|]. apply IH; lia.
Qed.

Lemma skipOtherDepth_all (toks : list token) (stop dep : Z) (fuel : nat) (j0 : Z) :
  no_next_token (other_depth dep) toks stop (j0 - 1) ->
  0 <= j0 -> ntoks toks - j0 <= Z.of_nat fuel ->
  exists j, skipOtherDepth toks stop dep fuel j0 = Ok j /\ (stop <= j \/ ntoks toks <= j).
Proof.
  unfold no_next_token. revert j0.
  induction fuel as [|fuel IH]; intros j0 Hskip Hj0 Hfuel; cbn [skipOtherDepth];
    destruct ((j0 <? stop) && (j0 <? ntoks toks)) eqn:Hc; zbool; try lia;
    try (exists j0; split; [reflexivity | lia]).
  read_tok toks j0 t0 Ht0.
  specialize (Hskip j0 ltac:(lia)) as Hhere.
  rewrite (tok_has_at _ _ _ _ Ht0) in Hhere. unfold other_depth in Hhere.
  rewrite Hhere. apply IH; try lia. intros k Hk. apply Hskip. lia.
Qed.

Lemma skipOtherDepth_next (toks : list token) (stop dep : Z) (i j : Z) (tj : token) :
  0 <= i -> next_token (other_depth dep) toks stop i j tj ->
  skipOtherDepth toks stop dep (S (length toks)) (i + 1) = Ok j.
Proof.
  intros Hi (Hj & Htj & Hat & Hskip). unfold other_depth in Hat. zbool.
  apply (skipOtherDepth_to toks stop dep _ (i + 1) j tj); try assumption; try lia.
  - unfold ntoks. lia.
  - intros k Hk. specialize (Hskip k ltac:(lia)). unfold tok_has, other_depth in *.
    destruct (tok_at toks k); [|reflexivity..].
    apply negb_true_iff. exact Hskip.
Qed.

Lemma tok_in_range_is_out (toks : list token) (stop : Z) (p : token -> bool) (j : Z) :
  stop <= j \/ ntoks toks <= j -> tok_in_range_is toks stop p j = Ok false.
Proof.
  intros Hout. unfold tok_in_range_is, guarded.
  replace ((j <? stop) && (j <? ntoks toks)) with false; [reflexivity|].
  symmetry. apply andb_false_iff. destruct Hout; [left | right]; apply Z.ltb_ge; lia.
Qed.

(** * The time check, exactly *)

Lemma skipOtherDepth_result (toks : list token) (stop dep : Z) (fuel : nat) (j0 : Z) :
  0 <= j0 -> ntoks toks - j0 <= Z.of_nat fuel ->
  exists j,
    skipOtherDepth toks stop dep fuel j0 = Ok j
    /\ ((stop <= j \/ ntoks toks <= j)
        \/ exists tj, next_token (other_depth dep) toks stop (j0 - 1) j tj).
Proof.
  revert j0. induction fuel as [|fuel IH]; intros j0 Hj0 Hfuel; cbn [skipOtherDepth];
    destruct ((j0 <? stop) && (j0 <? ntoks toks)) eqn:Hc; zbool; try lia;
    try (exists j0; split; [reflexivity | left; lia]).
  read_tok toks j0 t Ht. destruct (negb (depth t =? dep)) eqn:Hd.
  - destruct (IH (j0 + 1)) as (j & -> & Hj); [lia | lia |].
    exists j. split; [reflexivity|].
    destruct Hj as [Hout | (tj & Hjr & Htj & Hat & Hskip)]; [left; exact Hout|].
    right. exists tj. split; [lia|]. split; [exact Htj|]. split; [exact Hat|].
    intros k Hk. destruct (Z.eq_dec k j0) as [->|Hne].
    + rewrite (tok_has_at _ _ _ _ Ht). exact Hd.
    + apply Hskip. lia.
  - exists j0. split; [reflexivity|]. right. exists t.
    split; [lia|]. split; [exact Ht|]. split; [exact Hd|]. intros k Hk. lia.
Qed.

Lemma timeOperatorFollows_pattern (toks : list token) (stop i : Z) :
  0 <= i ->
  timeOperatorFollows toks stop i = Ok true <-> time_then_operator toks stop i.
Proof.
  intros Hi. split.
  - intros Hrun. pose proof (timeOperatorFollows_true _ _ _ Hrun) as Htime.
    apply isTimeIdentifierAt_true in Htime as (ti & Hti & Hk & Hv).
    assert (Htm : tok_is tkIdent "time" ti = true) by (apply tok_is_true; auto).
    unfold timeOperatorFollows in Hrun.
    rewrite (isTimeIdentifierAt_tok_is toks i ti Hti), Htm in Hrun. cbn [bind] in Hrun.
    rewrite Hti in Hrun. cbn [bind] in Hrun.
    destruct (skipOtherDepth_result toks stop (depth ti) (S (length toks)) (i + 1))
      as (j & Hj & Hjspec); [lia | unfold ntoks; lia |].
    rewrite Hj in Hrun. cbn [bind] in Hrun.
    destruct Hjspec as [Hout | (tj & Hnext)].
    { rewrite !tok_in_range_is_out in Hrun by assumption. cbn [bind] in Hrun.
      discriminate. }
    replace (i + 1 - 1) with i in Hnext by lia.
    pose proof Hnext as (Hjr & Htj & _ & _).
    rewrite !(tok_in_range_is_at toks stop _ j tj) in Hrun by (lia || assumption).
    cbn [bind] in Hrun.
    exists ti, j, tj. split; [exact Hti|]. split; [exact Htm|]. split; [exact Hnext|].
    destruct (tok_is tkKeyword "not" tj) eqn:Hnot.
    + right. right. split; [reflexivity|].
      destruct (skipOtherDepth_result toks stop (depth ti) (S (length toks)) (j + 1))
        as (k & Hk' & Hkspec); [lia | unfold ntoks; lia |].
      rewrite Hk' in Hrun. cbn [bind] in Hrun.
      assert (Hnb : tok_is tkKeyword "between" tj = false).
      { apply tok_is_true in Hnot as [_ Hval]. unfold tok_is. rewrite Hval.
        apply andb_false_iff. right. reflexivity. }
      assert (Hns : tokenKind_eqb (kind tj) tkSymbol = false).
      { apply tok_is_true in Hnot as [Hkind _]. rewrite Hkind. reflexivity. }
      destruct Hkspec as [Hout | (tk & Hnextk)].
      { rewrite tok_in_range_is_out in Hrun by assumption. cbn [bind] in Hrun.
        rewrite Hnb in Hrun. cbn [bind] in Hrun. rewrite Hns in Hrun. discriminate. }
      replace (j + 1 - 1) with j in Hnextk by lia.
      pose proof Hnextk as (Hkr & Htk & _ & _).
      rewrite (tok_in_range_is_at toks stop _ k tk) in Hrun by (lia || assumption).
      cbn [bind] in Hrun.
      destruct (tok_is tkKeyword "between" tk) eqn:Hbt; [eauto|].
      rewrite Hnb in Hrun. cbn [bind] in Hrun. rewrite Hns in Hrun. discriminate.
    + cbn [bind] in Hrun.
      destruct (tok_is tkKeyword "between" tj) eqn:Hbt; [left; reflexivity|].
      right. left. injection Hrun as Hrun. apply andb_true_iff in Hrun as [Hsym Hop].
      apply tokenKind_eqb_eq in Hsym. auto.
  - intros (ti & j & tj & Hti & Htm & Hnext & Hop).
    unfold timeOperatorFollows.
    rewrite (isTimeIdentifierAt_tok_is toks i ti Hti), Htm. cbn [bind].
    rewrite Hti. cbn [bind].
    rewrite (skipOtherDepth_next toks stop (depth ti) i j tj Hi Hnext). cbn [bind].
    pose proof Hnext as (Hjr & Htj & _ & _).
    rewrite !(tok_in_range_is_at toks stop _ j tj) by (lia || assumption). cbn [bind].
    destruct Hop as [Hbt | [[Hkind Hcmp] | [Hnot (k & tk & Hnextk & Hbt)]]].
    + assert (tok_is tkKeyword "not" tj = false) as ->.
      { apply tok_is_true in Hbt as [_ Hval]. unfold tok_is. rewrite Hval.
        apply andb_false_iff. right. reflexivity. }
      cbn [bind]. rewrite Hbt. reflexivity.
    + assert (forall w, tok_is tkKeyword w tj = false) as Hno
        by (intros w; unfold tok_is; rewrite Hkind; reflexivity).
      rewrite !Hno. cbn [bind]. rewrite Hkind, Hcmp. reflexivity.
    + rewrite Hnot.
      rewrite (skipOtherDepth_next toks stop (depth ti) j k tk) by (lia || assumption).
      cbn [bind]. pose proof Hnextk as (Hkr & Htk & _ & _).
      rewrite (tok_in_range_is_at toks stop _ k tk) by (lia || assumption).
      cbn [bind]. rewrite Hbt. reflexivity.
Qed.

Lemma whereHasTimePredicate_loop_found (toks : list token) (start stop : Z)
  (fuel : nat) (i0 : Z) :
  0 <= start <= i0 ->
  whereHasTimePredicate_loop toks start stop fuel i0 = Ok true ->
  exists i, i0 <= i < stop
            /\ (time_then_operator toks stop i \/ between_after_time toks start i).
Proof.
  revert i0. induction fuel as [|fuel IH]; intros i0 Hi0; cbn [whereHasTimePredicate_loop];
    destruct ((i0 <? stop) && (i0 <? ntoks toks)) eqn:Hc; try discriminate. zbool.
  assert (Hrec : whereHasTimePredicate_loop toks start stop fuel (i0 + 1) = Ok true ->
                 exists i, i0 <= i < stop
                           /\ (time_then_operator toks stop i
                               \/ between_after_time toks start i)).
  { intros (i & Hi & Hpat)%IH; [|lia]. exists i. split; [lia | exact Hpat]. }
  destruct (timeOperatorFollows toks stop i0) as [[|]| |] eqn:Hfw; cbn [bind];
    try discriminate.
  { intros _. exists i0. split; [lia|]. left.
    apply timeOperatorFollows_pattern; [lia | exact Hfw]. }
  destruct (tok_at toks i0) as [t| |] eqn:Ht; cbn [bind]; try discriminate.
  destruct (tok_is tkKeyword "between" t) eqn:Hbt; [|exact Hrec].
  destruct (timeBeforeBetween toks start i0 (depth t) 6 (i0 - 1)) as [[|]| |] eqn:Hbw;
    cbn [bind]; try discriminate; [|exact Hrec].
  intros _. apply timeBeforeBetween_true in Hbw as (k & tk & Hk & Hwin & Htk & Htm & Hd).
  exists i0. split; [lia|]. right. exists t, k, tk.
  repeat (split; [first [assumption | lia]|]). assumption.
Qed.

(** X4.  The time check of a branch passes exactly when some position of
    the branch shows one of two patterns: a [time] identifier whose next
    token of the same depth inside the branch is a comparison operator,
    [between], or [not] followed at that depth by [between]; or a
    [between] keyword with a [time] identifier of its depth among the six
    tokens before it, the start of the branch not crossed.  Tokens of
    other depths between [time] and its operator (the arguments of a
    call, for one) are passed over, and nothing else counts. *)
Theorem time_check_exact (toks : list token) (start stop : Z) :
  0 <= start ->
  let stop' := if stop <? 0 then ntoks toks else stop in
  exists b,
    whereHasTimePredicate toks start stop = Ok b
    /\ (b = true <->
        exists i, start <= i < stop'
                  /\ (time_then_operator toks stop' i \/ between_after_time toks start i)).
Proof.
  intros Hs stop'.
  destruct (whereHasTimePredicate_ok toks start stop Hs) as [b Hb].
  exists b. split; [exact Hb|]. unfold whereHasTimePredicate in Hb. fold stop' in Hb.
  split.
  - intros ->.
    apply (whereHasTimePredicate_loop_found toks start stop' (S (length toks)) start);
      [lia | exact Hb].
  - intros (i & Hi & [Hfw | Hbw]).
    + assert (Hin : i < ntoks toks).
      { destruct Hfw as (ti & _ & _ & Hti%tok_at_bounds & _). lia. }
      rewrite (whereHasTimePredicate_loop_hit toks start stop' (S (length toks)) start i) in Hb;
        try lia; [congruence | unfold ntoks; lia |].
      apply timeOperatorFollows_pattern; [lia | exact Hfw].
    + destruct Hbw as (tb & k & tk & Htb & Hbt & Hk & Hwin & Htk & Htm & Hd).
      rewrite (whereHasTimePredicate_loop_between toks start stop' (S (length toks)) start i k tb tk) in Hb;
        try assumption; try lia; [congruence | unfold ntoks; lia].
Qed.

(** * Select-sites and their issues *)

Lemma checkBranches_spec (toks : list token) (branches : list (Z * Z)) :
  Forall (fun br => 0 <= fst br) branches ->
  forall mt0 mm0 : bool,
  exists mt mm,
    checkBranches toks branches mt0 mm0 = Ok (mt, mm)
    /\ (mt = false <->
        mt0 = false
        /\ Forall (fun br => whereHasTimePredicate toks (fst br) (snd br) = Ok true) branches)
    /\ (mm = false <->
        mm0 = false
        /\ Forall (fun br => whereHasMeasureNamePredicate toks (fst br) (snd br) = Ok true)
             branches).
Proof.
  induction 1 as [|[a b] branches Ha Hall IH]; intros mt0 mm0; cbn [checkBranches].
  - exists mt0, mm0. split; [reflexivity|].
    split; (split; [intros ->; split; [reflexivity | constructor] | intros [-> _]; reflexivity]).
  - cbn in Ha.
    destruct (whereHasTimePredicate_ok toks a b Ha) as [ht Hht]. rewrite Hht. cbn [bind].
    destruct (whereHasMeasureNamePredicate_ok toks a b Ha) as [hm Hhm]. rewrite Hhm. cbn [bind].
    destruct (IH (if negb ht then true else mt0) (if negb hm then true else mm0))
      as (mt & mm & -> & Hmt & Hmm).
    exists mt, mm. split; [reflexivity|].
    rewrite Hmt, Hmm, !Forall_cons. cbn [fst snd]. rewrite Hht, Hhm.
    split.
    + destruct ht; cbn [negb]; split; try tauto; try (intros [? _]; discriminate).
      intros (_ & [=] & _).
    + destruct hm; cbn [negb]; split; try tauto; try (intros [? _]; discriminate).
      intros (_ & [=] & _).
Qed.

(** X5.  The loop over the branches of a WHERE clause raises its two flags
    independently: [hasMissingTime] stays false exactly when every branch
    passes the time check, [hasMissingMeasure] exactly when every branch
    passes the measure-name check; one failing branch is enough, and a
    branch that passes never lowers a flag again. *)
Theorem branch_flags_exact (toks : list token) (branches : list (Z * Z)) :
  Forall (fun br => 0 <= fst br) branches ->
  exists hasMissingTime hasMissingMeasure,
    checkBranches toks branches false false = Ok (hasMissingTime, hasMissingMeasure)
    /\ (hasMissingTime = false <->
        Forall (fun br => whereHasTimePredicate toks (fst br) (snd br) = Ok true) branches)
    /\ (hasMissingMeasure = false <->
        Forall (fun br => whereHasMeasureNamePredicate toks (fst br) (snd br) = Ok true)
          branches).
Proof.
  intros Hall.
  destruct (checkBranches_spec toks branches Hall false false) as (mt & mm & Hrun & Hmt & Hmm).
  exists mt, mm. split; [exact Hrun|]. rewrite Hmt, Hmm. tauto.
Qed.

Lemma branches_between_length (cuts : list Z) (start stop : Z) :
  length (branches_between cuts start stop) = S (length cuts).
Proof.
  revert start. induction cuts as [|c cuts IH]; intros start; cbn; [reflexivity|].
  rewrite IH. reflexivity.
Qed.

(** What a select-site appends once its FROM, its base table and its
    WHERE have been found. *)
Lemma validateSelect_with_where (toks : list token) (s : sel)
  (fromIdx stopIdx whereIdx whereStop : Z) :
  0 <= selIdx s ->
  findNextKeywordAtDepth toks (selIdx s + 1) (selDepth s) "from" = Ok fromIdx ->
  fromIdx <> -1 ->
  findNextTerminatorAtDepth toks (fromIdx + 1) (selDepth s) = Ok stopIdx ->
  fromStartsWithBaseTable toks (fromIdx + 1) stopIdx (selDepth s) = Ok true ->
  findNextKeywordBetweenAtDepth toks (fromIdx + 1) stopIdx (selDepth s) "where"
  = Ok whereIdx ->
  whereIdx <> -1 ->
  findNextTerminatorAtDepth toks (whereIdx + 1) (selDepth s) = Ok whereStop ->
  let cuts := or_cuts toks (selDepth s) (whereIdx + 1) whereStop in
  let branches := branches_between cuts (whereIdx + 1) whereStop in
  let inOr := match cuts with [] => false | _ => true end in
  exists snip mt mm,
    snippetAroundTokens toks (selIdx s) whereStop = Ok snip
    /\ checkBranches toks branches false false = Ok (mt, mm)
    /\ Forall (fun br => 0 <= fst br) branches
    /\ forall issues,
         validateSelect toks s issues
         = Ok (issues
               ++ (if mt then [mkIssue snip (reason_time inOr) (selDepth s)] else [])
               ++ (if mm then [mkIssue snip (reason_measure inOr) (selDepth s)] else [])).
Proof.
  intros Hs Hfrom Hfrom1 Hstop Hbase Hwhere Hwhere1 HwhereStop cuts branches inOr.
  destruct (findNextKeywordAtDepth_ok toks (selIdx s + 1) (selDepth s) "from")
    as (r & Hr & Hrb); [lia|].
  rewrite Hfrom in Hr. injection Hr as <-.
  destruct (findNextKeywordBetweenAtDepth_ok toks (fromIdx + 1) stopIdx (selDepth s) "where")
    as (r & Hr & Hwb); [lia|].
  rewrite Hwhere in Hr. injection Hr as <-.
  destruct (findNextTerminatorAtDepth_ok toks (whereIdx + 1) (selDepth s))
    as (r & Hr & Hsb); [lia|].
  rewrite HwhereStop in Hr. injection Hr as <-.
  assert (Hbr : Forall (fun br : Z * Z => 0 <= fst br) branches).
  { apply branches_between_nonneg; [lia|].
    apply Forall_forall. intros c Hc%elem_of_or_cuts. lia. }
  destruct (checkBranches_ok toks branches false false Hbr) as [[mt mm] Hcheck].
  destruct (snippetAroundTokens_ok toks (selIdx s) whereStop) as [snip Hsnip].
  exists snip, mt, mm. split; [exact Hsnip|]. split; [exact Hcheck|]. split; [exact Hbr|].
  intros issues. unfold validateSelect.
  rewrite Hfrom. cbn [bind].
  replace (fromIdx =? -1) with false by (symmetry; apply Z.eqb_neq; assumption).
  rewrite Hstop. cbn [bind]. rewrite Hbase. cbn [bind negb].
  rewrite Hwhere. cbn [bind].
  replace (whereIdx =? -1) with false by (symmetry; apply Z.eqb_neq; assumption).
  rewrite HwhereStop. cbn [bind].
  rewrite findTopLevelOrBranches_spec by lia.
  replace (whereStop <? 0) with false by (symmetry; apply Z.ltb_ge; lia).
  fold cuts. fold branches. cbn [bind].
  rewrite Hcheck. cbn [bind].
  assert ((1 <? Z.of_nat (length branches)) = inOr) as ->.
  { unfold branches. rewrite branches_between_length. subst inOr.
    destruct cuts; cbn [length]; [reflexivity | apply Z.ltb_lt; lia]. }
  rewrite Hsnip.
  destruct mt, mm, inOr; cbn [bind reason_time reason_measure];
    rewrite ?app_nil_r, <- ?app_assoc; reflexivity.
Qed.

(** X6.  For a select-site whose FROM names a base table and whose WHERE
    keyword is found, what the site appends is decided by the branches
    between the top-level ORs of the WHERE clause alone: nothing exactly
    when every branch passes both the time check and the measure-name
    check; an issue about the time predicate exactly when some branch
    fails the time check, and after it one about [measure_name] exactly
    when some branch fails that check.  The wording names an OR branch
    exactly when the clause has a top-level OR. *)
Theorem site_with_where_judged_by_branches
  (toks : list token) (s : sel) (fromIdx stopIdx whereIdx whereStop : Z) :
  0 <= selIdx s ->
  findNextKeywordAtDepth toks (selIdx s + 1) (selDepth s) "from" = Ok fromIdx ->
  fromIdx <> -1 ->
  findNextTerminatorAtDepth toks (fromIdx + 1) (selDepth s) = Ok stopIdx ->
  fromStartsWithBaseTable toks (fromIdx + 1) stopIdx (selDepth s) = Ok true ->
  findNextKeywordBetweenAtDepth toks (fromIdx + 1) stopIdx (selDepth s) "where"
  = Ok whereIdx ->
  whereIdx <> -1 ->
  findNextTerminatorAtDepth toks (whereIdx + 1) (selDepth s) = Ok whereStop ->
  let cuts := or_cuts toks (selDepth s) (whereIdx + 1) whereStop in
  let branches := branches_between cuts (whereIdx + 1) whereStop in
  let inOr := match cuts with [] => false | _ => true end in
  let time_ok (br : Z * Z) := whereHasTimePredicate toks (fst br) (snd br) = Ok true in
  let measure_ok (br : Z * Z) :=
    whereHasMeasureNamePredicate toks (fst br) (snd br) = Ok true in
  exists contrib,
    (forall issues, validateSelect toks s issues = Ok (issues ++ contrib))
    /\ (contrib = [] <-> Forall (fun br => time_ok br /\ measure_ok br) branches)
    /\ (reason_time inOr ∈ map Reason contrib <-> ~ Forall time_ok branches)
    /\ (reason_measure inOr ∈ map Reason contrib <-> ~ Forall measure_ok branches)
    /\ (map Reason contrib
        = List.filter (fun r => String.eqb r (reason_time inOr)) (map Reason contrib)
          ++ List.filter (fun r => String.eqb r (reason_measure inOr)) (map Reason contrib))
    /\ Forall (fun i => AtDepth i = selDepth s) contrib.
Proof.
  intros Hs Hfrom Hfrom1 Hstop Hbase Hwhere Hwhere1 HwhereStop cuts branches inOr
    time_ok measure_ok.
  destruct (validateSelect_with_where toks s fromIdx stopIdx whereIdx whereStop
              Hs Hfrom Hfrom1 Hstop Hbase Hwhere Hwhere1 HwhereStop)
    as (snip & mt & mm & _ & Hcheck & Hbr & Hrun).
  fold cuts in Hcheck, Hrun, Hbr. fold branches in Hcheck, Hbr. fold inOr in Hrun.
  destruct (checkBranches_spec toks branches Hbr false false)
    as (mt' & mm' & Hcheck' & Hmt & Hmm).
  rewrite Hcheck in Hcheck'. injection Hcheck' as <- <-.
  fold time_ok in Hmt. fold measure_ok in Hmm.
  eexists. split; [exact Hrun|].
  assert (Hboth : Forall (fun br => time_ok br /\ measure_ok br) branches
                  <-> Forall time_ok branches /\ Forall measure_ok branches).
  { rewrite !Forall_forall. firstorder. }
  rewrite Hboth.
  assert (Hne : reason_time inOr <> reason_measure inOr)
    by (destruct inOr; discriminate).
  assert (Heq1 : (reason_time inOr =? reason_time inOr)%string = true)
    by apply String.eqb_refl.
  assert (Heq2 : (reason_measure inOr =? reason_measure inOr)%string = true)
    by apply String.eqb_refl.
  assert (Heq3 : (reason_time inOr =? reason_measure inOr)%string = false)
    by (apply String.eqb_neq; assumption).
  assert (Heq4 : (reason_measure inOr =? reason_time inOr)%string = false)
    by (apply String.eqb_neq; congruence).
  destruct mt, mm; cbn [app map Reason List.filter];
    rewrite ?Heq1, ?Heq2, ?Heq3, ?Heq4; cbn [app];
    rewrite ?elem_of_cons, ?elem_of_nil.
  all: repeat match goal with |- _ /\ _ => split end.
  all: try reflexivity.
  all: try (repeat constructor; fail).
  all: intuition (discriminate || congruence).
Qed.

Lemma validateSelect_shape (toks : list token) (s : sel) :
  0 <= selIdx s ->
  exists contrib,
    (forall issues, validateSelect toks s issues = Ok (issues ++ contrib))
    /\ map Reason contrib ∈ site_reasons
    /\ Forall (fun i => AtDepth i = selDepth s) contrib.
Proof.
  intros Hs.
  destruct (findNextKeywordAtDepth_ok toks (selIdx s + 1) (selDepth s) "from")
    as (fromIdx & Hfrom & Hfromb); [lia|].
  destruct (Z.eq_dec fromIdx (-1)) as [->|Hfrom1].
  { exists []. split; [|split; repeat constructor].
    intros issues. unfold validateSelect. rewrite Hfrom. cbn. rewrite app_nil_r. reflexivity. }
  destruct (findNextTerminatorAtDepth_ok toks (fromIdx + 1) (selDepth s))
    as (stopIdx & Hstop & Hstopb); [lia|].
  destruct (fromStartsWithBaseTable_ok toks (fromIdx + 1) stopIdx (selDepth s))
    as (hitsDB & Hbase); [lia|].
  assert (Hf : (fromIdx =? -1) = false) by (apply Z.eqb_neq; assumption).
  destruct hitsDB.
  2:{ exists []. split; [|split; repeat constructor].
      intros issues. unfold validateSelect. rewrite Hfrom. cbn [bind]. rewrite Hf, Hstop.
      cbn [bind]. rewrite Hbase. cbn. rewrite app_nil_r. reflexivity. }
  destruct (findNextKeywordBetweenAtDepth_ok toks (fromIdx + 1) stopIdx (selDepth s) "where")
    as (whereIdx & Hwhere & Hwhereb); [lia|].
  destruct (Z.eq_dec whereIdx (-1)) as [->|Hwhere1].
  { destruct (snippetAroundTokens_ok toks (selIdx s) stopIdx) as [snip Hsnip].
    exists [mkIssue snip "missing WHERE clause" (selDepth s)].
    split; [|split; repeat constructor].
    intros issues. unfold validateSelect. rewrite Hfrom. cbn [bind]. rewrite Hf, Hstop.
    cbn [bind]. rewrite Hbase. cbn [bind negb]. rewrite Hwhere. cbn [bind Z.eqb Pos.eqb].
    rewrite Hsnip. reflexivity. }
  destruct (findNextTerminatorAtDepth_ok toks (whereIdx + 1) (selDepth s))
    as (whereStop & HwhereStop & _); [lia|].
  destruct (validateSelect_with_where toks s fromIdx stopIdx whereIdx whereStop
              Hs Hfrom Hfrom1 Hstop Hbase Hwhere Hwhere1 HwhereStop)
    as (snip & mt & mm & _ & _ & _ & Hrun).
  eexists. split; [exact Hrun|].
  destruct mt, mm, (or_cuts toks (selDepth s) (whereIdx + 1) whereStop);
    cbn [app map Reason]; split; repeat constructor.
Qed.

(** X7.  One select-site appends nothing, or the single issue "missing
    WHERE clause", or the issue about the time predicate, the issue about
    [measure_name], or both in that order; the two wordings (with and
    without "an OR branch") are never mixed within a site, and every issue
    carries the depth of its [select] keyword. *)
Theorem site_contribution_shapes (toks : list token) (s : sel) :
  0 <= selIdx s ->
  exists contrib,
    (forall issues, validateSelect toks s issues = Ok (issues ++ contrib))
    /\ map Reason contrib ∈ site_reasons
    /\ (length contrib <= 2)%nat
    /\ Forall (fun i => AtDepth i = selDepth s) contrib.
Proof.
  intros Hs. destruct (validateSelect_shape toks s Hs) as (contrib & Hrun & Hshape & Hdepth).
  exists contrib. split; [exact Hrun|]. split; [exact Hshape|]. split; [|exact Hdepth].
  rewrite <- (length_map Reason).
  unfold site_reasons in Hshape.
  repeat (apply elem_of_cons in Hshape as [-> | Hshape]; [cbn; lia|]).
  apply elem_of_nil in Hshape. destruct Hshape.
Qed.

Lemma collectSelects_spec (toks : list token) (fuel : nat) (i : Z) (selects : list sel) :
  0 <= i -> ntoks toks - i <= Z.of_nat fuel ->
  collectSelects toks fuel i selects
  = Ok (selects ++ sites_from i (drop (Z.to_nat i) toks)).
Proof.
  revert i selects. induction fuel as [|fuel IH]; intros i selects Hi Hfuel;
    cbn [collectSelects]; destruct (i <? ntoks toks) eqn:Hc; zbool; try lia.
  - rewrite drop_ge by (unfold ntoks in *; lia). cbn. rewrite app_nil_r. reflexivity.
  - read_tok toks i t Ht.
    assert (Hdrop : drop (Z.to_nat i) toks = t :: drop (Z.to_nat (i + 1)) toks).
    { apply tok_at_Ok in Ht as [_ Ht].
      replace (Z.to_nat (i + 1)) with (S (Z.to_nat i)) by lia.
      apply drop_S. exact Ht. }
    rewrite Hdrop. cbn [sites_from].
    destruct (tok_is tkKeyword "select" t); rewrite IH by lia.
    + rewrite <- app_assoc. reflexivity.
    + reflexivity.
  - rewrite drop_ge by (unfold ntoks in *; lia). cbn. rewrite app_nil_r. reflexivity.
Qed.

Lemma elem_of_sites_from (l : list token) (i j d : Z) :
  mkSel j d ∈ sites_from i l
  <-> exists t, i <= j /\ l !! Z.to_nat (j - i) = Some t
                /\ tok_is tkKeyword "select" t = true /\ d = depth t.
Proof.
  revert i. induction l as [|t rest IH]; intros i; cbn [sites_from].
  - split; [intros []%elem_of_nil | intros (t & _ & [=] & _)].
  - rewrite elem_of_app, IH. split.
    + intros [Hhere | (t' & Hle & Hlook & Hsel & Hd)].
      * destruct (tok_is tkKeyword "select" t) eqn:Hsel.
        -- apply list_elem_of_singleton in Hhere. injection Hhere as -> ->.
           exists t. replace (Z.to_nat (i - i)) with 0%nat by lia. auto with zarith.
        -- apply elem_of_nil in Hhere. destruct Hhere.
      * exists t'. split; [lia|]. split; [|auto].
        replace (Z.to_nat (j - i)) with (S (Z.to_nat (j - (i + 1)))) by lia. exact Hlook.
    + intros (t' & Hle & Hlook & Hsel & Hd).
      destruct (Z.eq_dec j i) as [->|Hne].
      * left. replace (Z.to_nat (i - i)) with 0%nat in Hlook by lia.
        injection Hlook as ->. rewrite Hsel, Hd. apply list_elem_of_singleton. reflexivity.
      * right. exists t'. split; [lia|]. split; [|auto].
        replace (Z.to_nat (j - i)) with (S (Z.to_nat (j - (i + 1)))) in Hlook by lia.
        exact Hlook.
Qed.

Lemma sites_from_length (l : list token) (i : Z) :
  length (sites_from i l) = length (List.filter (tok_is tkKeyword "select") l).
Proof.
  revert i. induction l as [|t rest IH]; intros i; cbn [sites_from List.filter];
    [reflexivity|].
  rewrite length_app, IH. destruct (tok_is tkKeyword "select" t); reflexivity.
Qed.

Lemma sites_from_ordered (l : list token) (i : Z) (a b : nat) (sa sb : sel) :
  sites_from i l !! a = Some sa -> sites_from i l !! b = Some sb -> (a < b)%nat ->
  selIdx sa < selIdx sb.
Proof.
  revert i a b. induction l as [|t rest IH]; intros i a b; cbn [sites_from];
    [intros [=]|].
  destruct (tok_is tkKeyword "select" t); cbn [app]; [|apply IH].
  destruct a as [|a], b as [|b]; cbn; try lia.
  - intros [= <-] Hb _. apply list_elem_of_lookup_2 in Hb.
    destruct sb as [j d]. apply elem_of_sites_from in Hb as (_ & Hle & _). cbn. lia.
  - intros Ha Hb Hlt. apply (IH (i + 1) a b); [assumption | assumption | lia].
Qed.

(** X8.  The first loop of [Validate] records one site for every [select]
    keyword of the token slice and for nothing else: a site with index [i]
    and depth [d] is recorded exactly when the token at [i] is a [select]
    keyword of depth [d]; the sites come in the order of the tokens, each
    keyword once. *)
Theorem select_sites_exact (toks : list token) :
  exists selects,
    collectSelects toks (S (length toks)) 0 [] = Ok selects
    /\ (forall i d,
          mkSel i d ∈ selects
          <-> exists t, tok_at toks i = Ok t
                        /\ tok_is tkKeyword "select" t = true /\ d = depth t)
    /\ (forall (a b : nat) (sa sb : sel),
          selects !! a = Some sa -> selects !! b = Some sb -> (a < b)%nat ->
          selIdx sa < selIdx sb)
    /\ length selects = length (List.filter (tok_is tkKeyword "select") toks).
Proof.
  exists (sites_from 0 toks).
  split; [|split; [|split]].
  - rewrite collectSelects_spec by (unfold ntoks; lia). reflexivity.
  - intros i d. rewrite elem_of_sites_from. split.
    + intros (t & Hle & Hlook & Hsel & Hd). exists t. split; [|auto].
      apply tok_at_Ok. split; [lia|]. rewrite Z.sub_0_r in Hlook. exact Hlook.
    + intros (t & [Hle Hlook]%tok_at_Ok & Hsel & Hd). exists t.
      rewrite Z.sub_0_r. auto.
  - apply sites_from_ordered.
  - apply sites_from_length.
Qed.

Lemma site_reasons_known (rs : list string) :
  rs ∈ site_reasons -> Forall (fun r => r ∈ all_reasons) rs /\ (length rs <= 2)%nat.
Proof.
  unfold site_reasons. intros Hrs.
  repeat (apply elem_of_cons in Hrs as [-> | Hrs];
          [split; [repeat constructor | cbn; lia]|]).
  apply elem_of_nil in Hrs. destruct Hrs.
Qed.

Lemma validateSelects_shape (toks : list token) (selects : list sel) :
  Forall (fun s => 0 <= selIdx s) selects ->
  exists issues,
    (forall before, validateSelects toks selects before = Ok (before ++ issues))
    /\ (length issues <= 2 * length selects)%nat
    /\ Forall (fun i => Reason i ∈ all_reasons
                        /\ exists s, s ∈ selects /\ AtDepth i = selDepth s) issues.
Proof.
  induction 1 as [|s selects Hs Hall (rest & Hrun & Hlen & Hrest)].
  - exists []. split; [intros; cbn; rewrite app_nil_r; reflexivity|].
    split; [cbn; lia | constructor].
  - destruct (validateSelect_shape toks s Hs) as (c & Hc & Hshape & Hdepth).
    apply site_reasons_known in Hshape as [Hknown Hc2]. rewrite length_map in Hc2.
    exists (c ++ rest). split; [|split].
    + intros before. cbn [validateSelects]. rewrite Hc. cbn [bind].
      rewrite Hrun, <- app_assoc. reflexivity.
    + rewrite length_app. cbn [length]. lia.
    + apply Forall_app. split.
      * apply Forall_forall. intros i Hi. split.
        -- rewrite Forall_forall in Hknown. apply Hknown.
           apply list_elem_of_In, in_map, list_elem_of_In. exact Hi.
        -- exists s. split; [left|]. rewrite Forall_forall in Hdepth. auto.
      * eapply Forall_impl; [exact Hrest|]. cbn.
        intros i [Hr (s' & Hs' & Hd)]. split; [exact Hr|]. exists s'. split; [right|]; auto.
Qed.

(** X9.  Whatever the input, [Validate] reports at most two issues for
    each [select] keyword of the lexed text; every issue carries one of
    five fixed reasons, and its [AtDepth] is the (non-negative) depth of a
    [select] keyword of that text.  An input without a [select] keyword is
    therefore always accepted. *)
Theorem issues_bounded_by_selects (sql : string) :
  exists (ok : bool) (issues : list Issue) (toks : list token),
    (let* src := stripComments sql in lex src) = Ok toks
    /\ Validate sql = Ok (ok, issues)
    /\ (length issues
        <= 2 * length (List.filter (tok_is tkKeyword "select") toks))%nat
    /\ Forall (fun i =>
                 Reason i ∈ all_reasons
                 /\ 0 <= AtDepth i
                 /\ exists t, t ∈ toks /\ tok_is tkKeyword "select" t = true
                              /\ AtDepth i = depth t) issues
    /\ (List.filter (tok_is tkKeyword "select") toks = [] -> ok = true).
Proof.
  unfold Validate. rewrite stripComments_strip. cbn [bind].
  destruct (lex_depths (strip false false sql)) as (toks & Hlex & Hdepths).
  rewrite Hlex. cbn [bind].
  pose proof (depths_from_nonneg 0 toks ltac:(lia) Hdepths) as Hnonneg.
  rewrite collectSelects_spec by (unfold ntoks; lia).
  change (drop (Z.to_nat 0) toks) with toks. cbn [app bind].
  assert (Hsites : Forall (fun s => 0 <= selIdx s) (sites_from 0 toks)).
  { apply Forall_forall. intros [j d] (t & Hle & _)%elem_of_sites_from. exact Hle. }
  destruct (validateSelects_shape toks (sites_from 0 toks) Hsites)
    as (issues & Hrun & Hlen & Hall).
  rewrite (Hrun []). cbn [bind app].
  eexists _, issues, toks. split; [reflexivity|]. split; [reflexivity|].
  rewrite sites_from_length in Hlen. split; [exact Hlen|]. split.
  - eapply Forall_impl; [exact Hall|]. cbn.
    intros i [Hr ([j d] & Hs & Hd)]. split; [exact Hr|].
    apply elem_of_sites_from in Hs as (t & _ & Hlook & Hsel & ->).
    apply list_elem_of_lookup_2 in Hlook.
    rewrite Forall_forall in Hnonneg. cbn in Hd. rewrite Hd.
    split; [apply Hnonneg; exact Hlook|]. exists t. auto.
  - intros Hnone. rewrite Hnone in Hlen. cbn in Hlen.
    destruct issues; [reflexivity | cbn in Hlen; lia].
Qed.

(** * The first source of a FROM clause *)

Lemma fromFirstMeaningful_to (toks : list token) (stop dep : Z) (fuel : nat)
  (i0 i : Z) (t : token) :
  next_token (from_noise dep) toks stop (i0 - 1) i t ->
  0 <= i0 -> ntoks toks - i0 <= Z.of_nat fuel ->
  fromFirstMeaningful toks stop dep fuel i0
  = Ok (if tokenKind_eqb (kind t) tkSymbol || tokenKind_eqb (kind t) tkKeyword
        then None else Some i).
Proof.
  intros (Hi & Ht & Hstopat & Hskip) Hi0 Hfuel.
  pose proof (tok_at_bounds _ _ _ Ht) as Hb.
  revert i0 Hi Hi0 Hfuel Hskip.
  induction fuel as [|fuel IH]; intros i0 Hi Hi0 Hfuel Hskip; cbn [fromFirstMeaningful];
    replace ((i0 <? stop) && (i0 <? ntoks toks)) with true
      by (symmetry; apply andb_true_iff; split; apply Z.ltb_lt; lia);
    [lia|].
  destruct (Z.eq_dec i0 i) as [->|Hne].
  - rewrite Ht. cbn [bind]. unfold from_noise in Hstopat.
    destruct (depth t =? dep), (kind t), (String.eqb (val t) "("),
      (String.eqb (val t) "select"); cbn in Hstopat |- *; congruence.
  - read_tok toks i0 t0 Ht0.
    specialize (Hskip i0 ltac:(lia)) as Hhere.
    rewrite (tok_has_at _ _ _ _ Ht0) in Hhere. unfold from_noise in Hhere.
    assert (Hnext : fromFirstMeaningful toks stop dep fuel (i0 + 1)
                    = Ok (if tokenKind_eqb (kind t) tkSymbol
                             || tokenKind_eqb (kind t) tkKeyword
                          then None else Some i)).
    { apply IH; try lia. intros k Hk. apply Hskip. lia. }
    destruct (depth t0 =? dep), (kind t0), (String.eqb (val t0) "("),
      (String.eqb (val t0) "select"); cbn in Hhere |- *; try discriminate; exact Hnext.
Qed.

Lemma fromFirstMeaningful_all (toks : list token) (stop dep : Z) (fuel : nat) (i0 : Z) :
  no_next_token (from_noise dep) toks stop (i0 - 1) ->
  0 <= i0 -> ntoks toks - i0 <= Z.of_nat fuel ->
  exists i, fromFirstMeaningful toks stop dep fuel i0 = Ok (Some i)
            /\ (stop <= i \/ ntoks toks <= i).
Proof.
  unfold no_next_token. revert i0.
  induction fuel as [|fuel IH]; intros i0 Hskip Hi0 Hfuel; cbn [fromFirstMeaningful];
    destruct ((i0 <? stop) && (i0 <? ntoks toks)) eqn:Hc; zbool; try lia;
    try (exists i0; split; [reflexivity | lia]).
  read_tok toks i0 t0 Ht0.
  specialize (Hskip i0 ltac:(lia)) as Hhere.
  rewrite (tok_has_at _ _ _ _ Ht0) in Hhere. unfold from_noise in Hhere.
  assert (Hnext : exists i, fromFirstMeaningful toks stop dep fuel (i0 + 1) = Ok (Some i)
                            /\ (stop <= i \/ ntoks toks <= i)).
  { apply IH; try lia. intros k Hk. apply Hskip. lia. }
  destruct (depth t0 =? dep), (kind t0), (String.eqb (val t0) "("),
    (String.eqb (val t0) "select"); cbn in Hhere |- *; try discriminate; exact Hnext.
Qed.




Lemma fromIdentAfterDot_to (toks : list token) (stop dep : Z) (fuel : nat)
  (k0 k : Z) (tk : token) :
  next_token (ident_noise dep) toks stop (k0 - 1) k tk ->
  0 <= k0 -> ntoks toks - k0 <= Z.of_nat fuel ->
  fromIdentAfterDot toks stop dep fuel k0 = Ok (tokenKind_eqb (kind tk) tkIdent).
Proof.
  intros (Hk & Htk & Hstopat & Hskip) Hk0 Hfuel.
  pose proof (tok_at_bounds _ _ _ Htk) as Hb.
  revert k0 Hk Hk0 Hfuel Hskip.
  induction fuel as [|fuel IH]; intros k0 Hk Hk0 Hfuel Hskip; cbn [fromIdentAfterDot];
    replace ((k0 <? stop) && (k0 <? ntoks toks)) with true
      by (symmetry; apply andb_true_iff; split; apply Z.ltb_lt; lia);
    [lia|].
  destruct (Z.eq_dec k0 k) as [->|Hne].
  - rewrite Htk. cbn [bind]. unfold ident_noise in Hstopat.
    apply orb_false_iff in Hstopat as [-> ->]. reflexivity.
  - read_tok toks k0 t0 Ht0.
    specialize (Hskip k0 ltac:(lia)) as Hhere.
    rewrite (tok_has_at _ _ _ _ Ht0) in Hhere. unfold ident_noise in Hhere.
    assert (Hnext : fromIdentAfterDot toks stop dep fuel (k0 + 1)
                    = Ok (tokenKind_eqb (kind tk) tkIdent)).
    { apply IH; try lia. intros m Hm. apply Hskip. lia. }
    destruct (negb (depth t0 =? dep)); [exact Hnext|].
    cbn in Hhere. rewrite Hhere. exact Hnext.
Qed.

Lemma fromIdentAfterDot_all (toks : list token) (stop dep : Z) (fuel : nat) (k0 : Z) :
  no_next_token (ident_noise dep) toks stop (k0 - 1) ->
  0 <= k0 -> ntoks toks - k0 <= Z.of_nat fuel ->
  fromIdentAfterDot toks stop dep fuel k0 = Ok false.
Proof.
  unfold no_next_token. revert k0.
  induction fuel as [|fuel IH]; intros k0 Hskip Hk0 Hfuel; cbn [fromIdentAfterDot];
    destruct ((k0 <? stop) && (k0 <? ntoks toks)) eqn:Hc; zbool; try lia;
    try reflexivity.
  read_tok toks k0 t0 Ht0.
  specialize (Hskip k0 ltac:(lia)) as Hhere.
  rewrite (tok_has_at _ _ _ _ Ht0) in Hhere. unfold ident_noise in Hhere.
  assert (Hnext : fromIdentAfterDot toks stop dep fuel (k0 + 1) = Ok false).
  { apply IH; try lia. intros m Hm. apply Hskip. lia. }
  destruct (negb (depth t0 =? dep)); [exact Hnext|].
  cbn in Hhere. rewrite Hhere. exact Hnext.
Qed.

Lemma fromSeekDot_to (toks : list token) (stop dep : Z) (fuel : nat)
  (j0 j : Z) (tj : token) :
  next_token (dot_noise dep) toks stop (j0 - 1) j tj ->
  0 <= j0 -> ntoks toks - j0 <= Z.of_nat fuel ->
  fromSeekDot toks stop dep fuel j0
  = if tokenKind_eqb (kind tj) tkSymbol
    then fromIdentAfterDot toks stop dep (S (length toks)) (j + 1)
    else Ok false.
Proof.
  intros (Hj & Htj & Hstopat & Hskip) Hj0 Hfuel.
  pose proof (tok_at_bounds _ _ _ Htj) as Hb.
  revert j0 Hj Hj0 Hfuel Hskip.
  induction fuel as [|fuel IH]; intros j0 Hj Hj0 Hfuel Hskip; cbn [fromSeekDot];
    replace ((j0 <? stop) && (j0 <? ntoks toks)) with true
      by (symmetry; apply andb_true_iff; split; apply Z.ltb_lt; lia);
    [lia|].
  destruct (Z.eq_dec j0 j) as [->|Hne].
  - rewrite Htj. cbn [bind]. unfold dot_noise in Hstopat.
    apply orb_false_iff in Hstopat as [-> Hsym].
    destruct (tokenKind_eqb (kind tj) tkSymbol); [|reflexivity].
    cbn in Hsym. rewrite Hsym. reflexivity.
  - read_tok toks j0 t0 Ht0.
    specialize (Hskip j0 ltac:(lia)) as Hhere.
    rewrite (tok_has_at _ _ _ _ Ht0) in Hhere. unfold dot_noise in Hhere.
    assert (Hnext : fromSeekDot toks stop dep fuel (j0 + 1)
                    = if tokenKind_eqb (kind tj) tkSymbol
                      then fromIdentAfterDot toks stop dep (S (length toks)) (j + 1)
                      else Ok false).
    { apply IH; try lia. intros m Hm. apply Hskip. lia. }
    destruct (negb (depth t0 =? dep)); [exact Hnext|].
    cbn in Hhere. apply andb_true_iff in Hhere as [-> ->]. exact Hnext.
Qed.

Lemma fromSeekDot_all (toks : list token) (stop dep : Z) (fuel : nat) (j0 : Z) :
  no_next_token (dot_noise dep) toks stop (j0 - 1) ->
  0 <= j0 -> ntoks toks - j0 <= Z.of_nat fuel ->
  fromSeekDot toks stop dep fuel j0 = Ok false.
Proof.
  unfold no_next_token. revert j0.
  induction fuel as [|fuel IH]; intros j0 Hskip Hj0 Hfuel; cbn [fromSeekDot];
    destruct ((j0 <? stop) && (j0 <? ntoks toks)) eqn:Hc; zbool; try lia;
    try reflexivity.
  read_tok toks j0 t0 Ht0.
  specialize (Hskip j0 ltac:(lia)) as Hhere.
  rewrite (tok_has_at _ _ _ _ Ht0) in Hhere. unfold dot_noise in Hhere.
  assert (Hnext : fromSeekDot toks stop dep fuel (j0 + 1) = Ok false).
  { apply IH; try lia. intros m Hm. apply Hskip. lia. }
  destruct (negb (depth t0 =? dep)); [exact Hnext|].
  cbn in Hhere. apply andb_true_iff in Hhere as [-> ->]. exact Hnext.
Qed.

(** [fromStartsWithBaseTable] once its first loop has stopped at an
    identifier. *)
Lemma fromStartsWithBaseTable_at_ident (toks : list token) (start stop dep i : Z)
  (t : token) (name : string) :
  0 <= start ->
  next_token (from_noise dep) toks stop (start - 1) i t ->
  kind t = tkIdent -> stripQuotes (val t) = Ok name ->
  fromStartsWithBaseTable toks start stop dep
  = if contains_dot name then
      let* j := skipOtherDepth toks stop dep (S (length toks)) (i + 1) in
      let* call := tok_in_range_is toks stop (tok_is tkSymbol "(") j in
      if call then Ok false else Ok true
    else fromSeekDot toks stop dep (S (length toks)) (i + 1).
Proof.
  intros Hs Hnext Hkind Hname. unfold fromStartsWithBaseTable.
  rewrite (fromFirstMeaningful_to toks stop dep _ start i t Hnext)
    by (lia || (unfold ntoks; lia)).
  destruct Hnext as (Hi & Ht & _ & _). pose proof (tok_at_bounds _ _ _ Ht) as Hb.
  rewrite Hkind. cbn [tokenKind_eqb orb bind].
  replace ((stop <=? i) || (ntoks toks <=? i)) with false
    by (symmetry; apply orb_false_iff; split; apply Z.leb_gt; lia).
  rewrite Ht. cbn [bind]. rewrite Hkind. cbn [tokenKind_eqb negb].
  rewrite Hname. reflexivity.
Qed.

(** X10.  [fromStartsWithBaseTable] judges a FROM clause by the first
    token of the clause's depth that is neither a symbol other than [(]
    nor a keyword other than [select].  Without such a token the clause
    is no table read; nor is it when that token is an opening parenthesis
    or [select] (a subquery), a string or a number.  When it is an
    identifier whose unquoted name contains a dot, the clause reads a
    table unless the next token of that depth is an opening parenthesis
    (a function call). *)
Theorem from_first_source_decides :
  (forall (toks : list token) (start stop dep : Z),
      0 <= start ->
      no_next_token (from_noise dep) toks stop (start - 1) ->
      fromStartsWithBaseTable toks start stop dep = Ok false)
  /\ (forall (toks : list token) (start stop dep i : Z) (t : token),
        0 <= start ->
        next_token (from_noise dep) toks stop (start - 1) i t ->
        kind t <> tkIdent ->
        fromStartsWithBaseTable toks start stop dep = Ok false)
  /\ (forall (toks : list token) (start stop dep i j : Z) (t tj : token) (name : string),
        0 <= start ->
        next_token (from_noise dep) toks stop (start - 1) i t ->
        kind t = tkIdent -> stripQuotes (val t) = Ok name -> contains_dot name = true ->
        next_token (other_depth dep) toks stop i j tj ->
        fromStartsWithBaseTable toks start stop dep
        = Ok (negb (tok_is tkSymbol "(" tj)))
  /\ (forall (toks : list token) (start stop dep i : Z) (t : token) (name : string),
        0 <= start ->
        next_token (from_noise dep) toks stop (start - 1) i t ->
        kind t = tkIdent -> stripQuotes (val t) = Ok name -> contains_dot name = true ->
        no_next_token (other_depth dep) toks stop i ->
        fromStartsWithBaseTable toks start stop dep = Ok true).
Proof.
  split; [|split; [|split]].
  - intros toks start stop dep Hs Hall. unfold fromStartsWithBaseTable.
    destruct (fromFirstMeaningful_all toks stop dep (S (length toks)) start Hall)
      as (i & -> & Hout); [lia | unfold ntoks; lia |].
    cbn [bind].
    replace ((stop <=? i) || (ntoks toks <=? i)) with true; [reflexivity|].
    symmetry. apply orb_true_iff. destruct Hout; [left | right]; apply Z.leb_le; lia.
  - intros toks start stop dep i t Hs Hnext Hkind. unfold fromStartsWithBaseTable.
    rewrite (fromFirstMeaningful_to toks stop dep _ start i t Hnext)
      by (lia || (unfold ntoks; lia)).
    destruct Hnext as (Hi & Ht & _ & _). pose proof (tok_at_bounds _ _ _ Ht) as Hb.
    destruct (tokenKind_eqb (kind t) tkSymbol || tokenKind_eqb (kind t) tkKeyword);
      [reflexivity|].
    cbn [bind].
    replace ((stop <=? i) || (ntoks toks <=? i)) with false
      by (symmetry; apply orb_false_iff; split; apply Z.leb_gt; lia).
    rewrite Ht. cbn [bind].
    destruct (tokenKind_eqb (kind t) tkIdent) eqn:E; [|reflexivity].
    apply tokenKind_eqb_eq in E. contradiction.
  - intros toks start stop dep i j t tj name Hs Hnext Hkind Hname Hdot Hj.
    rewrite (fromStartsWithBaseTable_at_ident toks start stop dep i t name)
      by assumption.
    rewrite Hdot.
    assert (0 <= i) by (destruct Hnext as (? & _); lia).
    rewrite (skipOtherDepth_next toks stop dep i j tj) by assumption. cbn [bind].
    destruct Hj as (Hjr & Htj & _ & _).
    rewrite (tok_in_range_is_at toks stop _ j tj) by (lia || assumption). cbn [bind].
    destruct (tok_is tkSymbol "(" tj); reflexivity.
  - intros toks start stop dep i t name Hs Hnext Hkind Hname Hdot Hnone.
    rewrite (fromStartsWithBaseTable_at_ident toks start stop dep i t name)
      by assumption.
    rewrite Hdot.
    assert (0 <= i) by (destruct Hnext as (? & _); lia).
    destruct (skipOtherDepth_all toks stop dep (S (length toks)) (i + 1))
      as (j & -> & Hout); [| lia | unfold ntoks; lia |].
    { intros k Hk. apply Hnone. lia. }
    cbn [bind]. rewrite tok_in_range_is_out by assumption. reflexivity.
Qed.

(** X11.  When the first source of a FROM clause is an identifier without
    a dot in its unquoted name, the clause reads a table only through the
    two-part form: passing over tokens of other depths and symbols, the
    next token must be a dot and the next after the dot an identifier.
    An identifier followed at its depth by anything that is not a symbol
    (an alias or a keyword such as [join]), or by nothing, is no table
    read, as a CTE name or a derived table's alias. *)
Theorem from_two_part_name :
  (forall (toks : list token) (start stop dep i j k : Z) (t tj tk : token) (name : string),
      0 <= start ->
      next_token (from_noise dep) toks stop (start - 1) i t ->
      kind t = tkIdent -> stripQuotes (val t) = Ok name -> contains_dot name = false ->
      next_token (dot_noise dep) toks stop i j tj -> kind tj = tkSymbol ->
      next_token (ident_noise dep) toks stop j k tk ->
      val tj = "." /\
      fromStartsWithBaseTable toks start stop dep = Ok (tokenKind_eqb (kind tk) tkIdent))
  /\ (forall (toks : list token) (start stop dep i j : Z) (t tj : token) (name : string),
        0 <= start ->
        next_token (from_noise dep) toks stop (start - 1) i t ->
        kind t = tkIdent -> stripQuotes (val t) = Ok name -> contains_dot name = false ->
        next_token (dot_noise dep) toks stop i j tj -> kind tj = tkSymbol ->
        no_next_token (ident_noise dep) toks stop j ->
        fromStartsWithBaseTable toks start stop dep = Ok false)
  /\ (forall (toks : list token) (start stop dep i j : Z) (t tj : token) (name : string),
        0 <= start ->
        next_token (from_noise dep) toks stop (start - 1) i t ->
        kind t = tkIdent -> stripQuotes (val t) = Ok name -> contains_dot name = false ->
        next_token (dot_noise dep) toks stop i j tj -> kind tj <> tkSymbol ->
        fromStartsWithBaseTable toks start stop dep = Ok false)
  /\ (forall (toks : list token) (start stop dep i : Z) (t : token) (name : string),
        0 <= start ->
        next_token (from_noise dep) toks stop (start - 1) i t ->
        kind t = tkIdent -> stripQuotes (val t) = Ok name -> contains_dot name = false ->
        no_next_token (dot_noise dep) toks stop i ->
        fromStartsWithBaseTable toks start stop dep = Ok false).
Proof.
  split; [|split; [|split]].
  - intros toks start stop dep i j k t tj tk name Hs Hnext Hkind Hname Hdot Hj Hsym Hk.
    split.
    { destruct Hj as (_ & _ & Hat & _). unfold dot_noise in Hat.
      apply orb_false_iff in Hat as [_ Hat]. rewrite Hsym in Hat. cbn in Hat.
      apply negb_false_iff, String.eqb_eq in Hat. exact Hat. }
    rewrite (fromStartsWithBaseTable_at_ident toks start stop dep i t name)
      by assumption.
    rewrite Hdot.
    assert (0 <= i) by (destruct Hnext as (? & _); lia).
    assert (0 <= j) by (destruct Hj as (? & _); lia).
    rewrite (fromSeekDot_to toks stop dep _ (i + 1) j tj);
      [| replace (i + 1 - 1) with i by lia; assumption | lia | unfold ntoks; lia].
    rewrite Hsym. cbn [tokenKind_eqb].
    apply (fromIdentAfterDot_to toks stop dep _ (j + 1) k tk);
      [replace (j + 1 - 1) with j by lia; assumption | lia | unfold ntoks; lia].
  - intros toks start stop dep i j t tj name Hs Hnext Hkind Hname Hdot Hj Hsym Hnone.
    rewrite (fromStartsWithBaseTable_at_ident toks start stop dep i t name)
      by assumption.
    rewrite Hdot.
    assert (0 <= i) by (destruct Hnext as (? & _); lia).
    assert (0 <= j) by (destruct Hj as (? & _); lia).
    rewrite (fromSeekDot_to toks stop dep _ (i + 1) j tj);
      [| replace (i + 1 - 1) with i by lia; assumption | lia | unfold ntoks; lia].
    rewrite Hsym. cbn [tokenKind_eqb].
    apply fromIdentAfterDot_all;
      [replace (j + 1 - 1) with j by lia; assumption | lia | unfold ntoks; lia].
  - intros toks start stop dep i j t tj name Hs Hnext Hkind Hname Hdot Hj Hsym.
    rewrite (fromStartsWithBaseTable_at_ident toks start stop dep i t name)
      by assumption.
    rewrite Hdot.
    assert (0 <= i) by (destruct Hnext as (? & _); lia).
    rewrite (fromSeekDot_to toks stop dep _ (i + 1) j tj);
      [| replace (i + 1 - 1) with i by lia; assumption | lia | unfold ntoks; lia].
    destruct (tokenKind_eqb (kind tj) tkSymbol) eqn:E; [|reflexivity].
    apply tokenKind_eqb_eq in E. contradiction.
  - intros toks start stop dep i t name Hs Hnext Hkind Hname Hdot Hnone.
    rewrite (fromStartsWithBaseTable_at_ident toks start stop dep i t name)
      by assumption.
    rewrite Hdot.
    assert (0 <= i) by (destruct Hnext as (? & _); lia).
    apply fromSeekDot_all;
      [replace (i + 1 - 1) with i by lia; assumption | lia | unfold ntoks; lia].
Qed.

(** * The snippet of an issue *)

Lemma join_vals_snoc (l : list token) (t : token) :
  join_vals (l ++ [t])
  = match l with [] => val t | _ :: _ => join_vals l +++ " " +++ val t end.
Proof.
  induction l as [|t0 l IH]; [reflexivity|].
  cbn [app join_vals]. rewrite IH.
  destruct l as [|t1 l]; [reflexivity|].
  cbn [app]. rewrite !append_assoc. reflexivity.
Qed.

Lemma span_empty (toks : list token) (start : Z) : span toks start start = [].
Proof. unfold span. rewrite Z.sub_diag. reflexivity. Qed.

Lemma span_snoc (toks : list token) (start i : Z) (t : token) :
  0 <= start <= i -> tok_at toks i = Ok t ->
  span toks start (i + 1) = span toks start i ++ [t].
Proof.
  intros Hi [_ Ht]%tok_at_Ok. unfold span.
  replace (Z.to_nat (i + 1 - start)) with (S (Z.to_nat (i - start))) by lia.
  apply take_S_r. rewrite lookup_drop.
  replace (Z.to_nat start + Z.to_nat (i - start))%nat with (Z.to_nat i) by lia.
  exact Ht.
Qed.

Lemma span_nonempty (toks : list token) (start i : Z) :
  0 <= start < i -> i <= ntoks toks -> span toks start i <> [].
Proof.
  intros Hi Hn Hnil. apply (f_equal length) in Hnil. unfold span, ntoks in *.
  rewrite length_take, length_drop in Hnil. cbn in Hnil. lia.
Qed.

(** Writing the token at [i] after the builder gives the joined values up
    to and including it. *)
Lemma builder_at_write (toks : list token) (start i : Z) (t : token) :
  0 <= start <= i -> tok_at toks i = Ok t ->
  builder_at toks start i +++ val t = join_vals (span toks start (i + 1)).
Proof.
  intros Hi Ht. pose proof (tok_at_bounds _ _ _ Ht) as Hb.
  rewrite (span_snoc toks start i t Hi Ht), join_vals_snoc. unfold builder_at.
  destruct (i =? start) eqn:E; zbool.
  - subst i. rewrite span_empty. reflexivity.
  - pose proof (span_nonempty toks start i ltac:(lia) ltac:(lia)) as Hne.
    destruct (span toks start i); [contradiction|].
    rewrite append_assoc. reflexivity.
Qed.

Lemma builder_at_next (toks : list token) (start i : Z) :
  0 <= start <= i ->
  builder_at toks start (i + 1) = join_vals (span toks start (i + 1)) +++ " ".
Proof.
  intros Hi. unfold builder_at.
  replace (i + 1 =? start) with false by (symmetry; apply Z.eqb_neq; lia).
  reflexivity.
Qed.

Lemma snippetAroundTokens_loop_full (toks : list token) (start stop : Z)
  (fuel : nat) (i : Z) :
  0 <= start <= i -> i < stop -> stop <= ntoks toks -> stop - i <= Z.of_nat fuel ->
  (forall i', i <= i' < stop -> len (builder_at toks start i') <= 220) ->
  snippetAroundTokens_loop toks stop fuel i (builder_at toks start i)
  = Ok (join_vals (span toks start stop)).
Proof.
  revert i. induction fuel as [|fuel IH]; intros i Hi Hlt Hstop Hfuel Hshort;
    cbn [snippetAroundTokens_loop];
    replace (i <? stop) with true by (symmetry; apply Z.ltb_lt; lia); [lia|].
  replace (220 <? len (builder_at toks start i)) with false
    by (symmetry; apply Z.ltb_ge; apply Hshort; lia).
  read_tok toks i t Ht.
  rewrite (builder_at_write toks start i t Hi Ht).
  destruct (i + 1 <? stop) eqn:Hmore; zbool.
  - unfold WriteByte. rewrite <- builder_at_next by lia.
    apply IH; try lia. intros i' Hi'. apply Hshort. lia.
  - replace stop with (i + 1) by lia.
    destruct fuel; cbn [snippetAroundTokens_loop];
      replace (i + 1 <? i + 1) with false by (symmetry; apply Z.ltb_ge; lia);
      reflexivity.
Qed.

Lemma snippetAroundTokens_loop_cut (toks : list token) (start stop m : Z)
  (fuel : nat) (i : Z) :
  0 <= start <= i -> i <= m < stop -> stop <= ntoks toks -> stop - i <= Z.of_nat fuel ->
  220 < len (builder_at toks start m) ->
  (forall i', i <= i' < m -> len (builder_at toks start i') <= 220) ->
  snippetAroundTokens_loop toks stop fuel i (builder_at toks start i)
  = Ok (builder_at toks start m +++ " ...").
Proof.
  revert i. induction fuel as [|fuel IH]; intros i Hi Hm Hstop Hfuel Hlong Hshort;
    cbn [snippetAroundTokens_loop];
    replace (i <? stop) with true by (symmetry; apply Z.ltb_lt; lia); [lia|].
  destruct (Z.eq_dec i m) as [->|Hne].
  - replace (220 <? len (builder_at toks start m)) with true
      by (symmetry; apply Z.ltb_lt; assumption).
    reflexivity.
  - replace (220 <? len (builder_at toks start i)) with false
      by (symmetry; apply Z.ltb_ge; apply Hshort; lia).
    read_tok toks i t Ht.
    rewrite (builder_at_write toks start i t Hi Ht).
    replace (i + 1 <? stop) with true by (symmetry; apply Z.ltb_lt; lia).
    unfold WriteByte. rewrite <- builder_at_next by lia.
    apply IH; try lia. intros i' Hi'. apply Hshort. lia.
Qed.

(** X12.  The snippet of an issue is the values of the tokens from the
    [select] keyword to the end of the clause joined by single spaces and
    trimmed, as long as the text written before each token stays within
    220 bytes.  Otherwise the snippet ends at the first token before which
    more than 220 bytes have been written: it is that text, which ends in
    a space, followed by [ ...] (so two spaces stand before the dots). *)
Theorem snippet_joins_token_values (toks : list token) (start stop : Z) :
  0 <= start <= stop -> stop <= ntoks toks ->
  ((forall i, start <= i < stop -> len (builder_at toks start i) <= 220) ->
   snippetAroundTokens toks start stop
   = Ok (TrimSpace (join_vals (span toks start stop))))
  /\ (forall m,
        start <= m < stop -> 220 < len (builder_at toks start m) ->
        (forall i, start <= i < m -> len (builder_at toks start i) <= 220) ->
        snippetAroundTokens toks start stop
        = Ok (TrimSpace (builder_at toks start m +++ " ..."))).
Proof.
  intros Hs Hstop.
  assert (Hentry : snippetAroundTokens toks start stop
                   = let* b := snippetAroundTokens_loop toks stop (S (length toks)) start
                                 (builder_at toks start start) in
                     Ok (TrimSpace b)).
  { unfold snippetAroundTokens, builder_at. rewrite Z.eqb_refl.
    replace (start <? 0) with false by (symmetry; apply Z.ltb_ge; lia).
    replace ((stop <? 0) || (ntoks toks <? stop)) with false
      by (symmetry; apply orb_false_iff; split; apply Z.ltb_ge; lia).
    reflexivity. }
  rewrite Hentry. split.
  - intros Hshort. destruct (Z.eq_dec start stop) as [<-|Hne].
    + rewrite span_empty. cbn [snippetAroundTokens_loop].
      rewrite Z.ltb_irrefl. unfold builder_at. rewrite Z.eqb_refl. reflexivity.
    + rewrite snippetAroundTokens_loop_full; try assumption; try lia;
        [reflexivity | unfold ntoks in *; lia].
  - intros m Hm Hlong Hshort.
    rewrite (snippetAroundTokens_loop_cut toks start stop m); try assumption; try lia;
      [reflexivity | unfold ntoks in *; lia].
Qed.

(** * What comment stripping keeps *)

Lemma strip_sublist (inLine inBlock : bool) (s : string) :
  sublist (list_ascii_of_string (strip inLine inBlock s)) (list_ascii_of_string s).
Proof.
  remember (String.length s) as n eqn:Hn.
  assert (String.length s <= n)%nat as Hle by lia. clear Hn.
  revert inLine inBlock s Hle.
  induction n as [|n IH]; intros inLine inBlock s Hle.
  { destruct s; cbn in *; [constructor | lia]. }
  destruct s as [|c rest]; cbn [strip String.length list_ascii_of_string] in *;
    [constructor|].
  assert (forall a b, sublist (list_ascii_of_string (strip a b rest))
                        (list_ascii_of_string rest)) as Hrest
    by (intros; apply IH; lia).
  destruct inLine.
  { destruct (Ascii.eqb c newline); cbn [list_ascii_of_string].
    - apply sublist_skip, Hrest.
    - apply sublist_cons, Hrest. }
  destruct rest as [|c1 rest'].
  { destruct inBlock; cbn; [apply sublist_cons | apply sublist_skip]; constructor. }
  assert (forall a b, sublist (list_ascii_of_string (strip a b rest'))
                        (list_ascii_of_string rest')) as Hrest'
    by (intros; apply IH; cbn [String.length] in *; lia).
  destruct inBlock.
  { destruct (_ && _).
    - cbn [list_ascii_of_string]. apply sublist_cons, sublist_cons, Hrest'.
    - apply sublist_cons, Hrest. }
  destruct (_ && _).
  { cbn [list_ascii_of_string]. apply sublist_cons, sublist_cons, Hrest'. }
  destruct (_ && _).
  { cbn [list_ascii_of_string]. apply sublist_cons, sublist_cons, Hrest'. }
  cbn [list_ascii_of_string]. apply sublist_skip, Hrest.
Qed.

Lemma strip_no_marker (s : string) :
  contains_pair "-" "-" s = false -> contains_pair "/" "*" s = false ->
  strip false false s = s.
Proof.
  induction s as [|x s IH]; intros Hdash Hslash; [reflexivity|].
  destruct s as [|y s]; [reflexivity|].
  cbn [contains_pair] in Hdash, Hslash.
  apply orb_false_iff in Hdash as [Hd Hdash]. apply orb_false_iff in Hslash as [Hs Hslash].
  specialize (IH Hdash Hslash).
  change (strip false false (String x (String y s)))
    with (if Ascii.eqb x "-"%char && Ascii.eqb y "-"%char
          then strip true false s
          else if Ascii.eqb x "/"%char && Ascii.eqb y "*"%char
               then strip false true s
               else String x (strip false false (String y s))).
  rewrite Hd, Hs, IH. reflexivity.
Qed.

Lemma strip_marker_shortens (s : string) :
  contains_pair "-" "-" s = true \/ contains_pair "/" "*" s = true ->
  (String.length (strip false false s) < String.length s)%nat.
Proof.
  induction s as [|x s IH]; intros Hpair.
  { destruct Hpair; discriminate. }
  destruct s as [|y s].
  { destruct Hpair; discriminate. }
  change (strip false false (String x (String y s)))
    with (if Ascii.eqb x "-"%char && Ascii.eqb y "-"%char
          then strip true false s
          else if Ascii.eqb x "/"%char && Ascii.eqb y "*"%char
               then strip false true s
               else String x (strip false false (String y s))).
  pose proof (strip_length true false s). pose proof (strip_length false true s).
  cbn [contains_pair] in Hpair.
  destruct (Ascii.eqb x "-"%char && Ascii.eqb y "-"%char) eqn:Hd;
    [cbn [String.length]; lia|].
  destruct (Ascii.eqb x "/"%char && Ascii.eqb y "*"%char) eqn:Hs;
    [cbn [String.length]; lia|].
  cbn [orb] in Hpair. specialize (IH Hpair).
  cbn [String.length] in *. lia.
Qed.

(** X13.  [stripComments] only deletes: its result is the input with some
    bytes left out, the others in their order, so it is never longer than
    the input.  It returns the input unchanged exactly when the input
    holds neither two dashes in a row nor a slash followed by a star;
    any such pair, wherever it stands, makes the result shorter. *)
Theorem stripComments_only_deletes (s : string) :
  exists out,
    stripComments s = Ok out
    /\ sublist (list_ascii_of_string out) (list_ascii_of_string s)
    /\ len out <= len s
    /\ (out = s <-> contains_pair "-" "-" s = false /\ contains_pair "/" "*" s = false).
Proof.
  exists (strip false false s). split; [apply stripComments_strip|].
  split; [apply strip_sublist|].
  split; [pose proof (strip_length false false s); unfold len; lia|].
  split.
  - intros Hfix.
    destruct (contains_pair "-" "-" s) eqn:Hd.
    { pose proof (strip_marker_shortens s (or_introl Hd)) as Hlt.
      rewrite Hfix in Hlt. lia. }
    destruct (contains_pair "/" "*" s) eqn:Hs.
    { pose proof (strip_marker_shortens s (or_intror Hs)) as Hlt.
      rewrite Hfix in Hlt. lia. }
    auto.
  - intros [Hd Hs]. apply strip_no_marker; assumption.
Qed.

(** * The lexemes of the input *)

Lemma slice_one (s : string) (i : Z) (r : ascii) :
  byte_at s i = Ok r -> slice s i (i + 1) = Ok (String r EmptyString).
Proof.
  intros Hr. pose proof (byte_at_bounds _ _ _ Hr) as Hb.
  apply byte_at_Ok in Hr as [_ Hr].
  rewrite slice_in_range by lia. f_equal.
  replace (Z.to_nat (i + 1 - i)) with 1%nat by lia.
  generalize dependent (Z.to_nat i). clear Hb.
  induction s as [|c s IH]; intros n Hn; [discriminate|].
  destruct n as [|n]; cbn in *.
  - injection Hn as ->. destruct s; reflexivity.
  - apply IH. exact Hn.
Qed.

Lemma readString_loop_slice (fuel : nat) (s : string) (i : Z) (quote : ascii) (j : Z)
  (str : string) (nx : Z) :
  readString_loop fuel s i quote j = Ok (str, nx) -> slice s i nx = Ok str.
Proof.
  revert j. induction fuel as [|fuel IH]; intros j; cbn [readString_loop];
    destruct (j <? len s); try discriminate.
  - destruct (slice s i (len s)) eqn:E; cbn [bind]; try discriminate.
    intros [= <- <-]. exact E.
  - destruct (byte_at s j) as [c| |]; cbn [bind]; try discriminate.
    destruct (Ascii.eqb c quote); [|apply IH].
    destruct (guarded _ _) as [[|]| |]; cbn [bind]; try discriminate; [apply IH|].
    destruct (slice s i (j + 1)) eqn:E; cbn [bind]; try discriminate.
    intros [= <- <-]. exact E.
  - destruct (slice s i (len s)) eqn:E; cbn [bind]; try discriminate.
    intros [= <- <-]. exact E.
Qed.

Lemma scan_while_run (p : ascii -> bool) (fuel : nat) (s : string) (j : Z) :
  0 <= j <= len s -> len s - j <= Z.of_nat fuel ->
  exists j', scan_while p fuel s j = Ok j' /\ j <= j' <= len s /\ run p s j j'.
Proof.
  revert j. induction fuel as [|fuel IH]; intros j Hj Hfuel; cbn [scan_while];
    destruct (j <? len s) eqn:Hc; zbool; try lia.
  - exists j. split; [reflexivity|]. split; [lia|]. split; [intros; lia | left; lia].
  - read_byte s j c Hbyte. destruct (p c) eqn:Hp.
    + destruct (IH (j + 1)) as (j' & -> & Hj' & Hall & Hend); [lia | lia |].
      exists j'. split; [reflexivity|]. split; [lia|]. split; [|exact Hend].
      intros k c' Hk Hc'. destruct (Z.eq_dec k j) as [->|Hne].
      * congruence.
      * apply (Hall k); [lia | assumption].
    + exists j. split; [reflexivity|]. split; [lia|]. split; [intros; lia|].
      right. eauto.
  - exists j. split; [reflexivity|]. split; [lia|]. split; [intros; lia | left; lia].
Qed.

Lemma tokens_from_space (s : string) (i : Z) (r : ascii) (toks : list token) :
  byte_at s i = Ok r -> IsSpace r = true ->
  tokens_from s (i + 1) toks -> tokens_from s i toks.
Proof.
  intros Hr Hsp. destruct toks as [|t rest]; cbn [tokens_from].
  - intros Hall k c Hk Hc. destruct (Z.eq_dec k i) as [->|Hne]; [congruence|].
    apply (Hall k); [lia | assumption].
  - intros (i0 & j0 & Hi0 & Hj0 & Hall & Hlex & Hrest).
    exists i0, j0. split; [lia|]. split; [assumption|]. split; [|auto].
    intros k c Hk Hc. destruct (Z.eq_dec k i) as [->|Hne]; [congruence|].
    apply (Hall k); [lia | assumption].
Qed.

Lemma operator_pair_lower (r n : ascii) :
  operator_pair r n = true ->
  ToLower (String r (String n EmptyString)) = String r (String n EmptyString).
Proof.
  unfold operator_pair. intros Hop.
  repeat match goal with
  | Hx : (_ || _) = true |- _ => apply orb_true_iff in Hx as [Hx|Hx]
  | Hx : (_ && _) = true |- _ => apply andb_true_iff in Hx as [? ?]
  | Hx : Ascii.eqb _ _ = true |- _ => apply Ascii.eqb_eq in Hx; subst
  end; reflexivity.
Qed.

Lemma lex_loop_tiles (fuel : nat) (s : string) (out : list token) (dep i : Z) :
  0 <= i <= len s -> len s - i <= Z.of_nat fuel ->
  exists more,
    lex_loop fuel s out dep i = Ok (out ++ more)
    /\ tokens_from s i more
    /\ Z.of_nat (length more) <= len s - i.
Proof.
  revert out dep i. induction fuel as [|fuel IH]; intros out dep i Hi Hfuel;
    cbn [lex_loop]; destruct (i <? len s) eqn:Hc; zbool; try lia;
    try (exists []; rewrite app_nil_r; split; [reflexivity|];
         split; [intros k c Hk; lia | cbn; lia]).
  assert (Hemit : forall t dep' i',
    i < i' <= len s -> lexeme s i i' t ->
    exists more, lex_loop fuel s (out ++ [t]) dep' i' = Ok (out ++ more)
                 /\ tokens_from s i more
                 /\ Z.of_nat (length more) <= len s - i).
  { intros t dep' i' Hi' Hlex.
    destruct (IH (out ++ [t]) dep' i') as (more & -> & Hmore & Hlen); [lia | lia |].
    exists (t :: more). rewrite <- app_assoc. split; [reflexivity|]. split.
    - cbn [tokens_from]. exists i, i'. split; [lia|]. split; [lia|].
      split; [intros k c Hk; lia | auto].
    - cbn [length]. lia. }
  read_byte s i r Hr.
  destruct (IsSpace r) eqn:Hspace.
  { destruct (IH out dep (i + 1)) as (more & -> & Hmore & Hlen); [lia | lia |].
    exists more. split; [reflexivity|]. split; [|lia].
    apply (tokens_from_space s i r); assumption. }
  pose proof (slice_one s i r Hr) as Hone.
  destruct (Ascii.eqb r "(") eqn:Hopen.
  { apply Hemit; [lia|]. exists r, (String r EmptyString).
    rewrite Hopen. cbn [orb]. apply Ascii.eqb_eq in Hopen. subst r. auto 10. }
  destruct (Ascii.eqb r ")") eqn:Hclose.
  { apply Hemit; [lia|]. exists r, (String r EmptyString).
    rewrite Hopen, Hclose. cbn [orb]. apply Ascii.eqb_eq in Hclose. subst r. auto 10. }
  destruct (Ascii.eqb r squote || Ascii.eqb r dquote) eqn:Hquote.
  { destruct (readString_loop_ok (S (String.length s)) s i r (i + 1))
      as (str & nx & Hread & Hnx); [lia | lia | unfold len; lia |].
    pose proof (readString_loop_slice _ _ _ _ _ _ _ Hread) as Hslice.
    fold (readString s i r) in Hread. rewrite Hread. cbn [bind].
    destruct (Ascii.eqb r squote) eqn:Hsq.
    - assert (Ascii.eqb r dquote = false) as ->
        by (apply Ascii.eqb_eq in Hsq; subst r; reflexivity).
      apply Hemit; [lia|]. exists r, str.
      rewrite Hopen, Hclose, Hsq. cbn [orb]. auto 10.
    - cbn [orb] in Hquote. rewrite Hquote.
      apply Hemit; [lia|]. exists r, str.
      rewrite Hopen, Hclose, Hsq, Hquote. cbn [orb]. auto 10. }
  apply orb_false_iff in Hquote as [Hsq Hdq].
  destruct (isNumStart r) eqn:Hnum.
  { destruct (scan_while_run (fun c => isNum c || Ascii.eqb c ".") (S (String.length s)) s (i + 1))
      as (j & -> & Hj & Hrun); [lia | unfold len; lia |]. cbn [bind].
    pose proof (slice_in_range s i j ltac:(lia) ltac:(lia)) as Hslice.
    rewrite Hslice. cbn [bind].
    apply Hemit; [lia|]. eexists r, _.
    split; [exact Hr|]. split; [exact Hslice|]. split; [exact Hspace|].
    rewrite Hopen, Hclose, Hsq, Hdq, Hnum. cbn [orb]. auto. }
  destruct (isIdentStart r) eqn:Hident.
  { destruct (scan_while_run isIdentPart (S (String.length s)) s (i + 1))
      as (j & -> & Hj & Hrun); [lia | unfold len; lia |]. cbn [bind].
    pose proof (slice_in_range s i j ltac:(lia) ltac:(lia)) as Hslice.
    rewrite Hslice. cbn [bind].
    destruct (is_keyword _) eqn:Hkw; apply Hemit; try lia; eexists r, _;
      (split; [exact Hr|]; split; [exact Hslice|]; split; [exact Hspace|]);
      rewrite Hopen, Hclose, Hsq, Hdq, Hnum, Hident; cbn [orb val kind];
      rewrite Hkw; auto. }
  unfold guarded.
  destruct ((Ascii.eqb r ">" || Ascii.eqb r "<" || Ascii.eqb r "!") && (i + 1 <? len s))
    eqn:Hop; cbn [bind].
  - zbool. read_byte s (i + 1) n Hn.
    fold (operator_pair r n).
    destruct (operator_pair r n) eqn:Htwo.
    + rewrite (slice_two s i r n Hr Hn). cbn [bind].
      rewrite (operator_pair_lower r n Htwo).
      apply Hemit; [lia|]. exists r, (String r (String n EmptyString)).
      rewrite Hopen, Hclose, Hsq, Hdq, Hnum, Hident. cbn [orb].
      split; [assumption|]. split; [apply slice_two; assumption|].
      split; [assumption|]. split; [reflexivity|]. left. exists n. auto.
    + apply Hemit; [lia|]. exists r, (String r EmptyString).
      rewrite Hopen, Hclose, Hsq, Hdq, Hnum, Hident. cbn [orb].
      split; [assumption|]. split; [assumption|].
      split; [assumption|]. split; [reflexivity|]. right.
      split; [|auto]. intros n' Hn'. congruence.
  - apply Hemit; [lia|]. exists r, (String r EmptyString).
    rewrite Hopen, Hclose, Hsq, Hdq, Hnum, Hident. cbn [orb].
    split; [assumption|]. split; [assumption|].
    split; [assumption|]. split; [reflexivity|]. right.
    split; [|auto]. intros n' Hn'.
    apply andb_false_iff in Hop as [Hop | Hop].
    + apply orb_false_iff in Hop as [Hop Hbang]. apply orb_false_iff in Hop as [Hgt Hlt].
      unfold operator_pair. rewrite Hgt, Hlt, Hbang. reflexivity.
    + apply byte_at_bounds in Hn'. zbool. lia.
Qed.

Lemma tokens_from_lexemes (s : string) (lo : Z) (toks : list token) :
  tokens_from s lo toks -> Forall (fun t => exists i j, lexeme s i j t) toks.
Proof.
  revert lo. induction toks as [|t rest IH]; intros lo; cbn [tokens_from];
    [constructor|].
  intros (i & j & _ & _ & _ & Hlex & Hrest). constructor; eauto.
Qed.

Lemma lexeme_keyword (s : string) (i j : Z) (t : token) :
  lexeme s i j t -> kind t = tkKeyword ->
  is_keyword (val t) = true
  /\ exists r, byte_at s i = Ok r /\ isIdentStart r = true.
Proof.
  intros (r & w & Hr & _ & _ & Hcase) Hkind.
  destruct (Ascii.eqb r "(" || Ascii.eqb r ")"); [destruct Hcase as (_ & _ & ?); congruence|].
  destruct (Ascii.eqb r squote); [destruct Hcase as (_ & _ & ?); congruence|].
  destruct (Ascii.eqb r dquote); [destruct Hcase as (_ & _ & ?); congruence|].
  destruct (isNumStart r); [destruct Hcase as (_ & _ & ?); congruence|].
  destruct (isIdentStart r) eqn:Hstart; [|destruct Hcase as (? & _); congruence].
  destruct Hcase as (_ & Hval & Hk). rewrite Hval.
  destruct (is_keyword (ToLower w)); [eauto | congruence].
Qed.

(** X14.  [lex] reads the input from left to right, leaving out nothing
    but white space: its tokens are lexemes of the input in the order of
    the text, each starting at a byte that is no white space and that
    decides its kind, with only white space before, between and after
    them.  A parenthesis is a token of its own, a quote starts a literal
    or a quoted identifier that ends where [readString] says, a digit
    starts the longest run of digits and dots, a letter, underscore or
    dollar the longest run of identifier bytes (lower-cased, a keyword
    exactly when the lower-cased word is in the table), and any other byte
    is a symbol, two bytes long for the four two-byte operators.  So there
    are no more tokens than bytes, none exactly when the input is white
    space, and a keyword token always starts at a bare word. *)
Theorem lex_tiles_the_input (s : string) :
  exists toks,
    lex s = Ok toks
    /\ tokens_from s 0 toks
    /\ (length toks <= String.length s)%nat
    /\ (toks = [] <-> all_space s 0 (len s))
    /\ Forall (fun t => kind t = tkKeyword -> is_keyword (val t) = true) toks.
Proof.
  unfold lex.
  destruct (lex_loop_tiles (S (String.length s)) s [] 0 0) as (toks & Hrun & Htiles & Hlen);
    [unfold len; lia | unfold len; lia |].
  exists toks. split; [exact Hrun|]. split; [exact Htiles|].
  split; [unfold len in Hlen; lia|]. split.
  - split.
    + intros ->. exact Htiles.
    + intros Hall. destruct toks as [|t rest]; [reflexivity|]. exfalso.
      destruct Htiles as (i & j & Hi & Hj & _ & (r & w & Hr & _ & Hns & _) & _).
      rewrite (Hall i r) in Hns; [discriminate | lia | exact Hr].
  - eapply Forall_impl; [exact (tokens_from_lexemes s 0 toks Htiles)|]. cbn.
    intros t (i & j & Hlex) Hkind. apply (lexeme_keyword s i j t Hlex Hkind).
Qed.

(** ** Doubled quotes *)

Lemma len_append (a b : string) : len (a +++ b) = len a + len b.
Proof.
  unfold len. induction a as [|c a IH]; cbn [String.append String.length]; lia.
Qed.

Lemma len_cons (c : ascii) (s : string) : len (String c s) = len s + 1.
Proof. unfold len. cbn [String.length]. lia. Qed.

Lemma byte_at_append (a b : string) (c : ascii) :
  byte_at (a +++ String c b) (len a) = Ok c.
Proof.
  apply byte_at_Ok. split; [unfold len; lia|]. unfold len. rewrite Nat2Z.id.
  induction a as [|x a IH]; [reflexivity | exact IH].
Qed.

Lemma substring_prefix (b c : string) :
  String.substring 0 (String.length b) (b +++ c) = b.
Proof.
  induction b as [|x b IH]; cbn.
  - destruct c; reflexivity.
  - rewrite IH. reflexivity.
Qed.

Lemma slice_middle (a b c : string) :
  slice (a +++ (b +++ c)) (len a) (len a + len b) = Ok b.
Proof.
  rewrite slice_in_range by (rewrite ?len_append; unfold len; lia). f_equal.
  unfold len. replace (Z.to_nat (_ + _ - _)) with (String.length b) by lia.
  rewrite Nat2Z.id.
  induction a as [|x a IH]; cbn [String.length String.append String.substring];
    [apply substring_prefix | exact IH].
Qed.

Lemma readString_loop_escaped (fuel : nat) (s pre rem rest : string) (q : ascii) (i : Z) :
  s = pre +++ (rem +++ String q rest) ->
  escaped q rem = true ->
  (forall c rest', rest = String c rest' -> Ascii.eqb c q = false) ->
  len s - len pre <= Z.of_nat fuel ->
  readString_loop fuel s i q (len pre)
  = let* str := slice s i (len pre + len rem + 1) in
    Ok (str, len pre + len rem + 1).
Proof.
  revert pre rem. induction fuel as [|fuel IH]; intros pre rem Hs Hesc Hrest Hfuel;
    assert (Hlen : len s = len pre + len rem + 1 + len rest)
      by (rewrite Hs, !len_append; unfold len; cbn [String.length]; lia);
    assert (0 <= len rem /\ 0 <= len rest /\ 0 <= len pre) by (unfold len; lia);
    cbn [readString_loop];
    replace (len pre <? len s) with true by (symmetry; apply Z.ltb_lt; lia);
    [lia|].
  destruct rem as [|c rem].
  - cbn [String.append] in Hs.
    assert (byte_at s (len pre) = Ok q) as -> by (rewrite Hs; apply byte_at_append).
    cbn [bind]. rewrite Ascii.eqb_refl. unfold guarded.
    change (len "") with 0 in *. rewrite Z.add_0_r.
    destruct rest as [|c rest'].
    + replace (len pre + 1 <? len s) with false
        by (symmetry; apply Z.ltb_ge; change (len "") with 0 in Hlen; lia).
      reflexivity.
    + assert (0 < len (String c rest')) by (unfold len; cbn [String.length]; lia).
      replace (len pre + 1 <? len s) with true by (symmetry; apply Z.ltb_lt; lia).
      assert (byte_at s (len pre + 1) = Ok c) as ->.
      { replace (len pre + 1) with (len (pre +++ String q EmptyString))
          by (rewrite len_append; reflexivity).
        rewrite Hs.
        replace (pre +++ String q (String c rest'))
          with ((pre +++ String q EmptyString) +++ String c rest')
          by (rewrite append_assoc; reflexivity).
        apply byte_at_append. }
      cbn [bind]. rewrite (Hrest c rest' eq_refl). reflexivity.
  - cbn [String.append] in Hs.
    assert (byte_at s (len pre) = Ok c) as -> by (rewrite Hs; apply byte_at_append).
    cbn [bind]. cbn [escaped] in Hesc.
    assert (Hlenc : len (String c rem) = len rem + 1)
      by (unfold len; cbn [String.length]; lia).
    destruct (Ascii.eqb c q) eqn:Hcq.
    + destruct rem as [|c1 rem]; [discriminate|].
      apply andb_true_iff in Hesc as [Hc1 Hesc].
      assert (Hlenc1 : len (String c1 rem) = len rem + 1)
        by (unfold len; cbn [String.length]; lia).
      assert (0 <= len rem) by (unfold len; lia).
      unfold guarded.
      replace (len pre + 1 <? len s) with true by (symmetry; apply Z.ltb_lt; lia).
      assert (byte_at s (len pre + 1) = Ok c1) as ->.
      { replace (len pre + 1) with (len (pre +++ String c EmptyString))
          by (rewrite len_append; reflexivity).
        rewrite Hs.
        replace (pre +++ String c (String c1 rem +++ String q rest))
          with ((pre +++ String c EmptyString) +++ String c1 (rem +++ String q rest))
          by (rewrite append_assoc; reflexivity).
        apply byte_at_append. }
      cbn [bind]. rewrite Hc1.
      assert (Hpre : len (pre +++ String c (String c1 EmptyString)) = len pre + 2)
        by (rewrite len_append; reflexivity).
      rewrite <- Hpre.
      rewrite (IH (pre +++ String c (String c1 EmptyString)) rem).
      * rewrite Hpre. replace (len pre + 2 + len rem + 1)
          with (len pre + len (String c (String c1 rem)) + 1) by lia.
        reflexivity.
      * rewrite Hs, append_assoc. reflexivity.
      * exact Hesc.
      * exact Hrest.
      * lia.
    + assert (Hpre : len (pre +++ String c EmptyString) = len pre + 1)
        by (rewrite len_append; reflexivity).
      assert (0 <= len rem) by (unfold len; lia).
      rewrite <- Hpre.
      rewrite (IH (pre +++ String c EmptyString) rem).
      * rewrite Hpre. replace (len pre + 1 + len rem + 1)
          with (len pre + len (String c rem) + 1) by lia.
        reflexivity.
      * rewrite Hs, append_assoc. reflexivity.
      * exact Hesc.
      * exact Hrest.
      * lia.
Qed.

(** X15.  A literal or quoted identifier ends at the first quote that is
    not one of a doubled pair: when every quote inside the body is doubled
    and the closing quote is not followed by another one, [readString]
    returns the opening quote, the body and the closing quote, and the
    position after it, whatever stands before and after.  Such a literal
    alone is lexed as one string token with its bytes unchanged. *)
Theorem readString_ends_at_single_quote :
  (forall (pre body rest : string) (q : ascii),
      escaped q body = true ->
      (forall c rest', rest = String c rest' -> c <> q) ->
      readString (pre +++ String q (body +++ String q rest)) (len pre) q
      = Ok (String q (body +++ String q EmptyString), len pre + len body + 2))
  /\ (forall body : string,
        escaped squote body = true ->
        lex (String squote (body +++ String squote EmptyString))
        = Ok [ mkToken (String squote (body +++ String squote EmptyString)) tkString 0 ]).
Proof.
  assert (Hread : forall (pre body rest : string) (q : ascii),
      escaped q body = true ->
      (forall c rest', rest = String c rest' -> c <> q) ->
      readString (pre +++ String q (body +++ String q rest)) (len pre) q
      = Ok (String q (body +++ String q EmptyString), len pre + len body + 2)).
  { intros pre body rest q Hesc Hrest. unfold readString.
    set (s := pre +++ String q (body +++ String q rest)).
    assert (Hpre : len (pre +++ String q EmptyString) = len pre + 1)
      by (rewrite len_append; reflexivity).
    assert (Hlit : len (String q (body +++ String q EmptyString)) = len body + 2)
      by (rewrite len_cons, len_append, len_cons; change (len "") with 0; lia).
    rewrite <- Hpre.
    rewrite (readString_loop_escaped _ s (pre +++ String q EmptyString) body rest q).
    - rewrite Hpre.
      replace (len pre + 1 + len body + 1)
        with (len pre + len (String q (body +++ String q EmptyString))) by lia.
      assert (s = pre +++ (String q (body +++ String q EmptyString) +++ rest)) as ->.
      { subst s. cbn [String.append]. rewrite append_assoc. reflexivity. }
      rewrite slice_middle. cbn [bind]. f_equal. f_equal. lia.
    - subst s. rewrite append_assoc. reflexivity.
    - exact Hesc.
    - intros c rest' Hc. apply Ascii.eqb_neq. exact (Hrest c rest' Hc).
    - subst s. unfold len. lia. }
  split; [exact Hread|].
  intros body Hesc.
  set (s := String squote (body +++ String squote EmptyString)).
  assert (Hs : readString s 0 squote = Ok (s, 0 + len body + 2))
    by (apply (Hread EmptyString body EmptyString squote Hesc); discriminate).
  unfold lex. cbn [lex_loop].
  replace (0 <? len s) with true
    by (symmetry; apply Z.ltb_lt; unfold len, s; cbn [String.length]; lia).
  assert (byte_at s 0 = Ok squote) as -> by reflexivity. cbn [bind].
  rewrite Hs. cbn [bind].
  replace (0 + len body + 2) with (len s).
  - apply lex_loop_at_end.
  - unfold s. rewrite len_cons, len_append, len_cons. change (len "") with 0. lia.
Qed.

(** * Unquoting a name *)

(** X16.  [stripQuotes] takes one pair of matching quotes off a name and
    lower-cases what is left: a name between two double quotes or two
    single quotes gives its lower-cased inside, the empty inside
    included.  A name that does not start with a quote, and a name
    shorter than two bytes (a lone quote, the empty name), is lower-cased
    as it is; no index leaves the string. *)
Theorem stripQuotes_takes_one_pair :
  (forall (q : ascii) (inner : string),
      q = dquote \/ q = squote ->
      stripQuotes (String q (inner +++ String q EmptyString)) = Ok (ToLower inner))
  /\ (forall (s : string) (a : ascii),
        byte_at s 0 = Ok a -> a <> dquote -> a <> squote ->
        stripQuotes s = Ok (ToLower s))
  /\ (forall s : string, len s < 2 -> stripQuotes s = Ok (ToLower s)).
Proof.
  split; [|split].
  - intros q inner Hq. unfold stripQuotes, guarded.
    set (s := String q (inner +++ String q EmptyString)).
    assert (Hlen : len s = len inner + 2)
      by (unfold s; rewrite len_cons, len_append, len_cons; change (len "") with 0; lia).
    assert (0 <= len inner) by (unfold len; lia).
    replace (2 <=? len s) with true by (symmetry; apply Z.leb_le; lia).
    assert (byte_at s 0 = Ok q) as -> by reflexivity. cbn [bind].
    assert (byte_at s (len s - 1) = Ok q) as ->.
    { replace (len s - 1) with (len (String q inner)) by (rewrite len_cons; lia).
      apply (byte_at_append (String q inner) EmptyString q). }
    cbn [bind].
    assert ((Ascii.eqb q dquote && Ascii.eqb q dquote)
            || (Ascii.eqb q squote && Ascii.eqb q squote) = true) as ->
      by (destruct Hq as [-> | ->]; reflexivity).
    replace (len s - 1) with (len (String q EmptyString) + len inner)
      by (rewrite len_cons; change (len "") with 0; lia).
    change 1 with (len (String q EmptyString)) at 1.
    change s with (String q EmptyString +++ (inner +++ String q EmptyString)).
    rewrite slice_middle. reflexivity.
  - intros s a Ha Hd Hs. unfold stripQuotes, guarded.
    destruct (2 <=? len s) eqn:Hlen; cbn [bind]; [|reflexivity].
    zbool. rewrite Ha. cbn [bind]. read_byte s (len s - 1) z Hz.
    apply Ascii.eqb_neq in Hd, Hs. rewrite Hd, Hs. reflexivity.
  - intros s Hlen. unfold stripQuotes, guarded.
    replace (2 <=? len s) with false by (symmetry; apply Z.leb_gt; lia).
    reflexivity.
Qed.
End ValidatorProperties.

(** * The claims at concrete inputs *)

#[local] Existing Instance asciiUnicode.

Lemma top_level_or_split_witness :
  findTopLevelOrBranches toks_two_cuts 0 9 0 = Ok [ (0, 1); (2, 7); (8, 9) ].
Proof.
  destruct (proj1 top_level_or_split toks_two_cuts 0 9 0) as [Hspec _]; [lia|].
  exact Hspec.
Defined.

Lemma measure_name_check_exact_witness :
  exists b,
    whereHasMeasureNamePredicate toks_poisoned 0 (-1) = Ok b
    /\ (b = true <->
        has_valid_measure_use toks_poisoned 0 7 /\ no_invalid_measure_use toks_poisoned 0 7).
Proof.
  apply (proj1 measure_name_check_exact toks_poisoned 0 (-1)). lia.
Defined.

Lemma time_check_needs_time_identifier_witness :
  whereHasTimePredicate toks_measure_time 0 7 = Ok false.
Proof.
  apply (proj1 time_check_needs_time_identifier toks_measure_time 0 7); [lia|].
  intros t Ht. unfold toks_measure_time in Ht.
  repeat (apply elem_of_cons in Ht as [->|Ht]; [reflexivity|]).
  exact (False_ind _ (proj1 (elem_of_nil t) Ht)).
Defined.

Lemma parenthesis_depths_witness :
  exists toks t1 t2,
    lex "(a)" = Ok toks /\ toks !! 0%nat = Some t1 /\ toks !! 1%nat = Some t2
    /\ is_open t1 = true /\ is_close t2 = false /\ depth t2 = depth t1 + 1.
Proof.
  destruct (proj1 parenthesis_depths "(a)") as (toks & Hlex & _ & Hadj).
  assert (toks = [ mkToken "(" tkSymbol 0; mkToken "a" tkIdent 1; mkToken ")" tkSymbol 0 ])
    as Htoks by (vm_compute in Hlex; congruence).
  exists toks, (mkToken "(" tkSymbol 0), (mkToken "a" tkIdent 1).
  assert (toks !! 0%nat = Some (mkToken "(" tkSymbol 0)) as H0 by (rewrite Htoks; reflexivity).
  assert (toks !! 1%nat = Some (mkToken "a" tkIdent 1)) as H1 by (rewrite Htoks; reflexivity).
  split; [assumption|]. split; [assumption|]. split; [assumption|].
  split; [reflexivity|]. split; [reflexivity|].
  apply (Hadj 0%nat _ _ H0 H1); reflexivity.
Defined.

Lemma between_looks_back_six_tokens_witness :
  whereHasTimePredicate toks_not_between 0 (-1) = Ok true.
Proof.
  apply (proj1 between_looks_back_six_tokens toks_not_between 0 (-1) 4 0
           (mkToken "between" tkKeyword 0) (mkToken "time" tkIdent 0));
    try reflexivity; cbn; lia.
Defined.

Lemma comments_are_discarded_witness :
  exists q',
    stripComments " measure_name = 'x'" = Ok q'
    /\ stripComments ("WHERE " +++ "/*" +++ " time >= ago(1h) " +++ "*/"
                      +++ " measure_name = 'x'")
       = Ok ("WHERE " +++ q').
Proof.
  apply (proj1 comments_are_discarded "WHERE " " time >= ago(1h) " " measure_name = 'x'");
    reflexivity.
Defined.

Lemma select_without_from_raises_no_issue_witness :
  validateSelect toks_select_1 (mkSel 0 0) [] = Ok [].
Proof.
  apply (proj1 select_without_from_raises_no_issue toks_select_1 (mkSel 0 0) []); [cbn; lia|].
  intros j t Hj Ht Hfrom _. exfalso.
  pose proof (tok_at_bounds _ _ _ Ht) as Hb. cbn in Hj.
  unfold ntoks, toks_select_1 in Hb. cbn in Hb.
  assert (j = 1) as -> by lia. cbv in Ht. injection Ht as <-. discriminate Hfrom.
Defined.

Lemma lex_and_Validate_total_witness :
  lex (String squote "b c") = Ok [ mkToken (String squote "b c") tkString 0 ].
Proof.
  apply (proj1 (proj2 (proj2 (proj2 lex_and_Validate_total))) "b c"). reflexivity.
Defined.

Lemma comment_markers_cut_string_literals_witness :
  stripComments ("measure_name = " +++ String squote "a" +++ "--" +++ "b"
                 +++ String squote " AND time > 1")
  = Ok ("measure_name = " +++ String squote "a").
Proof.
  apply (proj1 comment_markers_cut_string_literals "measure_name = " "a" "b" " AND time > 1");
    reflexivity.
Defined.

(** C4 as the specification states it fails on [(a)]: the parentheses are
    recorded at depth 0 and the identifier between them at depth 1. *)
Lemma delimiters_not_at_inner_depth :
  exists toks, lex "(a)" = Ok toks /\ ~ delimiters_at_inner_depth toks.
Proof.
  exists [ mkToken "(" tkSymbol 0; mkToken "a" tkIdent 1; mkToken ")" tkSymbol 0 ].
  split; [vm_compute; reflexivity|].
  intros Hclaim.
  destruct (Hclaim 0%nat (mkToken "(" tkSymbol 0) (mkToken "a" tkIdent 1) eq_refl eq_refl)
    as [Hinner _].
  specialize (Hinner eq_refl eq_refl). discriminate Hinner.
Qed.

(** * Further properties at concrete inputs *)

Lemma terminator_is_first_clause_end_witness :
  exists r,
    findNextTerminatorAtDepth toks_site 3 0 = Ok r
    /\ 3 <= r <= ntoks toks_site
    /\ (forall k, 3 <= k < r -> tok_has toks_site k (ends_clause 0) = false)
    /\ (r = ntoks toks_site \/ tok_has toks_site r (ends_clause 0) = true)
    /\ (forall t, tok_at toks_site r = Ok t -> tok_is tkKeyword "where" t = true ->
                  depth t < 0).
Proof.
  apply (terminator_is_first_clause_end toks_site 3 0). vm_compute. split; discriminate.
Defined.

Lemma keyword_between_is_first_witness :
  exists r,
    findNextKeywordBetweenAtDepth toks_site 3 18 0 "where" = Ok r
    /\ ((r = -1
         /\ forall k, 3 <= k < 18 ->
              tok_has toks_site k (keyword_at_depth 0 "where") = false)
        \/ (3 <= r < 18 /\ r < ntoks toks_site
            /\ tok_has toks_site r (keyword_at_depth 0 "where") = true
            /\ forall k, 3 <= k < r ->
                 tok_has toks_site k (keyword_at_depth 0 "where") = false)).
Proof.
  apply (keyword_between_is_first toks_site 3 18 0 "where"). lia.
Defined.

Lemma keyword_at_depth_is_first_in_block_witness :
  exists r,
    findNextKeywordAtDepth toks_site 1 0 "from" = Ok r
    /\ ((r = -1
         /\ forall j, 1 <= j ->
              tok_has toks_site j (keyword_at_depth 0 "from") = true ->
              exists k, 1 <= k < j
                        /\ tok_has toks_site k (fun t => depth t <? 0) = true)
        \/ (1 <= r < ntoks toks_site
            /\ tok_has toks_site r (keyword_at_depth 0 "from") = true
            /\ forall k, 1 <= k < r ->
                 tok_has toks_site k (fun t => depth t <? 0) = false
                 /\ tok_has toks_site k (keyword_at_depth 0 "from") = false)).
Proof.
  apply (keyword_at_depth_is_first_in_block toks_site 1 0 "from"). lia.
Defined.

Lemma time_check_exact_witness :
  exists b,
    whereHasTimePredicate toks_site 7 14 = Ok b
    /\ (b = true <->
        exists i, 7 <= i < 14
                  /\ (time_then_operator toks_site 14 i \/ between_after_time toks_site 7 i)).
Proof.
  apply (time_check_exact toks_site 7 14). lia.
Defined.

Lemma branch_flags_exact_witness :
  exists hasMissingTime hasMissingMeasure,
    checkBranches toks_site [ (7, 14); (15, 18) ] false false
    = Ok (hasMissingTime, hasMissingMeasure)
    /\ (hasMissingTime = false <->
        Forall (fun br => whereHasTimePredicate toks_site (fst br) (snd br) = Ok true)
          [ (7, 14); (15, 18) ])
    /\ (hasMissingMeasure = false <->
        Forall (fun br => whereHasMeasureNamePredicate toks_site (fst br) (snd br) = Ok true)
          [ (7, 14); (15, 18) ]).
Proof.
  apply (branch_flags_exact toks_site [ (7, 14); (15, 18) ]).
  repeat constructor; cbn; lia.
Defined.

Lemma site_with_where_judged_by_branches_witness :
  exists contrib,
    (forall issues, validateSelect toks_site (mkSel 0 0) issues = Ok (issues ++ contrib))
    /\ (contrib = [] <->
        Forall (fun br =>
                  whereHasTimePredicate toks_site (fst br) (snd br) = Ok true
                  /\ whereHasMeasureNamePredicate toks_site (fst br) (snd br) = Ok true)
          (branches_between (or_cuts toks_site 0 7 18) 7 18)).
Proof.
  assert (H0 : 0 <= selIdx (mkSel 0 0)) by (cbn; lia).
  assert (H1 : findNextKeywordAtDepth toks_site (selIdx (mkSel 0 0) + 1)
                 (selDepth (mkSel 0 0)) "from" = Ok 2) by (vm_compute; reflexivity).
  assert (H2 : 2 <> -1) by lia.
  assert (H3 : findNextTerminatorAtDepth toks_site (2 + 1) (selDepth (mkSel 0 0)) = Ok 18)
    by (vm_compute; reflexivity).
  assert (H4 : fromStartsWithBaseTable toks_site (2 + 1) 18 (selDepth (mkSel 0 0)) = Ok true)
    by (vm_compute; reflexivity).
  assert (H5 : findNextKeywordBetweenAtDepth toks_site (2 + 1) 18 (selDepth (mkSel 0 0))
                 "where" = Ok 6) by (vm_compute; reflexivity).
  assert (H6 : 6 <> -1) by lia.
  assert (H7 : findNextTerminatorAtDepth toks_site (6 + 1) (selDepth (mkSel 0 0)) = Ok 18)
    by (vm_compute; reflexivity).
  destruct (site_with_where_judged_by_branches toks_site (mkSel 0 0) 2 18 6 18
              H0 H1 H2 H3 H4 H5 H6 H7) as (contrib & Hrun & Hnone & _).
  exists contrib. split; [exact Hrun | exact Hnone].
Defined.

Lemma site_contribution_shapes_witness :
  exists contrib,
    (forall issues, validateSelect toks_site (mkSel 0 0) issues = Ok (issues ++ contrib))
    /\ map Reason contrib ∈ site_reasons
    /\ (length contrib <= 2)%nat
    /\ Forall (fun i => AtDepth i = 0) contrib.
Proof.
  apply (site_contribution_shapes toks_site (mkSel 0 0)). cbn. lia.
Defined.

Lemma from_first_source_decides_witness :
  fromStartsWithBaseTable toks_dotted 3 9 0 = Ok true.
Proof.
  apply (proj1 (proj2 (proj2 from_first_source_decides)) toks_dotted 3 9 0 3 4
           (mkToken "mydb.sensors" tkIdent 0) (mkToken "s" tkIdent 0) "mydb.sensors");
    try reflexivity; try lia.
  - split; [lia|]. split; [reflexivity|]. split; [reflexivity|]. intros k Hk. lia.
  - split; [lia|]. split; [reflexivity|]. split; [reflexivity|]. intros k Hk. lia.
Defined.

Lemma from_two_part_name_witness :
  val (mkToken "." tkSymbol 0) = "."
  /\ fromStartsWithBaseTable toks_site 3 18 0 = Ok true.
Proof.
  apply (proj1 from_two_part_name toks_site 3 18 0 3 4 5
           (mkToken (quoted "db") tkIdent 0) (mkToken "." tkSymbol 0)
           (mkToken (quoted "tbl") tkIdent 0) "db");
    try reflexivity; try lia.
  - split; [lia|]. split; [reflexivity|]. split; [reflexivity|]. intros k Hk. lia.
  - split; [lia|]. split; [reflexivity|]. split; [reflexivity|]. intros k Hk. lia.
  - split; [lia|]. split; [reflexivity|]. split; [reflexivity|]. intros k Hk. lia.
Defined.

Lemma snippet_joins_token_values_witness :
  snippetAroundTokens toks_select_1 0 2
  = Ok (TrimSpace (join_vals (span toks_select_1 0 2))).
Proof.
  apply (proj1 (snippet_joins_token_values toks_select_1 0 2 ltac:(lia)
                  ltac:(vm_compute; discriminate))).
  intros i Hi. assert (i = 0 \/ i = 1) as [-> | ->] by lia; vm_compute; discriminate.
Defined.

Lemma readString_ends_at_single_quote_witness :
  lex (String squote ("it''s" +++ String squote EmptyString))
  = Ok [ mkToken (String squote ("it''s" +++ String squote EmptyString)) tkString 0 ].
Proof.
  apply (proj2 readString_ends_at_single_quote "it''s"). reflexivity.
Defined.

Lemma stripQuotes_takes_one_pair_witness :
  stripQuotes (String dquote ("Db.T" +++ String dquote EmptyString)) = Ok (ToLower "Db.T").
Proof.
  apply (proj1 stripQuotes_takes_one_pair dquote "Db.T"). left. reflexivity.
Defined.
